(** * HuePass: contrast engine, CVD simulator and palette export

    A shallow embedding of [src/scripts/contrast.ts],
    [src/scripts/color-blindness.ts] and [src/scripts/palette.ts].

    Conventions of the embedding.
    - A JavaScript [number] is idealised as a real number ([R]): arithmetic
      is exact, there is no NaN and no infinity.  Where the scripts can
      produce NaN ([parseInt] on text without digits) the embedding uses
      [option] and writes the propagation out.
    - [Math.round] and [parseInt] return integers; they are typed [Z] and
      injected with [IZR] where the script goes on computing with them.
    - A JavaScript string is a [string] of 8-bit characters; the case
      mappings act on the ASCII letters only, so statements that depend on
      them carry the hypothesis that the text is ASCII.
    - The values of [Math.random()] are arguments of the function that
      draws them.  The module variable [currentCVDMode], [localStorage] and
      what the scripts write of the root element are an explicit state;
      [JSON.parse] and [JSON.stringify] are arguments of the functions that
      call them.  A thrown exception is [None]. *)

From Stdlib Require Import Reals Lra Lia ZArith String Ascii List Bool.
From Stdlib Require DecimalString HexadecimalString.
Import ListNotations.

(* ================================================================== *)
(** ** JavaScript primitives used by the scripts *)
(* ================================================================== *)

Module JS.

(** *** Characters and the character classes of the regular expressions *)

Definition charCode (c : ascii) : N := N_of_ascii c.

Definition inRange (lo hi : N) (c : ascii) : bool :=
  ((lo <=? charCode c) && (charCode c <=? hi))%N.

(** [\d], [[0-9]] *)
Definition isDigit (c : ascii) : bool := inRange 48 57 c.
(** [[a-z]] *)
Definition isLower (c : ascii) : bool := inRange 97 122 c.
(** [[A-Z]] *)
Definition isUpper (c : ascii) : bool := inRange 65 90 c.
(** [[a-f\d]] under the [i] flag, and [[A-Fa-f0-9]] *)
Definition isHexDigit (c : ascii) : bool :=
  isDigit c || inRange 97 102 c || inRange 65 70 c.
(** [[a-z0-9]] *)
Definition isLowerAlnum (c : ascii) : bool := isLower c || isDigit c.
(** [[a-zA-Z0-9]] *)
Definition isAlnum (c : ascii) : bool := isLower c || isUpper c || isDigit c.
(** the characters [.] does not match: LF and CR *)
Definition isLineTerminator (c : ascii) : bool :=
  ((charCode c =? 10) || (charCode c =? 13))%N.
(** the white space [parseInt] skips: TAB, LF, VT, FF, CR, SP and NBSP *)
Definition isWhiteSpace (c : ascii) : bool :=
  (inRange 9 13 c || (charCode c =? 32) || (charCode c =? 160))%N.
(** a 7-bit character *)
Definition isAscii (c : ascii) : bool := (charCode c <? 128)%N.

Definition charToLowerCase (c : ascii) : ascii :=
  if isUpper c then ascii_of_N (charCode c + 32) else c.

Definition charToUpperCase (c : ascii) : ascii :=
  if isLower c then ascii_of_N (charCode c - 32) else c.

(** *** Strings *)

Fixpoint mapChars (f : ascii -> ascii) (s : string) : string :=
  match s with
  | EmptyString => EmptyString
  | String c t => String (f c) (mapChars f t)
  end.

Fixpoint allChars (p : ascii -> bool) (s : string) : bool :=
  match s with
  | EmptyString => true
  | String c t => p c && allChars p t
  end.

Definition toLowerCase (s : string) : string := mapChars charToLowerCase s.
Definition toUpperCase (s : string) : string := mapChars charToUpperCase s.

(** [s.split('').map((c) => c + c).join('')] *)
Fixpoint doubleChars (s : string) : string :=
  match s with
  | EmptyString => EmptyString
  | String c t => String c (String c (doubleChars t))
  end.

(** [s.replace(/^#/, '')] *)
Definition stripLeadingHash (s : string) : string :=
  match s with
  | String c t => if Ascii.eqb c "#" then t else s
  | EmptyString => s
  end.

(** [s.replace('#', '')]: the first occurrence, wherever it is *)
Fixpoint removeFirstHash (s : string) : string :=
  match s with
  | EmptyString => EmptyString
  | String c t => if Ascii.eqb c "#" then t else String c (removeFirstHash t)
  end.

(** [s.substring(from, to)] for [from <= to] *)
Definition substring (from to : nat) (s : string) : string :=
  String.substring from (to - from) s.

Fixpoint repeatChar (c : ascii) (n : nat) : string :=
  match n with
  | O => EmptyString
  | S k => String c (repeatChar c k)
  end.

(** [s.padStart(n, c)] for a one-character filler *)
Definition padStart (n : nat) (c : ascii) (s : string) : string :=
  (repeatChar c (n - String.length s) ++ s)%string.

(** [lines.join('\n')] *)
Definition newline : string := String (ascii_of_N 10) EmptyString.

Fixpoint joinLines (lines : list string) : string :=
  match lines with
  | [] => EmptyString
  | [x] => x
  | x :: rest => (x ++ newline ++ joinLines rest)%string
  end.

(** *** Numbers to text and back *)

(** [n.toString(16)] for an integer [n] *)
Definition toString16 (n : Z) : string :=
  HexadecimalString.NilZero.string_of_int (Z.to_hex_int n).

(** [String(n)] for a non-negative integer [n] *)
Definition decimalString (n : Z) : string :=
  DecimalString.NilZero.string_of_uint (N.to_uint (Z.to_N n)).

Definition hexDigitValue (c : ascii) : Z :=
  if isDigit c then Z.of_N (charCode c) - 48
  else if inRange 97 102 c then Z.of_N (charCode c) - 87
  else Z.of_N (charCode c) - 55.

Fixpoint skipWhile (p : ascii -> bool) (s : string) : string :=
  match s with
  | EmptyString => EmptyString
  | String c t => if p c then skipWhile p t else s
  end.

(** The value of the longest prefix of hexadecimal digits; [acc] is the
    value read so far, [None] while no digit has been read. *)
Fixpoint hexPrefixValue (acc : option Z) (s : string) : option Z :=
  match s with
  | EmptyString => acc
  | String c t =>
      if isHexDigit c
      then hexPrefixValue
             (Some (16 * match acc with Some v => v | None => 0 end
                    + hexDigitValue c)%Z) t
      else acc
  end.

(** [parseInt(s, 16)]; [None] is NaN.  White space is skipped, a sign and a
    [0x] prefix are accepted, and reading stops at the first character that
    is not a hexadecimal digit. *)
Definition parseInt16 (s : string) : option Z :=
  let s1 := skipWhile isWhiteSpace s in
  let signed :=
    match s1 with
    | String c t =>
        if Ascii.eqb c "-" then (true, t)
        else if Ascii.eqb c "+" then (false, t)
        else (false, s1)
    | EmptyString => (false, s1)
    end in
  let s2 := snd signed in
  let s3 :=
    match s2 with
    | String c0 (String c1 t) =>
        if Ascii.eqb c0 "0" && (Ascii.eqb c1 "x" || Ascii.eqb c1 "X")
        then t else s2
    | _ => s2
    end in
  match hexPrefixValue None s3 with
  | Some v => Some (if fst signed then (- v)%Z else v)
  | None => None
  end.

(** *** Numbers *)

Local Open Scope R_scope.

(** comparisons of numbers, as booleans *)
Definition num_le (x y : R) : bool := if Rle_dec x y then true else false.
Definition num_lt (x y : R) : bool := if Rlt_dec x y then true else false.
Definition num_ge (x y : R) : bool := num_le y x.
Definition num_gt (x y : R) : bool := num_lt y x.
(** [x === y] and [x !== y] on numbers *)
Definition num_eq (x y : R) : bool := if Req_dec_T x y then true else false.
Definition num_ne (x y : R) : bool := negb (num_eq x y).

(** [Math.round(x)]: the nearest integer, a tie going up *)
Definition Math_round (x : R) : Z := Zfloor (x + / 2).

(** [Math.pow(x, y)]; the scripts call it with [x > 0] only *)
Definition Math_pow (x y : R) : R := Rpower x y.

(** The text of [x.toFixed(f)], given the sign of [x] and the integer [n]
    nearest to [|x| * 10^f]: [n] in decimal, padded with zeros to [f + 1]
    digits, with a point before the last [f] digits when [f] is not 0. *)
Definition fixedText (neg : bool) (n : Z) (f : nat) : string :=
  let m := padStart (S f) "0" (decimalString n) in
  let k := String.length m in
  let body :=
    match f with
    | O => m
    | _ => (substring 0 (k - f) m ++ "." ++ substring (k - f) k m)%string
    end in
  if neg then ("-" ++ body)%string else body.

(** [x.toFixed(f)] (for [|x| < 1e21]): [n] is the integer nearest to
    [|x| * 10^f], the larger one at a tie. *)
Definition toFixed (x : R) (f : nat) : string :=
  let neg := num_lt x 0 in
  let ax := if neg then - x else x in
  fixedText neg (Zfloor (ax * 10 ^ f + / 2)) f.

(** [items.join(sep)] *)
Fixpoint joinWith (sep : string) (items : list string) : string :=
  match items with
  | [] => EmptyString
  | [x] => x
  | x :: rest => (x ++ sep ++ joinWith sep rest)%string
  end.

(** A loop whose body may throw: the results in order, [None] as soon as
    one step throws *)
Fixpoint mapOrThrow {A B : Type} (body : A -> option B) (items : list A)
    : option (list B) :=
  match items with
  | [] => Some []
  | x :: rest =>
      match body x with
      | Some y =>
          match mapOrThrow body rest with
          | Some ys => Some (y :: ys)
          | None => None
          end
      | None => None
      end
  end.


(** [Math.floor(x)] *)
Definition Math_floor (x : R) : Z := Zfloor x.

(** [items[i]] for an integer [i]; [None] is [undefined] *)
Definition item {A : Type} (items : list A) (i : Z) : option A :=
  if (i <? 0)%Z then None else nth_error items (Z.to_nat i).


(** The entries of [localStorage], a key at most once *)
Definition Storage : Type := list (string * string).

(** [storage.getItem(key)]; [None] is [null] *)
Fixpoint getItem (key : string) (storage : Storage) : option string :=
  match storage with
  | [] => None
  | (k, v) :: rest => if String.eqb k key then Some v else getItem key rest
  end.

(** [storage.removeItem(key)] *)
Fixpoint removeItem (key : string) (storage : Storage) : Storage :=
  match storage with
  | [] => []
  | (k, v) :: rest =>
      if String.eqb k key then removeItem key rest
      else (k, v) :: removeItem key rest
  end.

(** [storage.setItem(key, value)] *)
Definition setItem (key value : string) (storage : Storage) : Storage :=
  (key, value) :: removeItem key storage.

(** The values of JSON *)
Unset Elimination Schemes.
Inductive JSONValue : Type :=
  | JSON_null
  | JSON_boolean (value : bool)
  | JSON_number (value : R)
  | JSON_string (value : string)
  | JSON_array (items : list JSONValue)
  | JSON_object (entries : list (string * JSONValue)).
Set Elimination Schemes.

End JS.

(* ================================================================== *)
(** ** contrast.ts: WCAG colour contrast utilities *)
(* ================================================================== *)

Module Contrast.
Import JS.
Local Open Scope R_scope.

Record RGB := mkRGB { r : R; g : R; b : R }.

Record HSL := mkHSL { h : R; s : R; l : R }.

Record ContrastResult := mkContrastResult {
  ratio : R;
  ratioString : string;
  normalTextAA : bool;
  normalTextAAA : bool;
  largeTextAA : bool;
  largeTextAAA : bool;
  uiComponents : bool
}.

Module WCAG_THRESHOLDS.
Definition normalTextAAA : R := 7.
Definition normalTextAA : R := 4.5.
Definition largeTextAAA : R := 4.5.
Definition largeTextAA : R := 3.
Definition uiComponents : R := 3.
End WCAG_THRESHOLDS.

(** Parse a hex colour string to RGB values; [None] is [null].  The test
    [/^([a-f\d]{2})([a-f\d]{2})([a-f\d]{2})$/i] runs on text of length 6, so
    it asks that all six characters are hexadecimal digits; the three groups
    are the character pairs.  After it [parseInt] cannot give NaN, so the
    last branch of the [match] is never taken. *)
Definition hexToRgb (hex : string) : option RGB :=
  let sanitized := stripLeadingHash hex in
  let fullHex :=
    if (String.length sanitized =? 3)%nat then doubleChars sanitized
    else sanitized in
  if negb (String.length fullHex =? 6)%nat then None
  else if negb (allChars isHexDigit fullHex) then None
  else
    match parseInt16 (substring 0 2 fullHex),
          parseInt16 (substring 2 4 fullHex),
          parseInt16 (substring 4 6 fullHex) with
    | Some r, Some g, Some b => Some (mkRGB (IZR r) (IZR g) (IZR b))
    | _, _, _ => None
    end.

(** The local [toHex] of [rgbToHex] *)
Definition toHex (n : R) : string :=
  let clamped := Z.max 0 (Z.min 255 (Math_round n)) in
  padStart 2 "0" (toString16 clamped).

(** Convert RGB to hex string *)
Definition rgbToHex (rgb : RGB) : string :=
  ("#" ++ toHex (r rgb) ++ toHex (g rgb) ++ toHex (b rgb))%string.

(** Convert RGB to HSL.  [switch (max)] compares with [===], in the order
    [r], [g], [b]. *)
Definition rgbToHsl (rgb : RGB) : HSL :=
  let r := r rgb / 255 in
  let g := g rgb / 255 in
  let b := b rgb / 255 in
  let max := Rmax r (Rmax g b) in
  let min := Rmin r (Rmin g b) in
  let l := (max + min) / 2 in
  let hs :=
    if num_ne max min then
      let d := max - min in
      let s := if num_gt l 0.5 then d / (2 - max - min) else d / (max + min) in
      let h :=
        if num_eq max r then ((g - b) / d + (if num_lt g b then 6 else 0)) / 6
        else if num_eq max g then ((b - r) / d + 2) / 6
        else if num_eq max b then ((r - g) / d + 4) / 6
        else 0 in
      (h, s)
    else (0, 0) in
  mkHSL (fst hs * 360) (snd hs * 100) (l * 100).

(** The local [hue2rgb] of [hslToRgb]; [t] is reassigned twice. *)
Definition hue2rgb (p q t : R) : R :=
  let t := if num_lt t 0 then t + 1 else t in
  let t := if num_gt t 1 then t - 1 else t in
  if num_lt t (1 / 6) then p + (q - p) * 6 * t
  else if num_lt t (1 / 2) then q
  else if num_lt t (2 / 3) then p + (q - p) * (2 / 3 - t) * 6
  else p.

(** Convert HSL to RGB *)
Definition hslToRgb (hsl : HSL) : RGB :=
  let h := h hsl / 360 in
  let s := s hsl / 100 in
  let l := l hsl / 100 in
  let rgb :=
    if num_eq s 0 then (l, l, l)
    else
      let q := if num_lt l 0.5 then l * (1 + s) else l + s - l * s in
      let p := 2 * l - q in
      (hue2rgb p q (h + 1 / 3), hue2rgb p q h, hue2rgb p q (h - 1 / 3)) in
  mkRGB (IZR (Math_round (fst (fst rgb) * 255)))
        (IZR (Math_round (snd (fst rgb) * 255)))
        (IZR (Math_round (snd rgb * 255))).

(** The channel map of [getRelativeLuminance] *)
Definition channelLuminance (c : R) : R :=
  let s := c / 255 in
  if num_le s 0.03928 then s / 12.92
  else Math_pow ((s + 0.055) / 1.055) 2.4.

(** Relative luminance of a colour (WCAG 2.1) *)
Definition getRelativeLuminance (rgb : RGB) : R :=
  let sRGB := map channelLuminance [r rgb; g rgb; b rgb] in
  0.2126 * nth 0 sRGB 0 + 0.7152 * nth 1 sRGB 0 + 0.0722 * nth 2 sRGB 0.

(** Contrast ratio between two colours *)
Definition getContrastRatio (color1 color2 : RGB) : R :=
  let l1 := getRelativeLuminance color1 in
  let l2 := getRelativeLuminance color2 in
  let lighter := Rmax l1 l2 in
  let darker := Rmin l1 l2 in
  (lighter + 0.05) / (darker + 0.05).

(** Format contrast ratio for display *)
Definition formatContrastRatio (ratio : R) : string :=
  (toFixed ratio 2 ++ ":1")%string.

(** Check all WCAG compliance levels for a contrast ratio *)
Definition checkWCAGCompliance (ratio : R) : ContrastResult :=
  {| ratio := ratio;
     ratioString := formatContrastRatio ratio;
     normalTextAA := num_ge ratio WCAG_THRESHOLDS.normalTextAA;
     normalTextAAA := num_ge ratio WCAG_THRESHOLDS.normalTextAAA;
     largeTextAA := num_ge ratio WCAG_THRESHOLDS.largeTextAA;
     largeTextAAA := num_ge ratio WCAG_THRESHOLDS.largeTextAAA;
     uiComponents := num_ge ratio WCAG_THRESHOLDS.uiComponents |}.

(** The local [tryLightness] of [findPassingColor]; it closes over [hsl],
    [referenceColor] and [targetRatio]. *)
Definition tryLightness (hsl : HSL) (referenceColor : RGB) (targetRatio : R)
    (targetL : R) : option RGB :=
  let testHsl := mkHSL (h hsl) (s hsl) (Rmax 0 (Rmin 100 targetL)) in
  let testRgb := hslToRgb testHsl in
  let ratio := getContrastRatio testRgb referenceColor in
  if num_ge ratio targetRatio then Some testRgb else None.

(** [for (let i = ...; i <= 100; i += step) { const result = body(i);
    if (result) return result; }] with [count] iterations left, [step = 1];
    [None] when the loop is left without a [return].  A result is an object,
    hence truthy. *)
Fixpoint scanLoop (body : Z -> option RGB) (i : Z) (count : nat)
    : option RGB :=
  match count with
  | O => None
  | S k =>
      match body i with
      | Some result => Some result
      | None => scanLoop body (i + 1)%Z k
      end
  end.

(** Find a colour that passes a target contrast ratio, adjusting lightness
    while preserving hue and saturation.  Each loop runs for
    [i = 0, 1, ..., 100]. *)
Definition findPassingColor (colorToAdjust referenceColor : RGB)
    (targetRatio : R) : option RGB :=
  let hsl := rgbToHsl colorToAdjust in
  let refLuminance := getRelativeLuminance referenceColor in
  let tryLightness := tryLightness hsl referenceColor targetRatio in
  let goLighter := num_lt refLuminance 0.5 in
  match
    scanLoop (fun i =>
      let targetL :=
        if goLighter then Rmin 100 (l hsl + IZR i)
        else Rmax 0 (l hsl - IZR i) in
      tryLightness targetL) 0%Z 101
  with
  | Some result => Some result
  | None =>
    scanLoop (fun i =>
      let targetL :=
        if goLighter then Rmax 0 (l hsl - IZR i)
        else Rmin 100 (l hsl + IZR i) in
      tryLightness targetL) 0%Z 101
  end.

(** Validate a hex colour string: [/^#?([A-Fa-f0-9]{6}|[A-Fa-f0-9]{3})$/] *)
Definition isValidHex (hex : string) : bool :=
  let digits := stripLeadingHash hex in
  ((String.length digits =? 6)%nat || (String.length digits =? 3)%nat)
  && allChars isHexDigit digits.

(** Normalize hex colour (add ['#'] prefix, expand shorthand) *)
Definition normalizeHex (hex : string) : string :=
  let sanitized := toUpperCase (stripLeadingHash hex) in
  let sanitized :=
    if (String.length sanitized =? 3)%nat then doubleChars sanitized
    else sanitized in
  ("#" ++ sanitized)%string.

(** The levels ['AAA'], ['AA'] and ['Fail'] of [WCAGLevel] *)
Inductive Level : Type := Level_AAA | Level_AA | Level_Fail.

Record WCAGLevel := mkWCAGLevel { level : Level; label : string }.

(** Get the WCAG level for normal text *)
Definition getNormalTextLevel (ratio : R) : WCAGLevel :=
  if num_ge ratio WCAG_THRESHOLDS.normalTextAAA
  then {| level := Level_AAA; label := "AAA Pass" |}
  else if num_ge ratio WCAG_THRESHOLDS.normalTextAA
  then {| level := Level_AA; label := "AA Pass" |}
  else {| level := Level_Fail; label := "Fail" |}.

(** Get the WCAG level for large text *)
Definition getLargeTextLevel (ratio : R) : WCAGLevel :=
  if num_ge ratio WCAG_THRESHOLDS.largeTextAAA
  then {| level := Level_AAA; label := "AAA Pass" |}
  else if num_ge ratio WCAG_THRESHOLDS.largeTextAA
  then {| level := Level_AA; label := "AA Pass" |}
  else {| level := Level_Fail; label := "Fail" |}.


(** The object [generateAccessiblePair] returns *)
Record AccessiblePair := mkAccessiblePair {
  foreground : string;
  background : string
}.

(** The local [backgrounds] of [generateAccessiblePair]: four dark and
    four light backgrounds *)
Definition backgrounds : list string :=
  ["#0a0a0b"; "#111113"; "#18181b"; "#1f1f23";
   "#fafafa"; "#f4f4f5"; "#e4e4e7"; "#ffffff"]%string.

(** Generate a random accessible colour pair.  [random1], ..., [random4]
    are the values of the four calls of [Math.random()], in the order of
    the calls; of the two calls in the conditional expression for
    [targetLightness] only one is made.  [None] is a thrown [TypeError]:
    [hexToRgb] of [undefined], or [getRelativeLuminance] of [null]. *)
Definition generateAccessiblePair (random1 random2 random3 random4 : R)
    : option AccessiblePair :=
  match item backgrounds
          (Math_floor (random1 * IZR (Z.of_nat (length backgrounds)))) with
  | None => None
  | Some background =>
      match hexToRgb background with
      | None => None
      | Some bgRgb =>
          let hue := IZR (Math_floor (random2 * 360)) in
          let saturation := 50 + IZR (Math_floor (random3 * 40)) in
          let bgLuminance := getRelativeLuminance bgRgb in
          let targetLightness :=
            if num_lt bgLuminance 0.5
            then 70 + IZR (Math_floor (random4 * 25))
            else 15 + IZR (Math_floor (random4 * 30)) in
          let foregroundHsl := mkHSL hue saturation targetLightness in
          let foregroundRgb := hslToRgb foregroundHsl in
          let ratio := getContrastRatio foregroundRgb bgRgb in
          let foregroundRgb :=
            if num_lt ratio WCAG_THRESHOLDS.normalTextAA then
              match findPassingColor foregroundRgb bgRgb
                      WCAG_THRESHOLDS.normalTextAA with
              | Some passing => passing
              | None => foregroundRgb
              end
            else foregroundRgb in
          Some {| foreground := rgbToHex foregroundRgb;
                  background := background |}
      end
  end.

End Contrast.

(* ================================================================== *)
(** ** color-blindness.ts: colour vision deficiency simulation *)
(* ================================================================== *)

Module ColorBlindness.
Import JS.
Local Open Scope R_scope.

Inductive CVDType : Type :=
  | protanopia
  | deuteranopia
  | tritanopia
  | achromatopsia
  | none.

Definition Vec3 : Type := (R * R * R)%type.
Definition Matrix3 : Type := (Vec3 * Vec3 * Vec3)%type.

(** Transformation matrices for CVD simulation, row by row *)
Module CVD_MATRICES.
Definition protanopia : Matrix3 :=
  ((0.567, 0.433, 0.000),
   (0.558, 0.442, 0.000),
   (0.000, 0.242, 0.758)).
Definition deuteranopia : Matrix3 :=
  ((0.625, 0.375, 0.000),
   (0.700, 0.300, 0.000),
   (0.000, 0.300, 0.700)).
Definition tritanopia : Matrix3 :=
  ((0.950, 0.050, 0.000),
   (0.000, 0.433, 0.567),
   (0.000, 0.475, 0.525)).
End CVD_MATRICES.

(** Grayscale weights for achromatopsia *)
Definition GRAYSCALE_WEIGHTS : Vec3 := (0.2126, 0.7152, 0.0722).

(** Components [v[0]], [v[1]], [v[2]] *)
Definition at0 (v : Vec3) : R := fst (fst v).
Definition at1 (v : Vec3) : R := snd (fst v).
Definition at2 (v : Vec3) : R := snd v.
(** Rows [m[0]], [m[1]], [m[2]] *)
Definition row0 (m : Matrix3) : Vec3 := fst (fst m).
Definition row1 (m : Matrix3) : Vec3 := snd (fst m).
Definition row2 (m : Matrix3) : Vec3 := snd m.

(** Convert sRGB to linear RGB *)
Definition srgbToLinear (value : R) : R :=
  let v := value / 255 in
  if num_le v 0.04045 then v / 12.92
  else Math_pow ((v + 0.055) / 1.055) 2.4.

(** Convert linear RGB to sRGB *)
Definition linearToSrgb (value : R) : Z :=
  let v :=
    if num_le value 0.0031308 then value * 12.92
    else 1.055 * Math_pow value (1 / 2.4) - 0.055 in
  Math_round (Rmax 0 (Rmin 255 (v * 255))).

(** Apply matrix transformation to RGB values *)
Definition applyMatrix (rgb : Vec3) (matrix : Matrix3) : Vec3 :=
  (at0 rgb * at0 (row0 matrix) + at1 rgb * at1 (row0 matrix)
     + at2 rgb * at2 (row0 matrix),
   at0 rgb * at0 (row1 matrix) + at1 rgb * at1 (row1 matrix)
     + at2 rgb * at2 (row1 matrix),
   at0 rgb * at0 (row2 matrix) + at1 rgb * at1 (row2 matrix)
     + at2 rgb * at2 (row2 matrix)).

(** [n.toString(16).padStart(2, '0')] *)
Definition hexPair (n : Z) : string := padStart 2 "0" (toString16 n).

(** The linear colour a deficiency of type [cvdType] turns [linearRgb]
    into: the [if]/[else] of [simulateCVD].  [none] never gets here. *)
Definition simulateLinear (cvdType : CVDType) (linearRgb : Vec3) : Vec3 :=
  match cvdType with
  | achromatopsia =>
      let gray :=
        at0 linearRgb * at0 GRAYSCALE_WEIGHTS
        + at1 linearRgb * at1 GRAYSCALE_WEIGHTS
        + at2 linearRgb * at2 GRAYSCALE_WEIGHTS in
      (gray, gray, gray)
  | protanopia => applyMatrix linearRgb CVD_MATRICES.protanopia
  | deuteranopia => applyMatrix linearRgb CVD_MATRICES.deuteranopia
  | tritanopia => applyMatrix linearRgb CVD_MATRICES.tritanopia
  | none => linearRgb
  end.

(** Simulate how a colour appears to someone with a specific CVD type.
    When [parseInt] gives NaN for a channel, every linear channel of the
    result is NaN (a NaN times a zero matrix entry is NaN), [linearToSrgb]
    returns NaN and [NaN.toString(16).padStart(2, '0')] is ["NaN"]. *)
Definition simulateCVD (hex : string) (cvdType : CVDType) : string :=
  match cvdType with
  | none => hex
  | _ =>
      let cleanHex := removeFirstHash hex in
      match parseInt16 (substring 0 2 cleanHex),
            parseInt16 (substring 2 4 cleanHex),
            parseInt16 (substring 4 6 cleanHex) with
      | Some r, Some g, Some b =>
          let linearRgb : Vec3 :=
            (srgbToLinear (IZR r), srgbToLinear (IZR g),
             srgbToLinear (IZR b)) in
          let simulatedLinear := simulateLinear cvdType linearRgb in
          let newR := linearToSrgb (at0 simulatedLinear) in
          let newG := linearToSrgb (at1 simulatedLinear) in
          let newB := linearToSrgb (at2 simulatedLinear) in
          toUpperCase ("#" ++ hexPair newR ++ hexPair newG ++ hexPair newB)
      | _, _, _ => toUpperCase "#NaNNaNNaN"
      end
  end.


(** The string a [CVDType] is *)
Definition cvdTypeText (cvdType : CVDType) : string :=
  match cvdType with
  | protanopia => "protanopia"
  | deuteranopia => "deuteranopia"
  | tritanopia => "tritanopia"
  | achromatopsia => "achromatopsia"
  | none => "none"
  end%string.

Record CVDInfo := mkCVDInfo {
  id : CVDType;
  name : string;
  description : string;
  prevalence : string
}.

Definition CVD_TYPES : list CVDInfo :=
  [ {| id := protanopia;
       name := "Protanopia";
       description := "Red-blind, difficulty distinguishing red from green";
       prevalence := "~1% of males" |};
    {| id := deuteranopia;
       name := "Deuteranopia";
       description := "Green-blind, most common form of color blindness";
       prevalence := "~5% of males" |};
    {| id := tritanopia;
       name := "Tritanopia";
       description := "Blue-blind, difficulty with blue and yellow";
       prevalence := "~0.01% of population" |};
    {| id := achromatopsia;
       name := "Achromatopsia";
       description := "Complete color blindness, sees only in grayscale";
       prevalence := "~0.003% of population" |} ]%string.

(** Get SVG filter ID for a CVD type *)
Definition getCVDFilterId (cvdType : CVDType) : string :=
  ("cvd-filter-" ++ cvdTypeText cvdType)%string.

Definition CVD_STORAGE_KEY : string := "huepass-cvd-mode"%string.

(** What the state management of the CVD mode reads and writes: the module
    variable [currentCVDMode], [localStorage] ([None] when
    [typeof localStorage] is ['undefined']), of the root element
    [document.documentElement] the style property [filter] and the attribute
    [data-cvd-mode] ([None] when absent), and the [mode] of each
    [cvdModeChange] event dispatched on [window], the earliest first. *)
Record Page := mkPage {
  currentCVDMode : CVDType;
  localStorage : option Storage;
  filter : string;
  dataCvdMode : option string;
  dispatched : list CVDType
}.

(** Get current CVD mode *)
Definition getCurrentCVDMode (page : Page) : CVDType := currentCVDMode page.

(** Set CVD mode and apply to page *)
Definition setCVDMode (mode : CVDType) (page : Page) : Page :=
  {| currentCVDMode := mode;
     localStorage :=
       match localStorage page with
       | Some storage =>
           Some (setItem CVD_STORAGE_KEY (cvdTypeText mode) storage)
       | None => None
       end;
     filter :=
       match mode with
       | none => EmptyString
       | _ => ("url(#" ++ getCVDFilterId mode ++ ")")%string
       end;
     dataCvdMode :=
       match mode with
       | none => None
       | _ => Some (cvdTypeText mode)
       end;
     dispatched := dispatched page ++ [mode] |}.

(** Initialize CVD mode from stored preference.  The stored text is passed
    to [setCVDMode] when it is the [id] of an entry of [CVD_TYPES]; it is
    then that [CVDType].  An empty text is falsy. *)
Definition initCVDMode (page : Page) : Page :=
  match localStorage page with
  | Some storage =>
      match getItem CVD_STORAGE_KEY storage with
      | Some stored =>
          if String.eqb stored EmptyString then page
          else
            match find (fun t => String.eqb (cvdTypeText (id t)) stored)
                    CVD_TYPES with
            | Some t => setCVDMode (id t) page
            | None => page
            end
      | None => page
      end
  | None => page
  end.

End ColorBlindness.

(* ================================================================== *)
(** ** palette.ts: palette management and export *)
(* ================================================================== *)

Module Palette.
Import JS.
Local Open Scope R_scope.
Local Open Scope string_scope.

Record PaletteColor := mkPaletteColor {
  id : string;
  name : string;
  hex : string
}.

Record ContrastMatrixCell := mkContrastMatrixCell {
  foregroundId : string;
  backgroundId : string;
  ratio : R;
  compliance : Contrast.ContrastResult
}.

(** Calculate contrast between two palette colours *)
Definition calculatePairContrast (foreground background : PaletteColor) : R :=
  match Contrast.hexToRgb (hex foreground),
        Contrast.hexToRgb (hex background) with
  | Some fgRgb, Some bgRgb => Contrast.getContrastRatio fgRgb bgRgb
  | _, _ => 1
  end.

(** Generate a contrast matrix for all colours in a palette: the two
    [for ... of] loops, [push] appending at the end. *)
Definition generateContrastMatrix (colors : list PaletteColor)
    : list (list ContrastMatrixCell) :=
  fold_left
    (fun matrix bgColor =>
       let row :=
         fold_left
           (fun row fgColor =>
              let ratio := calculatePairContrast fgColor bgColor in
              (row ++ [ {| foregroundId := id fgColor;
                           backgroundId := id bgColor;
                           ratio := ratio;
                           compliance := Contrast.checkWCAGCompliance ratio |} ])%list)
           colors [] in
       (matrix ++ [row])%list)
    colors [].

(** *** Export keys *)

(** [s.replace(/[^a-z0-9]+/g, sep)]: every maximal run of characters outside
    [[a-z0-9]] becomes one [sep]; [inRun] tells that the run has begun. *)
Fixpoint collapseRuns (sep : ascii) (inRun : bool) (s : string) : string :=
  match s with
  | EmptyString => EmptyString
  | String c t =>
      if isLowerAlnum c then String c (collapseRuns sep false t)
      else if inRun then collapseRuns sep true t
      else String sep (collapseRuns sep true t)
  end.

(** the [^sep] alternative of [s.replace(/^sep|sep$/g, '')] *)
Definition stripLeading (sep : ascii) (s : string) : string :=
  match s with
  | String c t => if Ascii.eqb c sep then t else s
  | EmptyString => s
  end.

(** the [sep$] alternative of [s.replace(/^sep|sep$/g, '')] *)
Fixpoint stripTrailing (sep : ascii) (s : string) : string :=
  match s with
  | EmptyString => EmptyString
  | String c EmptyString => if Ascii.eqb c sep then EmptyString else s
  | String c t => String c (stripTrailing sep t)
  end.

(** [name.toLowerCase().replace(/[^a-z0-9]+/g, sep).replace(/^sep|sep$/g, '')] *)
Definition sanitizeKey (sep : ascii) (name : string) : string :=
  stripTrailing sep (stripLeading sep (collapseRuns sep false (toLowerCase name))).

(** the key each exporter derives from a colour name *)
Definition cssVarName (name : string) : string := sanitizeKey "-" name.
Definition jsonKey (name : string) : string := sanitizeKey "_" name.
Definition tailwindKey (name : string) : string := sanitizeKey "-" name.
Definition scssVarName (name : string) : string := sanitizeKey "-" name.
Definition designTokenKey (name : string) : string := sanitizeKey "-" name.
Definition androidName (name : string) : string := sanitizeKey "_" name.

(** The last character of [s] that [.] matches, with what follows it. *)
Fixpoint lastDotSplit (s : string) : option (ascii * string) :=
  match s with
  | EmptyString => None
  | String c t =>
      match lastDotSplit t with
      | Some found => Some found
      | None => if isLineTerminator c then None else Some (c, t)
      end
  end.

(** [/[^a-zA-Z0-9]+(.)/g] on a run of characters outside [[a-zA-Z0-9]] that
    reaches the end of the text.  The group [(.)] has to take a character of
    the run itself: the match that starts at the head of the run gives back
    characters until [(.)] finds one it matches, so it ends at the last such
    character of the tail, which the callback upper-cases.  What follows
    consists of line terminators and admits no further match.  When the tail
    holds no such character there is no match in the run at all. *)
Definition camelTrailingRun (run : string) : string :=
  match run with
  | EmptyString => EmptyString
  | String c t =>
      match lastDotSplit t with
      | Some (chr, rest) => String (charToUpperCase chr) rest
      | None => run
      end
  end.

(** [s.replace(/[^a-zA-Z0-9]+(.)/g, (_, chr) => chr.toUpperCase())]; [run]
    holds the characters outside [[a-zA-Z0-9]] read since the last one
    inside.  A run followed by a character of [[a-zA-Z0-9]] is matched whole
    together with it and replaced by its upper case. *)
Fixpoint camelScan (run : string) (s : string) : string :=
  match s with
  | EmptyString => camelTrailingRun run
  | String c t =>
      if isAlnum c then
        match run with
        | EmptyString => String c (camelScan EmptyString t)
        | _ => String (charToUpperCase c) (camelScan EmptyString t)
        end
      else camelScan (run ++ String c EmptyString) t
  end.

(** [s.replace(/[^a-zA-Z0-9]/g, '')] *)
Fixpoint keepAlnum (s : string) : string :=
  match s with
  | EmptyString => EmptyString
  | String c t => if isAlnum c then String c (keepAlnum t) else keepAlnum t
  end.

(** [s.replace(/^./, (chr) => chr.toLowerCase())] *)
Definition lowerFirst (s : string) : string :=
  match s with
  | String c t => if isLineTerminator c then s else String (charToLowerCase c) t
  | EmptyString => s
  end.

(** the [propertyName] of [exportAsSwift] *)
Definition swiftPropertyName (name : string) : string :=
  lowerFirst (keepAlnum (camelScan EmptyString name)).

(** *** Exporters *)

(** the line each exporter pushes for a colour *)
Definition cssLine (color : PaletteColor) : string :=
  "  --color-" ++ cssVarName (name color) ++ ": " ++ hex color ++ ";".

Definition tailwindLine (color : PaletteColor) : string :=
  "        '" ++ tailwindKey (name color) ++ "': '" ++ hex color ++ "',".

Definition scssVariableLine (color : PaletteColor) : string :=
  "$color-" ++ scssVarName (name color) ++ ": " ++ hex color ++ ";".

Definition scssMapLine (color : PaletteColor) : string :=
  "  '" ++ scssVarName (name color) ++ "': " ++ hex color ++ ",".

Definition quote : string := String (ascii_of_N 34) EmptyString.

Definition androidLine (color : PaletteColor) : string :=
  "    <color name=" ++ quote ++ androidName (name color) ++ quote ++ ">"
  ++ hex color ++ "</color>".

(** A channel of [exportAsSwift] as it is printed:
    [(parseInt(..., 16) / 255).toFixed(3)], ["NaN"] for NaN. *)
Definition swiftChannel (digits : string) : string :=
  match parseInt16 digits with
  | Some c => toFixed (IZR c / 255) 3
  | None => "NaN"
  end.

Definition swiftLine (color : PaletteColor) : string :=
  let propertyName := swiftPropertyName (name color) in
  let hex := removeFirstHash (hex color) in
  "        static let " ++ propertyName
  ++ " = UIColor(red: " ++ swiftChannel (substring 0 2 hex)
  ++ ", green: " ++ swiftChannel (substring 2 4 hex)
  ++ ", blue: " ++ swiftChannel (substring 4 6 hex)
  ++ ", alpha: 1.0)".

(** [obj[key] = value] on an object kept as its list of entries *)
Fixpoint setProperty {V : Type} (key : string) (value : V)
    (obj : list (string * V)) : list (string * V) :=
  match obj with
  | [] => [(key, value)]
  | (k, v) :: rest =>
      if String.eqb k key then (k, value) :: rest
      else (k, v) :: setProperty key value rest
  end.

Local Close Scope string_scope.

(** Export palette as CSS custom properties *)
Definition exportAsCSS (colors : list PaletteColor) : string :=
  joinLines ([":root {"%string] ++ map cssLine colors ++ ["}"%string]).

(** The object [palette] that [exportAsJSON] builds and hands, under the
    key [colors], to [JSON.stringify] (whose rendering is not modelled). *)
Definition exportAsJSON_palette (colors : list PaletteColor)
    : list (string * string) :=
  fold_left
    (fun palette color => setProperty (jsonKey (name color)) (hex color) palette)
    colors [].

(** Export palette as Tailwind config *)
Definition exportAsTailwind (colors : list PaletteColor) : string :=
  joinLines
    (["module.exports = {"; "  theme: {"; "    extend: {";
      "      colors: {"]%string
     ++ map tailwindLine colors
     ++ ["      },"; "    },"; "  },"; "};"]%string).

(** Export palette as SCSS variables, followed by a map *)
Definition exportAsSCSS (colors : list PaletteColor) : string :=
  joinLines
    (map scssVariableLine colors
     ++ [""; "$colors: ("]%string
     ++ map scssMapLine colors
     ++ [");"%string]).

(** The entries [key -> ($value, $description)] of [tokens.color] that
    [exportAsDesignTokens] builds; [$type] is ['color'] in each. *)
Definition exportAsDesignTokens_color (colors : list PaletteColor)
    : list (string * (string * string)) :=
  fold_left
    (fun tokens color =>
       setProperty (designTokenKey (name color)) (hex color, name color) tokens)
    colors [].

(** Export palette as Swift UIColor extensions *)
Definition exportAsSwift (colors : list PaletteColor) : string :=
  joinLines
    (["import UIKit"; ""; "extension UIColor {"; "    struct Palette {"]%string
     ++ map swiftLine colors
     ++ ["    }"; "}"]%string).

(** Export palette as Android XML colours *)
Definition xmlDeclaration : string :=
  ("<?xml version=" ++ quote ++ "1.0" ++ quote ++ " encoding=" ++ quote
   ++ "utf-8" ++ quote ++ "?>")%string.

Definition exportAsAndroidXML (colors : list PaletteColor) : string :=
  joinLines
    ([xmlDeclaration; "<resources>"%string]
     ++ map androidLine colors
     ++ ["</resources>"%string]).

(** *** The contrast report *)

(** The text of a matrix cell in the report *)
Definition reportCell (cell : ContrastMatrixCell) : string :=
  let ratioStr := Contrast.formatContrastRatio (ratio cell) in
  let status :=
    if Contrast.normalTextAA (compliance cell)
    then "Pass"%string else "Fail"%string in
  (ratioStr ++ " (" ++ status ++ ")")%string.

(** [matrix[i][j]] read as a cell; [None] when [matrix[i]] or
    [matrix[i][j]] is [undefined], where reading [cell.ratio] throws a
    [TypeError] *)
Definition matrixAt (matrix : list (list ContrastMatrixCell)) (i j : nat)
    : option ContrastMatrixCell :=
  match nth_error matrix i with
  | Some row => nth_error row j
  | None => None
  end.

(** The data row of the report for [colors[i]]: the inner loop over [j] *)
Definition reportRow (colors : list PaletteColor)
    (matrix : list (list ContrastMatrixCell)) (i : nat) : option string :=
  match nth_error colors i with
  | Some bgColor =>
      match mapOrThrow (fun j => option_map reportCell (matrixAt matrix i j))
              (seq 0 (length colors)) with
      | Some cells =>
          Some ("| " ++ joinWith " | " (name bgColor :: cells) ++ " |")%string
      | None => None
      end
  | None => None
  end.

(** Export contrast matrix as a formatted report; [None] when the function
    throws, which it does when [matrix] lacks a cell for a pair of
    colours. *)
Definition exportContrastReport (colors : list PaletteColor)
    (matrix : list (list ContrastMatrixCell)) : option string :=
  let headerCells :=
    "Background \ Foreground"%string :: map name colors in
  match mapOrThrow (reportRow colors matrix) (seq 0 (length colors)) with
  | Some rows =>
      Some (joinLines
              (["# Color Contrast Report"; ""; "## Palette Colors"; ""]%string
               ++ map (fun color =>
                         ("- **" ++ name color ++ "**: " ++ hex color)%string)
                    colors
               ++ [""; "## Contrast Matrix"; ""]%string
               ++ [("| " ++ joinWith " | " headerCells ++ " |")%string;
                   ("| " ++ joinWith " | " (map (fun _ => "---"%string)
                                              headerCells) ++ " |")%string]
               ++ rows))
  | None => None
  end.


(** Storage key for localStorage *)
Definition STORAGE_KEY : string := "huepass-palette"%string.

(** The JSON value of a palette: an array of objects with the properties
    [id], [name] and [hex] *)
Definition paletteValue (colors : list PaletteColor) : JSONValue :=
  JSON_array
    (map (fun color =>
            JSON_object [("id", JSON_string (id color));
                         ("name", JSON_string (name color));
                         ("hex", JSON_string (hex color))]%string)
       colors).

(** Save palette to localStorage; [localStorage] is [None] when
    [typeof localStorage] is ['undefined'].  [JSON_stringify] stands for
    [JSON.stringify]. *)
Definition savePalette (JSON_stringify : JSONValue -> string)
    (colors : list PaletteColor) (localStorage : option Storage)
    : option Storage :=
  match localStorage with
  | Some storage =>
      Some (setItem STORAGE_KEY (JSON_stringify (paletteValue colors)) storage)
  | None => None
  end.

(** Load palette from localStorage.  [JSON_parse] stands for [JSON.parse],
    [None] when it throws; what it returns is returned as it is.  An empty
    stored text is falsy. *)
Definition loadPalette (JSON_parse : string -> option JSONValue)
    (localStorage : option Storage) : JSONValue :=
  match localStorage with
  | None => JSON_array []
  | Some storage =>
      match getItem STORAGE_KEY storage with
      | None => JSON_array []
      | Some stored =>
          if String.eqb stored EmptyString then JSON_array []
          else
            match JSON_parse stored with
            | Some value => value
            | None => JSON_array []
            end
      end
  end.

(** Clear stored palette *)
Definition clearStoredPalette (localStorage : option Storage)
    : option Storage :=
  match localStorage with
  | Some storage => Some (removeItem STORAGE_KEY storage)
  | None => None
  end.

End Palette.

(* ================================================================== *)
(** ** Notions used to state the properties *)
(* ================================================================== *)

Module Notions.
Import JS.
Local Open Scope R_scope.

(** A colour whose channels lie in [[0, 255]] *)
Definition validChannel (c : R) : Prop := 0 <= c <= 255.

Definition validRGB (rgb : Contrast.RGB) : Prop :=
  validChannel (Contrast.r rgb) /\ validChannel (Contrast.g rgb)
  /\ validChannel (Contrast.b rgb).

(** [Math.max(0, Math.min(255, x))] *)
Definition clampChannel (x : R) : R := Rmax 0 (Rmin 255 x).

(** Hexadecimal digits of one case *)
Definition isLowerHexDigit (c : ascii) : bool := isDigit c || inRange 97 102 c.
Definition isUpperHexDigit (c : ascii) : bool := isDigit c || inRange 65 70 c.

(** ['#'] followed by six digits accepted by [digit] *)
Definition isHexColorOf (digit : ascii -> bool) (s : string) : bool :=
  match s with
  | String c t =>
      Ascii.eqb c "#" && (String.length t =? 6)%nat && allChars digit t
  | EmptyString => false
  end.

Definition isLowerHexColor : string -> bool := isHexColorOf isLowerHexDigit.
Definition isUpperHexColor : string -> bool := isHexColorOf isUpperHexDigit.

(** A valid 6-digit hex colour, with or without the leading ['#'] *)
Definition isValidHex6 (hex : string) : bool :=
  (String.length (stripLeadingHash hex) =? 6)%nat
  && allChars isHexDigit (stripLeadingHash hex).

(** The value of a pair of hexadecimal digits *)
Definition hexPairValue (c1 c2 : ascii) : Z :=
  (16 * hexDigitValue c1 + hexDigitValue c2)%Z.

(** Every character, and the hexadecimal digits among them *)
Definition allAscii : list ascii := map ascii_of_nat (seq 0 256).
Definition hexDigitChars : list ascii := filter isHexDigit allAscii.

Definition optZ_eqb (a c : option Z) : bool :=
  match a, c with
  | Some x, Some y => Z.eqb x y
  | None, None => true
  | _, _ => false
  end.

(** What a hexadecimal digit satisfies, as a check that can be run *)
Definition hexDigitOk (c : ascii) : bool :=
  negb (Ascii.eqb c "#")
  && isHexDigit (charToUpperCase c)
  && Z.eqb (hexDigitValue (charToUpperCase c)) (hexDigitValue c)
  && (0 <=? hexDigitValue c)%Z && (hexDigitValue c <=? 15)%Z.

(** [parseInt] reads a pair of hexadecimal digits as its value *)
Definition hexCharsOk (c1 c2 : ascii) : bool :=
  optZ_eqb (parseInt16 (String c1 (String c2 EmptyString)))
           (Some (hexPairValue c1 c2)).

(** [n.toString(16).padStart(2, '0')] is a pair of lower-case digits of
    value [n] *)
Definition hexPairOk (z : Z) : bool :=
  match ColorBlindness.hexPair z with
  | String c1 (String c2 EmptyString) =>
      isLowerHexDigit c1 && isLowerHexDigit c2 && Z.eqb (hexPairValue c1 c2) z
  | _ => false
  end.

(** Cell [(i, j)] of a grid: row [i], column [j] *)
Definition cellAt {A : Type} (grid : list (list A)) (i j : nat) : option A :=
  match nth_error grid i with
  | Some row => nth_error row j
  | None => None
  end.

(** The cell [generateContrastMatrix] pushes for a pair of colours *)
Definition matrixCell (bgColor fgColor : Palette.PaletteColor)
    : Palette.ContrastMatrixCell :=
  {| Palette.foregroundId := Palette.id fgColor;
     Palette.backgroundId := Palette.id bgColor;
     Palette.ratio := Palette.calculatePairContrast fgColor bgColor;
     Palette.compliance :=
       Contrast.checkWCAGCompliance
         (Palette.calculatePairContrast fgColor bgColor) |}.

(** The lightness search of [findPassingColor], in the words of the
    specification. *)
Inductive Direction : Type := Lighter | Darker.

Definition opposite (d : Direction) : Direction :=
  match d with Lighter => Darker | Darker => Lighter end.

(** Toward higher lightness first when the reference is dark (relative
    luminance below 0.5), toward lower lightness first otherwise. *)
Definition primaryDirection (referenceColor : Contrast.RGB) : Direction :=
  if Rlt_dec (Contrast.getRelativeLuminance referenceColor) 0.5
  then Lighter else Darker.

(** The lightness at offset [i] from [l0] in direction [d], kept in
    [[0, 100]] *)
Definition lightnessAt (d : Direction) (l0 : R) (i : Z) : R :=
  match d with
  | Lighter => Rmin 100 (l0 + IZR i)
  | Darker => Rmax 0 (l0 - IZR i)
  end.

(** The colour with the hue and the saturation of [colorToAdjust] at the
    lightness of offset [i] in direction [d] *)
Definition candidate (colorToAdjust : Contrast.RGB) (d : Direction) (i : Z)
    : Contrast.RGB :=
  let hsl := Contrast.rgbToHsl colorToAdjust in
  Contrast.hslToRgb
    (Contrast.mkHSL (Contrast.h hsl) (Contrast.s hsl)
       (Rmax 0 (Rmin 100 (lightnessAt d (Contrast.l hsl) i)))).

(** [c] meets [targetRatio] against the reference *)
Definition meets (referenceColor : Contrast.RGB) (targetRatio : R)
    (c : Contrast.RGB) : Prop :=
  targetRatio <= Contrast.getContrastRatio c referenceColor.

(** [result] is the colour at offset [i], the first offset of direction [d]
    among 0, 1, ..., 100 whose colour meets the target *)
Definition firstPassing (colorToAdjust referenceColor : Contrast.RGB)
    (targetRatio : R) (d : Direction) (i : Z) (result : Contrast.RGB) : Prop :=
  (0 <= i <= 100)%Z
  /\ result = candidate colorToAdjust d i
  /\ meets referenceColor targetRatio result
  /\ forall j : Z, (0 <= j < i)%Z ->
       ~ meets referenceColor targetRatio (candidate colorToAdjust d j).

(** no offset of direction [d] among 0, 1, ..., 100 meets the target *)
Definition nonePassing (colorToAdjust referenceColor : Contrast.RGB)
    (targetRatio : R) (d : Direction) : Prop :=
  forall j : Z, (0 <= j <= 100)%Z ->
    ~ meets referenceColor targetRatio (candidate colorToAdjust d j).

(** The thousandths a text [d.ddd] denotes *)
Definition decimalDigit (c : ascii) : option Z :=
  if isDigit c then Some (Z.of_N (charCode c) - 48)%Z else None.

Definition readFixed3 (text : string) : option Z :=
  match text with
  | String d0 (String p (String d1 (String d2 (String d3 EmptyString)))) =>
      if Ascii.eqb p "." then
        match decimalDigit d0, decimalDigit d1, decimalDigit d2,
              decimalDigit d3 with
        | Some a, Some c, Some d, Some e =>
            Some (1000 * a + 100 * c + 10 * d + e)%Z
        | _, _, _, _ => None
        end
      else None
  | _ => None
  end.

(** [text] denotes, in three decimals, the number channel/255 rounded to
    the nearest thousandth: it is within 0.0005 of it, and the channel is
    the nearest integer to 255 times what the text denotes. *)
Definition denotesChannel (text : string) (channel : Z) : Prop :=
  exists n : Z,
    readFixed3 text = Some n
    /\ Rabs (IZR n / 1000 - IZR channel / 255) <= 1 / 2000
    /\ Math_round (IZR n / 1000 * 255) = channel.

(** [text] denotes channel/255 exactly *)
Definition denotesChannelExactly (text : string) (channel : Z) : Prop :=
  exists n : Z, readFixed3 text = Some n /\ IZR n / 1000 = IZR channel / 255.

(** The thousandth nearest to channel/255 *)
Definition channelThousandths (channel : Z) : Z :=
  ((2000 * channel + 255) / 510)%Z.

(** What the text printed for a channel satisfies, as a check that can be
    run *)
Definition channelTextOk (channel : Z) : bool :=
  let n := channelThousandths channel in
  optZ_eqb (readFixed3 (fixedText false n 3)) (Some n)
  && (2 * Z.abs (255 * n - 1000 * channel) <=? 255)%Z
  && ((510 * n + 1000) / 2000 =? channel)%Z.

(** The words of a name: its maximal runs of letters and digits, in order.
    [wordSplit s] is the run [s] begins with, empty when [s] begins with
    punctuation, and the words after that run. *)
Definition consWord (w : string) (ws : list string) : list string :=
  match w with
  | EmptyString => ws
  | _ => w :: ws
  end.

Fixpoint wordSplit (s : string) : string * list string :=
  match s with
  | EmptyString => (EmptyString, [])
  | String c t =>
      if isAlnum c then (String c (fst (wordSplit t)), snd (wordSplit t))
      else (EmptyString, consWord (fst (wordSplit t)) (snd (wordSplit t)))
  end.

Definition words (s : string) : list string :=
  consWord (fst (wordSplit s)) (snd (wordSplit s)).

(** Names that differ only in letter case or in punctuation: they consist
    of the same words up to letter case, whatever characters that are
    neither letters nor digits stand before, between and after the words. *)
Definition differOnlyInCaseOrPunctuation (name1 name2 : string) : Prop :=
  map toLowerCase (words name1) = map toLowerCase (words name2).

(** A word with its first character in lower case, in upper case *)
Definition lowerInitial (w : string) : string :=
  match w with
  | String c t => String (charToLowerCase c) t
  | EmptyString => EmptyString
  end.

Definition upperInitial (w : string) : string :=
  match w with
  | String c t => String (charToUpperCase c) t
  | EmptyString => EmptyString
  end.

(** Names that differ only in punctuation and in the case of the first
    character of their words: the characters after the first of each word
    are the same, case included. *)
Definition differOnlyInInitialsOrPunctuation (name1 name2 : string) : Prop :=
  map lowerInitial (words name1) = map lowerInitial (words name2).

(** How the case mappings treat the characters of words, as a check that
    can be run *)
Definition wordCaseOk (a : ascii) : bool :=
  (if isAlnum a
   then isLowerAlnum (charToLowerCase a)
        && negb (isLineTerminator a)
        && negb (isLineTerminator (charToUpperCase a))
   else true)
  && Ascii.eqb (charToLowerCase (charToUpperCase a)) (charToLowerCase a)
  && Ascii.eqb (charToUpperCase (charToLowerCase a)) (charToUpperCase a)
  && Ascii.eqb (charToLowerCase (charToLowerCase a)) (charToLowerCase a).

(** A word begins with a letter or a digit. *)
Definition startsWithAlnum (w : string) : Prop :=
  exists c t, w = String c t /\ isAlnum c = true.

(** The words, each with the separator before it *)
Fixpoint prefixed (sep : ascii) (ws : list string) : string :=
  match ws with
  | [] => EmptyString
  | w :: rest => String sep (w ++ prefixed sep rest)
  end.

(** The words in a row, each with its first character in upper case *)
Fixpoint capitalized (ws : list string) : string :=
  match ws with
  | [] => EmptyString
  | w :: rest => (upperInitial w ++ capitalized rest)%string
  end.

(** Camel case: the first word with its first character in lower case,
    the others with theirs in upper case *)
Definition camelCase (ws : list string) : string :=
  match ws with
  | [] => EmptyString
  | w :: rest => (lowerInitial w ++ capitalized rest)%string
  end.

(** A word in lower case: letters of lower case and digits, at least one *)
Definition isLoweredWord (w : string) : Prop :=
  w <> EmptyString /\ allChars isLowerAlnum w = true.

(** Text of 7-bit characters *)
Definition isAsciiText (s : string) : bool := allChars isAscii s.

Definition isPunctuation (c : ascii) : bool := negb (isAlnum c).

(** The letters and digits [swiftPropertyName] keeps of a name, before the
    first is lower-cased: each one that follows punctuation is upper-cased;
    [pending] tells that punctuation has been read since the last one. *)
Fixpoint camelKept (pending : bool) (s : string) : string :=
  match s with
  | EmptyString => EmptyString
  | String c t =>
      if isAlnum c
      then String (if pending then charToUpperCase c else c) (camelKept false t)
      else camelKept true t
  end.

(** How the case mappings treat the character classes, as a check that can
    be run *)
Definition charCaseOk (a : ascii) : bool :=
  if isAlnum a then isAlnum (charToUpperCase a)
  else negb (isLowerAlnum (charToLowerCase a))
       && negb (isAlnum (charToUpperCase a)).

(** The six characters [hexToRgb] goes on with: the text without its
    leading ['#'], a shorthand of three characters doubled *)
Definition expandHex (hex : string) : string :=
  let sanitized := stripLeadingHash hex in
  if (String.length sanitized =? 3)%nat then doubleChars sanitized
  else sanitized.

(** The colour of six hexadecimal digits, no colour for any other text *)
Definition sixDigits (s : string) : option Contrast.RGB :=
  match s with
  | String c1 (String c2 (String c3 (String c4 (String c5
      (String c6 EmptyString))))) =>
      if allChars isHexDigit s
      then Some (Contrast.mkRGB (IZR (hexPairValue c1 c2))
                   (IZR (hexPairValue c3 c4)) (IZR (hexPairValue c5 c6)))
      else None
  | _ => None
  end.

(** How upper-casing treats the characters of a hex colour, as a check that
    can be run *)
Definition hexCaseOk (c : ascii) : bool :=
  Bool.eqb (isHexDigit (charToUpperCase c)) (isHexDigit c)
  && Bool.eqb (Ascii.eqb (charToUpperCase c) "#") (Ascii.eqb c "#")
  && Ascii.eqb (charToUpperCase (charToUpperCase c)) (charToUpperCase c)
  && Bool.eqb (isUpperHexDigit (charToUpperCase c)) (isHexDigit c).

(** Printing the value of a pair of digits gives the pair back, up to the
    case of the letters *)
Definition hexPairBackOk (c1 c2 : ascii) : bool :=
  String.eqb (toUpperCase (ColorBlindness.hexPair (hexPairValue c1 c2)))
             (toUpperCase (String c1 (String c2 EmptyString))).

(** A level is at least another: ['AAA'] above ['AA'] above ['Fail'] *)
Definition levelRank (lv : Contrast.Level) : nat :=
  match lv with
  | Contrast.Level_AAA => 2
  | Contrast.Level_AA => 1
  | Contrast.Level_Fail => 0
  end.

(** The hundredths a text [d.dd], [dd.dd], ... denotes *)
Fixpoint readDigits (acc : Z) (s : string) : option (Z * string) :=
  match s with
  | EmptyString => Some (acc, EmptyString)
  | String c t =>
      match decimalDigit c with
      | Some d => readDigits (10 * acc + d)%Z t
      | None => Some (acc, s)
      end
  end.

Definition readFixed2 (text : string) : option Z :=
  match text with
  | String c _ =>
      if isDigit c then
        match readDigits 0 text with
        | Some (whole, String p (String d1 (String d2 EmptyString))) =>
            if Ascii.eqb p "." then
              match decimalDigit d1, decimalDigit d2 with
              | Some a, Some e => Some (100 * whole + 10 * a + e)%Z
              | _, _ => None
              end
            else None
        | _ => None
        end
      else None
  | EmptyString => None
  end.

(** The text printed for [n] hundredths reads back as [n] *)
Definition fixed2Ok (n : Z) : bool :=
  optZ_eqb (readFixed2 (fixedText false n 2)) (Some n).

(** A well-formed export key over the separator [sep]: lower-case letters
    and digits, with single separators between them only.  [afterSep] tells
    that the character before is a separator (or that the text begins). *)
Fixpoint keyFrom (sep : ascii) (afterSep : bool) (s : string) : bool :=
  match s with
  | EmptyString => true
  | String c t =>
      if isLowerAlnum c then keyFrom sep false t
      else Ascii.eqb c sep && negb afterSep && keyFrom sep true t
  end.

Fixpoint endsWith (sep : ascii) (s : string) : bool :=
  match s with
  | EmptyString => false
  | String c EmptyString => Ascii.eqb c sep
  | String _ t => endsWith sep t
  end.

Definition isKey (sep : ascii) (s : string) : bool :=
  keyFrom sep true s && negb (endsWith sep s).

(** [obj[key]], [None] for [undefined] *)
Fixpoint getProperty {V : Type} (key : string) (obj : list (string * V))
    : option V :=
  match obj with
  | [] => None
  | (k, v) :: rest => if String.eqb k key then Some v else getProperty key rest
  end.

(** How lower-casing treats letters and digits, as a check that can be run *)
Definition lowerCaseOk (c : ascii) : bool :=
  (if isLowerAlnum c then Ascii.eqb (charToLowerCase c) c else true)
  && (if isAlnum c
      then isAlnum (charToLowerCase c) && negb (isUpper (charToLowerCase c))
      else true).

(** [c] with the separator [sep1] replaced by [sep2] *)
Definition swapSeparator (sep1 sep2 : ascii) (c : ascii) : ascii :=
  if Ascii.eqb c sep1 then sep2 else c.

(** The first character of a Swift property name is not an upper-case
    letter *)
Definition startsLower (s : string) : bool :=
  match s with
  | EmptyString => true
  | String c _ => negb (isUpper c)
  end.

(** The lines of the contrast report above the data rows *)
Definition reportHeading (colors : list Palette.PaletteColor) : list string :=
  (["# Color Contrast Report"; ""; "## Palette Colors"; ""]%string
   ++ map (fun color =>
             ("- **" ++ Palette.name color ++ "**: " ++ Palette.hex color)%string)
        colors
   ++ [""; "## Contrast Matrix"; ""]%string
   ++ [("| " ++ joinWith " | "
                  ("Background \ Foreground"%string :: map Palette.name colors)
        ++ " |")%string;
       ("| " ++ joinWith " | "
                  (map (fun _ => "---"%string)
                     ("Background \ Foreground"%string
                      :: map Palette.name colors))
        ++ " |")%string])%list.

(** The text of the pair of a background and a foreground colour in the
    report: the ratio to two decimals, and [Pass] when the ratio is at
    least 4.5 *)
Definition reportPair (bgColor fgColor : Palette.PaletteColor) : string :=
  (Contrast.formatContrastRatio (Palette.calculatePairContrast fgColor bgColor)
   ++ " ("
   ++ (if Rle_dec 4.5 (Palette.calculatePairContrast fgColor bgColor)
       then "Pass" else "Fail")
   ++ ")")%string.

(** The data row of a background colour *)
Definition reportRowOf (colors : list Palette.PaletteColor)
    (bgColor : Palette.PaletteColor) : string :=
  ("| " ++ joinWith " | "
             (Palette.name bgColor :: map (reportPair bgColor) colors)
   ++ " |")%string.


(** A colour whose channels are integers of [[0, 255]] *)
Definition integerRGB (c : Contrast.RGB) : Prop :=
  exists red green blue : Z,
    (0 <= red <= 255)%Z /\ (0 <= green <= 255)%Z /\ (0 <= blue <= 255)%Z
    /\ c = Contrast.mkRGB (IZR red) (IZR green) (IZR blue).


(** The text stored under [key], when there is a storage and an entry *)
Definition storedText (key : string) (page : ColorBlindness.Page)
    : option string :=
  match ColorBlindness.localStorage page with
  | Some storage => getItem key storage
  | None => None
  end.

(** The calls of the scripts that read or write [localStorage]; the two
    scripts share the one [localStorage] of the page. *)
Inductive Call : Type :=
  | Call_setCVDMode (mode : ColorBlindness.CVDType)
  | Call_initCVDMode
  | Call_savePalette (colors : list Palette.PaletteColor)
  | Call_clearStoredPalette.

Definition withStorage (page : ColorBlindness.Page)
    (storage : option Storage) : ColorBlindness.Page :=
  {| ColorBlindness.currentCVDMode := ColorBlindness.currentCVDMode page;
     ColorBlindness.localStorage := storage;
     ColorBlindness.filter := ColorBlindness.filter page;
     ColorBlindness.dataCvdMode := ColorBlindness.dataCvdMode page;
     ColorBlindness.dispatched := ColorBlindness.dispatched page |}.

Definition call (JSON_stringify : JSONValue -> string) (c : Call)
    (page : ColorBlindness.Page) : ColorBlindness.Page :=
  match c with
  | Call_setCVDMode mode => ColorBlindness.setCVDMode mode page
  | Call_initCVDMode => ColorBlindness.initCVDMode page
  | Call_savePalette colors =>
      withStorage page
        (Palette.savePalette JSON_stringify colors
           (ColorBlindness.localStorage page))
  | Call_clearStoredPalette =>
      withStorage page
        (Palette.clearStoredPalette (ColorBlindness.localStorage page))
  end.

(** A sequence of calls, the first of the list first *)
Definition calls (JSON_stringify : JSONValue -> string) (cs : list Call)
    (page : ColorBlindness.Page) : ColorBlindness.Page :=
  fold_left (fun p c => call JSON_stringify c p) cs page.

Definition isModeCall (c : Call) : bool :=
  match c with
  | Call_setCVDMode _ | Call_initCVDMode => true
  | _ => false
  end.

(** The page and the storage agree with the current mode: the root element
    has the filter and the attribute that [setCVDMode] gives it for that
    mode, and a mode other than ['none'] is the stored preference when
    there is a storage. *)
Definition agreesWithMode (page : ColorBlindness.Page) : Prop :=
  let mode := ColorBlindness.currentCVDMode page in
  ColorBlindness.filter page
  = ColorBlindness.filter (ColorBlindness.setCVDMode mode page)
  /\ ColorBlindness.dataCvdMode page
     = ColorBlindness.dataCvdMode (ColorBlindness.setCVDMode mode page)
  /\ (mode <> ColorBlindness.none ->
      ColorBlindness.localStorage page <> None ->
      storedText ColorBlindness.CVD_STORAGE_KEY page
      = Some (ColorBlindness.cvdTypeText mode)).


(** The sRGB transfer function in the words of the specification.
    Delinearizing a channel, with [c] the channel over 255: threshold
    0.04045, divisor 12.92 below, [((c + 0.055) / 1.055) ^ 2.4] above. *)
Definition delinearize (channel : R) : R :=
  let c := channel / 255 in
  if Rle_dec c 0.04045 then c / 12.92
  else Rpower ((c + 0.055) / 1.055) 2.4.

(** Re-encoding a linear value [c]: threshold 0.0031308, multiply by 12.92
    below, [1.055 * c ^ (1 / 2.4) - 0.055] above; then, on the scale of
    255, clamp to [[0, 255]] and round to the nearest integer. *)
Definition reencode (c : R) : Z :=
  let v :=
    if Rle_dec c 0.0031308 then c * 12.92
    else 1.055 * Rpower c (1 / 2.4) - 0.055 in
  Zfloor (Rmax 0 (Rmin 255 (255 * v)) + 1 / 2).


(** Two pages show the same CVD mode state: the current mode, the filter
    and the attribute of the root element, the events dispatched and the
    stored CVD preference are the same. *)
Definition sameModeState (page page' : ColorBlindness.Page) : Prop :=
  ColorBlindness.currentCVDMode page = ColorBlindness.currentCVDMode page'
  /\ ColorBlindness.filter page = ColorBlindness.filter page'
  /\ ColorBlindness.dataCvdMode page = ColorBlindness.dataCvdMode page'
  /\ ColorBlindness.dispatched page = ColorBlindness.dispatched page'
  /\ storedText ColorBlindness.CVD_STORAGE_KEY page
     = storedText ColorBlindness.CVD_STORAGE_KEY page'.

(** The compact JSON text of a value built of [null], booleans, strings in
    which nothing needs an escape, arrays and objects: the text
    [JSON.stringify] prints for it.  Numbers are not printed ([None]). *)
Fixpoint compactText (v : JSONValue) : option string :=
  let all (texts : list (option string)) : option (list string) :=
    fold_right (fun text rest =>
                  match text, rest with
                  | Some t, Some ts => Some (t :: ts)
                  | _, _ => None
                  end) (Some []) texts in
  match v with
  | JSON_null => Some "null"%string
  | JSON_boolean value => Some (if value then "true" else "false")%string
  | JSON_number _ => None
  | JSON_string value => Some (Palette.quote ++ value ++ Palette.quote)%string
  | JSON_array items =>
      match all (map compactText items) with
      | Some texts => Some ("[" ++ joinWith "," texts ++ "]")%string
      | None => None
      end
  | JSON_object entries =>
      match all (map (fun entry =>
                        match compactText (snd entry) with
                        | Some text =>
                            Some (Palette.quote ++ fst entry ++ Palette.quote
                                  ++ ":" ++ text)%string
                        | None => None
                        end) entries) with
      | Some texts => Some ("{" ++ joinWith "," texts ++ "}")%string
      | None => None
      end
  end.

(** A printer that prints what [compactText] can, and a reader that reads
    the text of one value back and throws on any other text *)
Definition printValue (v : JSONValue) : string :=
  match compactText v with
  | Some text => text
  | None => "null"%string
  end.

Definition readBack (known : JSONValue) (text : string) : option JSONValue :=
  if String.eqb text (printValue known) then Some known else None.

End Notions.

(* ================================================================== *)
(** ** Properties *)
(* ================================================================== *)

Import Notions.

Import JS.

(** *** Numbers *)

Section NumberFacts.
Local Open Scope R_scope.

Lemma num_le_true (x y : R) : num_le x y = true <-> x <= y.
Proof. unfold num_le; destruct (Rle_dec x y); split; intros; auto; discriminate. Qed.

Lemma num_le_false (x y : R) : num_le x y = false <-> y < x.
Proof.
  unfold num_le; destruct (Rle_dec x y); split; intros; auto; try discriminate; lra.
Qed.

Lemma num_lt_true (x y : R) : num_lt x y = true <-> x < y.
Proof. unfold num_lt; destruct (Rlt_dec x y); split; intros; auto; discriminate. Qed.

Lemma num_lt_false (x y : R) : num_lt x y = false <-> y <= x.
Proof.
  unfold num_lt; destruct (Rlt_dec x y); split; intros; auto; try discriminate; lra.
Qed.

Lemma num_eq_true (x y : R) : num_eq x y = true <-> x = y.
Proof. unfold num_eq; destruct (Req_dec_T x y); split; intros; auto; discriminate. Qed.

Lemma num_eq_false (x y : R) : num_eq x y = false <-> x <> y.
Proof.
  unfold num_eq; destruct (Req_dec_T x y); split; intros; auto; try discriminate; contradiction.
Qed.

Lemma Math_round_IZR (z : Z) : Math_round (IZR z) = z.
Proof. unfold Math_round; apply Zfloor_eq; lra. Qed.

Lemma Math_round_eq (z : Z) (x : R) :
  IZR z - / 2 <= x < IZR z + / 2 -> Math_round x = z.
Proof. intros Hx; unfold Math_round; apply Zfloor_eq; lra. Qed.

Lemma Math_round_bound (x : R) :
  x - / 2 < IZR (Math_round x) <= x + / 2.
Proof. unfold Math_round; pose proof (Zfloor_bound (x + / 2)); lra. Qed.

Lemma Math_pow_pos (x y : R) : 0 < Math_pow x y.
Proof. unfold Math_pow, Rpower; apply exp_pos. Qed.

Lemma Math_pow_le_1 (x y : R) : 0 < x <= 1 -> 0 <= y -> Math_pow x y <= 1.
Proof.
  intros Hx Hy; unfold Math_pow.
  assert (H1 : Rpower 1 y = 1)
    by (unfold Rpower; rewrite ln_1, Rmult_0_r; apply exp_0).
  rewrite <- H1; apply Rle_Rpower_l; lra.
Qed.

End NumberFacts.

(** *** Luminance and contrast *)

Section ContrastFacts.
Import Contrast.
Local Open Scope R_scope.

Lemma channelLuminance_range (c : R) :
  validChannel c -> 0 <= channelLuminance c <= 1.
Proof.
  unfold validChannel, channelLuminance; intros Hc.
  destruct (num_le (c / 255) 0.03928) eqn:E.
  - apply num_le_true in E; lra.
  - apply num_le_false in E; split.
    + left; apply Math_pow_pos.
    + apply Math_pow_le_1; lra.
Qed.

Lemma getRelativeLuminance_range (rgb : RGB) :
  validRGB rgb -> 0 <= getRelativeLuminance rgb <= 1.
Proof.
  intros (Hr & Hg & Hb); unfold getRelativeLuminance; simpl.
  apply channelLuminance_range in Hr, Hg, Hb; lra.
Qed.

Lemma getContrastRatio_comm (a c : RGB) :
  getContrastRatio a c = getContrastRatio c a.
Proof. unfold getContrastRatio; now rewrite Rmax_comm, Rmin_comm. Qed.

Lemma getContrastRatio_self (x : RGB) :
  0 <= getRelativeLuminance x -> getContrastRatio x x = 1.
Proof.
  intros Hx; unfold getContrastRatio.
  rewrite Rmax_left, Rmin_left by lra.
  field; lra.
Qed.

Lemma getContrastRatio_range (a c : RGB) :
  validRGB a -> validRGB c -> 1 <= getContrastRatio a c <= 21.
Proof.
  intros Ha Hc; apply getRelativeLuminance_range in Ha, Hc.
  unfold getContrastRatio.
  set (la := getRelativeLuminance a) in *; set (lc := getRelativeLuminance c) in *.
  assert (Hmin : 0 <= Rmin la lc) by (apply Rmin_glb; lra).
  assert (Hmax : Rmax la lc <= 1) by (apply Rmax_lub; lra).
  pose proof (Rminmax la lc) as Hmm.
  split.
  - apply Rmult_le_reg_r with (Rmin la lc + 0.05); [lra|].
    unfold Rdiv; rewrite Rmult_assoc, Rinv_l by lra; lra.
  - apply Rmult_le_reg_r with (Rmin la lc + 0.05); [lra|].
    unfold Rdiv; rewrite Rmult_assoc, Rinv_l by lra; lra.
Qed.

(** C1. For every pair of RGB colours [a] and [c] (channels in [[0, 255]]),
    [getContrastRatio a c] equals [getContrastRatio c a], it lies in
    [[1, 21]], and the contrast of a colour against itself is [1]. *)
Theorem getContrastRatio_symmetric_bounded_reflexive (a c : RGB) :
  validRGB a -> validRGB c ->
  getContrastRatio a c = getContrastRatio c a
  /\ 1 <= getContrastRatio a c <= 21
  /\ getContrastRatio a a = 1.
Proof.
  intros Ha Hc; split; [apply getContrastRatio_comm|split].
  - now apply getContrastRatio_range.
  - apply getContrastRatio_self; now apply getRelativeLuminance_range.
Qed.

(** Black against white is the largest ratio, 21. *)
Lemma getRelativeLuminance_black : getRelativeLuminance (mkRGB 0 0 0) = 0.
Proof.
  unfold getRelativeLuminance, channelLuminance; cbn [r g b map nth].
  rewrite (proj2 (num_le_true (0 / 255) 0.03928)) by lra; lra.
Qed.

Lemma getRelativeLuminance_white : getRelativeLuminance (mkRGB 255 255 255) = 1.
Proof.
  unfold getRelativeLuminance, channelLuminance; cbn [r g b map nth].
  rewrite (proj2 (num_le_false (255 / 255) 0.03928)) by lra.
  replace ((255 / 255 + 0.055) / 1.055) with 1 by lra.
  unfold Math_pow, Rpower; rewrite ln_1, Rmult_0_r, exp_0; lra.
Qed.

Lemma getContrastRatio_black_white :
  getContrastRatio (mkRGB 0 0 0) (mkRGB 255 255 255) = 21.
Proof.
  unfold getContrastRatio.
  rewrite getRelativeLuminance_black, getRelativeLuminance_white.
  rewrite Rmax_right, Rmin_left by lra; lra.
Qed.

Lemma getContrastRatio_black_white_witness :
  let white := mkRGB 255 255 255 in
  let black := mkRGB 0 0 0 in
  getContrastRatio white black = getContrastRatio black white
  /\ 1 <= getContrastRatio white black <= 21
  /\ getContrastRatio white white = 1.
Proof.
  apply (getContrastRatio_symmetric_bounded_reflexive
           (mkRGB 255 255 255) (mkRGB 0 0 0));
    unfold validRGB, validChannel; simpl; lra.
Defined.

End ContrastFacts.

(** *** Hexadecimal text *)

Section HexFacts.
Import Contrast.

Lemma allAscii_complete (c : ascii) : In c allAscii.
Proof.
  unfold allAscii; rewrite <- (ascii_nat_embedding c).
  apply in_map, in_seq; pose proof (nat_ascii_bounded c); lia.
Qed.

Lemma hexDigitChars_complete (c : ascii) :
  isHexDigit c = true -> In c hexDigitChars.
Proof. intros H; apply filter_In; split; [apply allAscii_complete|exact H]. Qed.

Lemma lower_is_hexDigit (c : ascii) :
  isLowerHexDigit c = true -> isHexDigit c = true.
Proof.
  unfold isLowerHexDigit, isHexDigit.
  destruct (isDigit c), (inRange 97 102 c), (inRange 65 70 c); auto.
Qed.

Lemma upper_is_hexDigit (c : ascii) :
  isUpperHexDigit c = true -> isHexDigit c = true.
Proof.
  unfold isUpperHexDigit, isHexDigit.
  destruct (isDigit c), (inRange 97 102 c), (inRange 65 70 c); auto.
Qed.

Lemma hexDigitOk_all : forallb hexDigitOk hexDigitChars = true.
Proof. vm_compute; reflexivity. Qed.

Lemma hexCharsOk_all :
  forallb (fun c1 => forallb (hexCharsOk c1) hexDigitChars) hexDigitChars = true.
Proof. vm_compute; reflexivity. Qed.

Lemma hexPairOk_all :
  forallb (fun n => hexPairOk (Z.of_nat n)) (seq 0 256) = true.
Proof. vm_compute; reflexivity. Qed.

Lemma lowerToUpper_all :
  forallb (fun c => implb (isLowerHexDigit c) (isUpperHexDigit (charToUpperCase c)))
    allAscii = true.
Proof. vm_compute; reflexivity. Qed.

Lemma hexDigit_facts (c : ascii) :
  isHexDigit c = true ->
  Ascii.eqb c "#" = false
  /\ isHexDigit (charToUpperCase c) = true
  /\ hexDigitValue (charToUpperCase c) = hexDigitValue c
  /\ (0 <= hexDigitValue c <= 15)%Z.
Proof.
  intros H; apply hexDigitChars_complete in H.
  pose proof (proj1 (forallb_forall _ _) hexDigitOk_all c H) as Hok.
  unfold hexDigitOk in Hok.
  repeat (apply andb_true_iff in Hok; destruct Hok as [Hok ?]).
  apply negb_true_iff in Hok.
  repeat split; auto; try (now apply Z.eqb_eq); lia.
Qed.

Lemma lowerHexDigit_toUpper (c : ascii) :
  isLowerHexDigit c = true -> isUpperHexDigit (charToUpperCase c) = true.
Proof.
  intros H.
  pose proof (proj1 (forallb_forall _ _) lowerToUpper_all c (allAscii_complete c)) as Hok.
  cbv beta in Hok; now rewrite H in Hok.
Qed.

Lemma parseInt16_hexPair (c1 c2 : ascii) :
  isHexDigit c1 = true -> isHexDigit c2 = true ->
  parseInt16 (String c1 (String c2 EmptyString)) = Some (hexPairValue c1 c2).
Proof.
  intros H1 H2; apply hexDigitChars_complete in H1, H2.
  pose proof (proj1 (forallb_forall _ _) hexCharsOk_all c1 H1) as Hrow.
  cbv beta in Hrow.
  pose proof (proj1 (forallb_forall _ _) Hrow c2 H2) as Hok.
  unfold hexCharsOk, optZ_eqb in Hok.
  destruct (parseInt16 (String c1 (String c2 EmptyString))); [|discriminate].
  now apply Z.eqb_eq in Hok; subst.
Qed.

Lemma hexPairValue_range (c1 c2 : ascii) :
  isHexDigit c1 = true -> isHexDigit c2 = true ->
  (0 <= hexPairValue c1 c2 <= 255)%Z.
Proof.
  intros H1 H2; apply hexDigit_facts in H1, H2; unfold hexPairValue; lia.
Qed.

Lemma hexPair_shape (z : Z) :
  (0 <= z <= 255)%Z ->
  exists c1 c2,
    ColorBlindness.hexPair z = String c1 (String c2 EmptyString)
    /\ isLowerHexDigit c1 = true /\ isLowerHexDigit c2 = true
    /\ hexPairValue c1 c2 = z.
Proof.
  intros Hz.
  assert (Hin : In (Z.to_nat z) (seq 0 256)) by (apply in_seq; lia).
  pose proof (proj1 (forallb_forall _ _) hexPairOk_all _ Hin) as Hok.
  cbv beta in Hok; rewrite Z2Nat.id in Hok by lia; unfold hexPairOk in Hok.
  destruct (ColorBlindness.hexPair z) as [|c1 [|c2 [|]]]; try discriminate.
  exists c1, c2.
  repeat (apply andb_true_iff in Hok; destruct Hok as [Hok ?]).
  repeat split; auto; now apply Z.eqb_eq.
Qed.

Lemma toHex_hexPair (n : R) :
  toHex n = ColorBlindness.hexPair (Z.max 0 (Z.min 255 (Math_round n))).
Proof. reflexivity. Qed.

(** Rounding and then clamping is clamping and then rounding. *)
Lemma round_then_clamp (x : R) :
  Z.max 0 (Z.min 255 (Math_round x)) = Math_round (clampChannel x).
Proof.
  unfold clampChannel.
  destruct (Rle_lt_dec x 0) as [H0|H0]; [|destruct (Rle_lt_dec 255 x) as [H1|H1]].
  - rewrite Rmin_right, Rmax_left by lra.
    rewrite Math_round_IZR.
    assert (Math_round x <= 0)%Z.
    { rewrite <- (Math_round_IZR 0); unfold Math_round; apply Zfloor_le; lra. }
    lia.
  - rewrite Rmin_left, Rmax_right by lra.
    rewrite Math_round_IZR.
    assert (255 <= Math_round x)%Z.
    { rewrite <- (Math_round_IZR 255) at 1; unfold Math_round; apply Zfloor_le; lra. }
    lia.
  - rewrite Rmin_right, Rmax_right by lra.
    assert (0 <= Math_round x)%Z.
    { rewrite <- (Math_round_IZR 0) at 1; unfold Math_round; apply Zfloor_le; lra. }
    assert (Math_round x <= 255)%Z.
    { rewrite <- (Math_round_IZR 255); unfold Math_round; apply Zfloor_le; lra. }
    lia.
Qed.

Lemma clamped_round_range (x : R) :
  (0 <= Z.max 0 (Z.min 255 (Math_round x)) <= 255)%Z.
Proof. lia. Qed.

(** [hexToRgb] on ['#'] and three pairs of hexadecimal digits *)
Lemma hexToRgb_six_digits (r1 r2 g1 g2 b1 b2 : ascii) :
  isHexDigit r1 = true -> isHexDigit r2 = true ->
  isHexDigit g1 = true -> isHexDigit g2 = true ->
  isHexDigit b1 = true -> isHexDigit b2 = true ->
  hexToRgb (String "#" (String r1 (String r2 (String g1 (String g2
             (String b1 (String b2 EmptyString)))))))
  = Some (mkRGB (IZR (hexPairValue r1 r2)) (IZR (hexPairValue g1 g2))
                (IZR (hexPairValue b1 b2))).
Proof.
  intros Hr1 Hr2 Hg1 Hg2 Hb1 Hb2.
  unfold hexToRgb.
  cbn [stripLeadingHash Ascii.eqb Bool.eqb String.length Nat.eqb negb allChars
       substring String.substring Nat.sub].
  rewrite Hr1, Hr2, Hg1, Hg2, Hb1, Hb2; cbn [andb negb].
  now rewrite !parseInt16_hexPair.
Qed.

End HexFacts.

(** *** The colour codec: hex text *)

Section CodecFacts.
Import Contrast.
Local Open Scope R_scope.

(** C3. For every RGB value with integer channels in [[0, 255]], parsing
    the text [rgbToHex] gives for it yields the same RGB value back:
    [hexToRgb (rgbToHex rgb) = Some rgb]. *)
Theorem hexToRgb_rgbToHex_round_trip (red green blue : Z) :
  (0 <= red <= 255)%Z -> (0 <= green <= 255)%Z -> (0 <= blue <= 255)%Z ->
  hexToRgb (rgbToHex (mkRGB (IZR red) (IZR green) (IZR blue)))
  = Some (mkRGB (IZR red) (IZR green) (IZR blue)).
Proof.
  intros Hr Hg Hb.
  unfold rgbToHex; cbn [r g b].
  rewrite !toHex_hexPair, !Math_round_IZR.
  rewrite !Z.min_r, !Z.max_r by lia.
  destruct (hexPair_shape red Hr) as (r1 & r2 & Er & Lr1 & Lr2 & Vr).
  destruct (hexPair_shape green Hg) as (g1 & g2 & Eg & Lg1 & Lg2 & Vg).
  destruct (hexPair_shape blue Hb) as (b1 & b2 & Eb & Lb1 & Lb2 & Vb).
  rewrite Er, Eg, Eb; cbn [append].
  rewrite hexToRgb_six_digits by now apply lower_is_hexDigit.
  now rewrite Vr, Vg, Vb.
Qed.

Lemma hexToRgb_rgbToHex_round_trip_witness :
  hexToRgb (rgbToHex (mkRGB 18 171 255)) = Some (mkRGB 18 171 255).
Proof.
  apply (hexToRgb_rgbToHex_round_trip 18 171 255); lia.
Defined.

(** C4 as the specification words it fails: the digits of [rgbToHex] are
    not upper case.  For the colour (255, 170, 0) the text is [#ffaa00]. *)
Lemma rgbToHex_not_uppercase :
  rgbToHex (mkRGB 255 170 0) = "#ffaa00"%string
  /\ isUpperHexColor (rgbToHex (mkRGB 255 170 0)) = false.
Proof.
  assert (E : rgbToHex (mkRGB 255 170 0) = "#ffaa00"%string).
  { unfold rgbToHex; cbn [r g b].
    rewrite !toHex_hexPair, !Math_round_IZR; vm_compute; reflexivity. }
  rewrite E; split; [reflexivity|vm_compute; reflexivity].
Qed.

(** The digits [rgbToHex] prints *)
Lemma rgbToHex_digits (rgb : RGB) :
  exists r1 r2 g1 g2 b1 b2 : ascii,
    rgbToHex rgb
    = String "#" (String r1 (String r2 (String g1 (String g2
        (String b1 (String b2 EmptyString))))))
    /\ isLowerHexColor (rgbToHex rgb) = true
    /\ hexPairValue r1 r2 = Math_round (clampChannel (r rgb))
    /\ hexPairValue g1 g2 = Math_round (clampChannel (g rgb))
    /\ hexPairValue b1 b2 = Math_round (clampChannel (b rgb)).
Proof.
  unfold rgbToHex; rewrite !toHex_hexPair.
  destruct (hexPair_shape _ (clamped_round_range (r rgb)))
    as (r1 & r2 & Er & Lr1 & Lr2 & Vr).
  destruct (hexPair_shape _ (clamped_round_range (g rgb)))
    as (g1 & g2 & Eg & Lg1 & Lg2 & Vg).
  destruct (hexPair_shape _ (clamped_round_range (b rgb)))
    as (b1 & b2 & Eb & Lb1 & Lb2 & Vb).
  exists r1, r2, g1, g2, b1, b2.
  rewrite Er, Eg, Eb; cbn [append].
  rewrite <- !round_then_clamp.
  repeat split; auto.
  unfold isLowerHexColor, isHexColorOf;
    cbn [Ascii.eqb Bool.eqb String.length Nat.eqb allChars andb].
  now rewrite Lr1, Lr2, Lg1, Lg2, Lb1, Lb2.
Qed.

(** C4, amended.  For every RGB input, [rgbToHex] returns ['#'] followed by
    six lower-case hexadecimal digits (seven characters), a pair per
    channel, and the value of each pair is the channel clamped to
    [[0, 255]] and rounded to the nearest integer. *)
Theorem rgbToHex_format (rgb : RGB) :
  exists r1 r2 g1 g2 b1 b2 : ascii,
    rgbToHex rgb
    = String "#" (String r1 (String r2 (String g1 (String g2
        (String b1 (String b2 EmptyString))))))
    /\ isLowerHexColor (rgbToHex rgb) = true
    /\ hexPairValue r1 r2 = Math_round (clampChannel (r rgb))
    /\ hexPairValue g1 g2 = Math_round (clampChannel (g rgb))
    /\ hexPairValue b1 b2 = Math_round (clampChannel (b rgb)).
Proof.
  destruct (rgbToHex_digits rgb)
    as (r1 & r2 & g1 & g2 & b1 & b2 & E & Hlow & Vr & Vg & Vb).
  exists r1, r2, g1, g2, b1, b2; repeat split; assumption.
Qed.

(** The upper-case form is what [normalizeHex] makes of the text. *)
Lemma normalizeHex_rgbToHex_uppercase (rgb : RGB) :
  isUpperHexColor (normalizeHex (rgbToHex rgb)) = true.
Proof.
  destruct (rgbToHex_digits rgb)
    as (r1 & r2 & g1 & g2 & b1 & b2 & E & Hlow & _).
  rewrite E in Hlow |- *.
  unfold isLowerHexColor, isHexColorOf in Hlow.
  cbn [Ascii.eqb Bool.eqb String.length Nat.eqb allChars andb] in Hlow.
  repeat (apply andb_true_iff in Hlow;
          let H := fresh "L" in destruct Hlow as [H Hlow]).
  unfold normalizeHex.
  cbn [stripLeadingHash Ascii.eqb Bool.eqb toUpperCase mapChars String.length
       Nat.eqb append].
  unfold isUpperHexColor, isHexColorOf.
  cbn [Ascii.eqb Bool.eqb String.length Nat.eqb allChars andb].
  now rewrite !lowerHexDigit_toUpper.
Qed.

End CodecFacts.

(** *** The CVD simulator *)

Section SimulatorFacts.
Import Contrast ColorBlindness.
Local Open Scope R_scope.

Lemma removeFirstHash_hexDigits (s : string) :
  allChars isHexDigit s = true -> removeFirstHash s = s.
Proof.
  induction s as [|c t IH]; cbn [allChars removeFirstHash]; [reflexivity|].
  intros H; apply andb_true_iff in H; destruct H as [Hc Ht].
  destruct (hexDigit_facts c Hc) as (Hh & _).
  now rewrite Hh, IH.
Qed.

Lemma removeFirstHash_valid (hex : string) :
  isValidHex6 hex = true -> removeFirstHash hex = stripLeadingHash hex.
Proof.
  unfold isValidHex6; intros H; apply andb_true_iff in H; destruct H as [_ H].
  destruct hex as [|c t]; [reflexivity|].
  cbn [stripLeadingHash removeFirstHash] in *.
  destruct (Ascii.eqb c "#"); [reflexivity|].
  cbn [allChars] in H; apply andb_true_iff in H; destruct H as [_ H].
  now rewrite removeFirstHash_hexDigits.
Qed.

Lemma isValidHex6_digits (hex : string) :
  isValidHex6 hex = true ->
  exists c1 c2 c3 c4 c5 c6 : ascii,
    stripLeadingHash hex
    = String c1 (String c2 (String c3 (String c4 (String c5
        (String c6 EmptyString)))))
    /\ isHexDigit c1 = true /\ isHexDigit c2 = true /\ isHexDigit c3 = true
    /\ isHexDigit c4 = true /\ isHexDigit c5 = true /\ isHexDigit c6 = true.
Proof.
  unfold isValidHex6; intros H; apply andb_true_iff in H; destruct H as [Hl Hd].
  destruct (stripLeadingHash hex) as [|c1 [|c2 [|c3 [|c4 [|c5 [|c6 [|]]]]]]];
    try discriminate.
  exists c1, c2, c3, c4, c5, c6.
  cbn [allChars] in Hd.
  repeat (apply andb_true_iff in Hd; destruct Hd as [? Hd]).
  repeat split; auto.
Qed.

Lemma hexToRgb_valid (hex : string) (c1 c2 c3 c4 c5 c6 : ascii) :
  stripLeadingHash hex
  = String c1 (String c2 (String c3 (String c4 (String c5
      (String c6 EmptyString))))) ->
  isHexDigit c1 = true -> isHexDigit c2 = true -> isHexDigit c3 = true ->
  isHexDigit c4 = true -> isHexDigit c5 = true -> isHexDigit c6 = true ->
  hexToRgb hex
  = Some (mkRGB (IZR (hexPairValue c1 c2)) (IZR (hexPairValue c3 c4))
                (IZR (hexPairValue c5 c6))).
Proof.
  intros E H1 H2 H3 H4 H5 H6.
  unfold hexToRgb; rewrite E.
  cbn [String.length Nat.eqb negb allChars substring String.substring Nat.sub].
  rewrite H1, H2, H3, H4, H5, H6; cbn [andb negb].
  now rewrite !parseInt16_hexPair.
Qed.

Lemma linearToSrgb_range (value : R) : (0 <= linearToSrgb value <= 255)%Z.
Proof.
  unfold linearToSrgb.
  match goal with
  | |- context [Math_round (Rmax 0 (Rmin 255 ?y))] =>
      change (Rmax 0 (Rmin 255 y)) with (clampChannel y);
      rewrite <- (round_then_clamp y)
  end.
  lia.
Qed.

(** The text of an equal-channel colour parses to that colour. *)
Lemma hexToRgb_upper_gray (v : Z) :
  (0 <= v <= 255)%Z ->
  hexToRgb (toUpperCase ("#" ++ hexPair v ++ hexPair v ++ hexPair v))
  = Some (mkRGB (IZR v) (IZR v) (IZR v))
  /\ isUpperHexColor (toUpperCase ("#" ++ hexPair v ++ hexPair v ++ hexPair v))
     = true.
Proof.
  intros Hv.
  destruct (hexPair_shape v Hv) as (d1 & d2 & E & L1 & L2 & V).
  rewrite E; cbn [append toUpperCase mapChars].
  change (charToUpperCase "#") with "#"%char.
  pose proof (lowerHexDigit_toUpper d1 L1) as U1.
  pose proof (lowerHexDigit_toUpper d2 L2) as U2.
  destruct (hexDigit_facts d1 (lower_is_hexDigit d1 L1)) as (_ & H1 & V1 & _).
  destruct (hexDigit_facts d2 (lower_is_hexDigit d2 L2)) as (_ & H2 & V2 & _).
  split.
  - rewrite hexToRgb_six_digits by assumption.
    unfold hexPairValue in *; rewrite V1, V2, V; reflexivity.
  - unfold isUpperHexColor, isHexColorOf;
      cbn [Ascii.eqb Bool.eqb String.length Nat.eqb allChars andb].
    now rewrite U1, U2.
Qed.

(** The channels of the achromatopsia simulation *)
Lemma simulateCVD_achromatopsia_channels (hex : string) :
  isValidHex6 hex = true ->
  exists red green blue : Z,
    hexToRgb hex = Some (mkRGB (IZR red) (IZR green) (IZR blue))
    /\ let gray :=
         0.2126 * srgbToLinear (IZR red) + 0.7152 * srgbToLinear (IZR green)
         + 0.0722 * srgbToLinear (IZR blue) in
       let v := linearToSrgb gray in
       hexToRgb (simulateCVD hex achromatopsia)
       = Some (mkRGB (IZR v) (IZR v) (IZR v))
       /\ isUpperHexColor (simulateCVD hex achromatopsia) = true.
Proof.
  intros Hvalid.
  destruct (isValidHex6_digits hex Hvalid)
    as (c1 & c2 & c3 & c4 & c5 & c6 & E & H1 & H2 & H3 & H4 & H5 & H6).
  exists (hexPairValue c1 c2), (hexPairValue c3 c4), (hexPairValue c5 c6).
  split; [now apply hexToRgb_valid|].
  cbv zeta.
  unfold simulateCVD.
  rewrite (removeFirstHash_valid hex Hvalid), E.
  cbn [substring String.substring Nat.sub].
  rewrite !parseInt16_hexPair by assumption.
  cbn [simulateLinear at0 at1 at2 fst snd GRAYSCALE_WEIGHTS].
  match goal with
  | |- context [linearToSrgb ?x] =>
      replace x with
        (0.2126 * srgbToLinear (IZR (hexPairValue c1 c2))
         + 0.7152 * srgbToLinear (IZR (hexPairValue c3 c4))
         + 0.0722 * srgbToLinear (IZR (hexPairValue c5 c6))) by ring
  end.
  apply hexToRgb_upper_gray, linearToSrgb_range.
Qed.

(** Simulation under [none] is the identity. *)
Lemma simulateCVD_none (hex : string) : simulateCVD hex none = hex.
Proof. reflexivity. Qed.

(** The transfer functions of the script are those the specification
    words. *)
Lemma srgbToLinear_delinearize (value : R) :
  srgbToLinear value = delinearize value.
Proof.
  unfold srgbToLinear, delinearize, num_le, Math_pow; cbv zeta.
  now destruct (Rle_dec (value / 255) 0.04045).
Qed.

Lemma linearToSrgb_reencode (value : R) :
  linearToSrgb value = reencode value.
Proof.
  unfold linearToSrgb, reencode, num_le, Math_pow, Math_round; cbv zeta.
  replace (1 / 2) with (/ 2) by lra.
  destruct (Rle_dec value 0.0031308); f_equal; f_equal; f_equal; f_equal;
    ring.
Qed.

(** C6. For every valid 6-digit hex colour, [simulateCVD] under
    achromatopsia returns a colour whose three channels are equal, each the
    re-encoding through the sRGB transfer function of the one scalar
    [0.2126 * R_lin + 0.7152 * G_lin + 0.0722 * B_lin] over the
    delinearized channels of the input.  The transfer function is written
    out as the specification gives it, [delinearize] and [reencode], not
    taken from the script. *)
Theorem simulateCVD_achromatopsia_gray (hex : string) :
  isValidHex6 hex = true ->
  exists red green blue : Z,
    hexToRgb hex = Some (mkRGB (IZR red) (IZR green) (IZR blue))
    /\ let gray :=
         0.2126 * delinearize (IZR red) + 0.7152 * delinearize (IZR green)
         + 0.0722 * delinearize (IZR blue) in
       let v := reencode gray in
       hexToRgb (simulateCVD hex achromatopsia)
       = Some (mkRGB (IZR v) (IZR v) (IZR v))
       /\ isUpperHexColor (simulateCVD hex achromatopsia) = true.
Proof.
  intros Hvalid.
  destruct (simulateCVD_achromatopsia_channels hex Hvalid)
    as (red & green & blue & Hparse & Hout).
  exists red, green, blue; split; [exact Hparse|].
  cbv zeta in Hout |- *.
  rewrite linearToSrgb_reencode, !srgbToLinear_delinearize in Hout.
  exact Hout.
Qed.

(** On the 8-bit channels the two breakpoints of the transfer function,
    0.04045 here and 0.03928 in the luminance formula, select the same
    branch: no channel/255 lies between them.  So the scalar of C6 is the
    relative luminance of the input colour. *)
Lemma srgbToLinear_channelLuminance (channel : Z) :
  (0 <= channel <= 255)%Z ->
  srgbToLinear (IZR channel) = channelLuminance (IZR channel).
Proof.
  intros Hc; unfold srgbToLinear, channelLuminance.
  destruct (Z_le_gt_dec channel 10) as [Hle|Hgt].
  - assert (IZR channel <= 10) by now apply IZR_le.
    assert (0 <= IZR channel) by (apply IZR_le; lia).
    rewrite (proj2 (num_le_true (IZR channel / 255) 0.04045)) by lra.
    rewrite (proj2 (num_le_true (IZR channel / 255) 0.03928)) by lra.
    reflexivity.
  - assert (11 <= IZR channel) by (apply IZR_le; lia).
    rewrite (proj2 (num_le_false (IZR channel / 255) 0.04045)) by lra.
    rewrite (proj2 (num_le_false (IZR channel / 255) 0.03928)) by lra.
    reflexivity.
Qed.

Lemma simulateCVD_achromatopsia_luminance (hex : string) :
  isValidHex6 hex = true ->
  exists rgb : RGB,
    hexToRgb hex = Some rgb
    /\ hexToRgb (simulateCVD hex achromatopsia)
       = Some (mkRGB (IZR (linearToSrgb (getRelativeLuminance rgb)))
                     (IZR (linearToSrgb (getRelativeLuminance rgb)))
                     (IZR (linearToSrgb (getRelativeLuminance rgb)))).
Proof.
  intros Hvalid.
  destruct (isValidHex6_digits hex Hvalid)
    as (c1 & c2 & c3 & c4 & c5 & c6 & E & H1 & H2 & H3 & H4 & H5 & H6).
  pose proof (hexToRgb_valid hex c1 c2 c3 c4 c5 c6 E H1 H2 H3 H4 H5 H6) as Hrgb.
  destruct (simulateCVD_achromatopsia_channels hex Hvalid)
    as (red & green & blue & Hparse & Hout & _).
  rewrite Hrgb in Hparse; injection Hparse as Er Eg Eb.
  apply eq_IZR in Er, Eg, Eb; subst red green blue.
  eexists; split; [exact Hrgb|].
  cbv zeta in Hout; rewrite Hout.
  unfold getRelativeLuminance; cbn [r g b map nth].
  now rewrite !srgbToLinear_channelLuminance by now apply hexPairValue_range.
Qed.

Lemma simulateCVD_achromatopsia_red_witness :
  exists red green blue : Z,
    hexToRgb "#FF0000" = Some (mkRGB (IZR red) (IZR green) (IZR blue))
    /\ hexToRgb (simulateCVD "#FF0000" achromatopsia)
       = Some (mkRGB
           (IZR (reencode (0.2126 * delinearize (IZR red)
              + 0.7152 * delinearize (IZR green)
              + 0.0722 * delinearize (IZR blue))))
           (IZR (reencode (0.2126 * delinearize (IZR red)
              + 0.7152 * delinearize (IZR green)
              + 0.0722 * delinearize (IZR blue))))
           (IZR (reencode (0.2126 * delinearize (IZR red)
              + 0.7152 * delinearize (IZR green)
              + 0.0722 * delinearize (IZR blue)))))
       /\ isUpperHexColor (simulateCVD "#FF0000" achromatopsia) = true.
Proof.
  apply (simulateCVD_achromatopsia_gray "#FF0000"); reflexivity.
Defined.

End SimulatorFacts.

(** *** The contrast matrix *)

Section MatrixFacts.
Import Contrast Palette.
Local Open Scope R_scope.

Lemma fold_left_push {A B : Type} (f : A -> B) (l : list A) (acc : list B) :
  fold_left (fun acc x => acc ++ [f x]) l acc = acc ++ map f l.
Proof.
  revert acc; induction l as [|x l IH]; intros acc; cbn [fold_left map].
  - now rewrite app_nil_r.
  - now rewrite IH, <- app_assoc.
Qed.

Lemma generateContrastMatrix_map (colors : list PaletteColor) :
  generateContrastMatrix colors
  = map (fun bgColor => map (matrixCell bgColor) colors) colors.
Proof.
  unfold generateContrastMatrix.
  rewrite (fold_left_push
             (fun bgColor =>
                fold_left
                  (fun row fgColor => row ++ [matrixCell bgColor fgColor])
                  colors [])).
  cbn [app]; apply map_ext; intros bgColor.
  now rewrite fold_left_push.
Qed.

Lemma generateContrastMatrix_length (colors : list PaletteColor) :
  length (generateContrastMatrix colors) = length colors.
Proof. now rewrite generateContrastMatrix_map, length_map. Qed.

Lemma generateContrastMatrix_row (colors : list PaletteColor) (i : nat)
    (bgColor : PaletteColor) :
  nth_error colors i = Some bgColor ->
  nth_error (generateContrastMatrix colors) i
  = Some (map (matrixCell bgColor) colors).
Proof.
  intros Hi; rewrite generateContrastMatrix_map.
  now rewrite nth_error_map, Hi.
Qed.

Lemma generateContrastMatrix_cellAt (colors : list PaletteColor) (i j : nat)
    (bgColor fgColor : PaletteColor) :
  nth_error colors i = Some bgColor -> nth_error colors j = Some fgColor ->
  cellAt (generateContrastMatrix colors) i j = Some (matrixCell bgColor fgColor).
Proof.
  intros Hi Hj; unfold cellAt.
  rewrite (generateContrastMatrix_row colors i bgColor Hi).
  now rewrite nth_error_map, Hj.
Qed.

(** A parsed colour has its channels in [[0, 255]]. *)
Lemma hexToRgb_validRGB (hex : string) (rgb : RGB) :
  hexToRgb hex = Some rgb -> validRGB rgb.
Proof.
  unfold hexToRgb.
  set (fullHex := if (String.length (stripLeadingHash hex) =? 3)%nat
                  then doubleChars (stripLeadingHash hex)
                  else stripLeadingHash hex).
  destruct (String.length fullHex =? 6)%nat eqn:El; cbn [negb]; [|discriminate].
  destruct (allChars isHexDigit fullHex) eqn:Ed; cbn [negb]; [|discriminate].
  destruct fullHex as [|c1 [|c2 [|c3 [|c4 [|c5 [|c6 [|]]]]]]]; try discriminate.
  cbn [allChars] in Ed.
  repeat (apply andb_true_iff in Ed; let H := fresh "H" in destruct Ed as [H Ed]).
  cbn [substring String.substring Nat.sub].
  rewrite !parseInt16_hexPair by assumption.
  intros E; injection E as <-.
  unfold validRGB, validChannel; cbn [r g b].
  pose proof (hexPairValue_range c1 c2) as R1.
  pose proof (hexPairValue_range c3 c4) as R2.
  pose proof (hexPairValue_range c5 c6) as R3.
  repeat split; (apply IZR_le; first [apply R1|apply R2|apply R3]; assumption).
Qed.

Lemma calculatePairContrast_self (color : PaletteColor) :
  calculatePairContrast color color = 1.
Proof.
  unfold calculatePairContrast.
  destruct (hexToRgb (hex color)) as [rgb|] eqn:E; [|reflexivity].
  apply getContrastRatio_self.
  now apply getRelativeLuminance_range, (hexToRgb_validRGB (hex color)).
Qed.

(** C5. For every ordered list of N palette colours the matrix has N rows
    of N cells; cell [(i, j)] carries the id of the [i]-th colour as
    [backgroundId] and the id of the [j]-th colour as [foregroundId]; and
    the diagonal cell [(i, i)] has ratio [1]. *)
Theorem generateContrastMatrix_grid (colors : list PaletteColor) (i j : nat)
    (bgColor fgColor : PaletteColor) :
  nth_error colors i = Some bgColor -> nth_error colors j = Some fgColor ->
  length (generateContrastMatrix colors) = length colors
  /\ (exists row,
        nth_error (generateContrastMatrix colors) i = Some row
        /\ length row = length colors)
  /\ (exists cell,
        cellAt (generateContrastMatrix colors) i j = Some cell
        /\ backgroundId cell = id bgColor
        /\ foregroundId cell = id fgColor)
  /\ (exists diagonal,
        cellAt (generateContrastMatrix colors) i i = Some diagonal
        /\ ratio diagonal = 1).
Proof.
  intros Hi Hj; split; [apply generateContrastMatrix_length|split; [|split]].
  - exists (map (matrixCell bgColor) colors); split.
    + now apply generateContrastMatrix_row.
    + apply length_map.
  - exists (matrixCell bgColor fgColor); split.
    + now apply generateContrastMatrix_cellAt.
    + split; reflexivity.
  - exists (matrixCell bgColor bgColor); split.
    + now apply generateContrastMatrix_cellAt.
    + apply calculatePairContrast_self.
Qed.

Lemma generateContrastMatrix_grid_witness :
  let ink := mkPaletteColor "c1" "Ink" "#000000" in
  let paper := mkPaletteColor "c2" "Paper" "#FFFFFF" in
  let matrix := generateContrastMatrix [ink; paper] in
  length matrix = 2%nat
  /\ (exists row, nth_error matrix 0 = Some row /\ length row = 2%nat)
  /\ (exists cell,
        cellAt matrix 0 1 = Some cell
        /\ backgroundId cell = "c1"%string /\ foregroundId cell = "c2"%string)
  /\ (exists diagonal, cellAt matrix 0 0 = Some diagonal /\ ratio diagonal = 1).
Proof.
  apply (generateContrastMatrix_grid
           [mkPaletteColor "c1" "Ink" "#000000";
            mkPaletteColor "c2" "Paper" "#FFFFFF"]
           0 1 (mkPaletteColor "c1" "Ink" "#000000")
           (mkPaletteColor "c2" "Paper" "#FFFFFF")); reflexivity.
Defined.

Lemma toFixed_1_2 : toFixed 1 2 = "1.00"%string.
Proof.
  unfold toFixed.
  rewrite (proj2 (num_lt_false 1 0)) by lra.
  replace (Zfloor (1 * 10 ^ 2 + / 2)) with 100%Z
    by (symmetry; apply Zfloor_eq; simpl; lra).
  vm_compute; reflexivity.
Qed.

Lemma checkWCAGCompliance_1 :
  checkWCAGCompliance 1
  = {| Contrast.ratio := 1;
       ratioString := "1.00:1";
       normalTextAA := false;
       normalTextAAA := false;
       largeTextAA := false;
       largeTextAAA := false;
       uiComponents := false |}.
Proof.
  unfold checkWCAGCompliance, formatContrastRatio, num_ge,
    WCAG_THRESHOLDS.normalTextAA, WCAG_THRESHOLDS.normalTextAAA,
    WCAG_THRESHOLDS.largeTextAA, WCAG_THRESHOLDS.largeTextAAA,
    WCAG_THRESHOLDS.uiComponents.
  rewrite toFixed_1_2.
  rewrite !(proj2 (num_le_false _ 1)) by lra.
  reflexivity.
Qed.

Lemma calculatePairContrast_unparsable (fgColor bgColor : PaletteColor) :
  hexToRgb (hex fgColor) = None \/ hexToRgb (hex bgColor) = None ->
  calculatePairContrast fgColor bgColor = 1.
Proof.
  unfold calculatePairContrast; intros [E|E]; rewrite E; [reflexivity|].
  now destruct (hexToRgb (hex fgColor)).
Qed.

(** C10. For every pair of palette colours, if the hex text of either fails
    to parse, [calculatePairContrast] returns the ratio [1]; and in the
    matrix of any palette, which has a cell for every pair of positions
    whatever the records hold, the cell of such a pair carries ratio [1]
    and the classification of [1], all of whose flags are false. *)
Theorem calculatePairContrast_unparsable_ratio_1 (colors : list PaletteColor)
    (i j : nat) (bgColor fgColor : PaletteColor) :
  nth_error colors i = Some bgColor -> nth_error colors j = Some fgColor ->
  hexToRgb (hex fgColor) = None \/ hexToRgb (hex bgColor) = None ->
  calculatePairContrast fgColor bgColor = 1
  /\ exists cell,
       cellAt (generateContrastMatrix colors) i j = Some cell
       /\ ratio cell = 1
       /\ compliance cell = checkWCAGCompliance 1
       /\ normalTextAA (compliance cell) = false
       /\ normalTextAAA (compliance cell) = false
       /\ largeTextAA (compliance cell) = false
       /\ largeTextAAA (compliance cell) = false
       /\ uiComponents (compliance cell) = false.
Proof.
  intros Hi Hj Hbad.
  pose proof (calculatePairContrast_unparsable fgColor bgColor Hbad) as E.
  split; [exact E|].
  exists (matrixCell bgColor fgColor); split.
  - now apply generateContrastMatrix_cellAt.
  - unfold matrixCell; cbn [ratio compliance]; rewrite E.
    split; [reflexivity|]; rewrite checkWCAGCompliance_1; repeat split.
Qed.

Lemma calculatePairContrast_unparsable_witness :
  let ink := mkPaletteColor "c1" "Ink" "#000000" in
  let broken := mkPaletteColor "c2" "Broken" "zzz" in
  calculatePairContrast broken ink = 1
  /\ exists cell,
       cellAt (generateContrastMatrix [ink; broken]) 0 1 = Some cell
       /\ ratio cell = 1
       /\ compliance cell = checkWCAGCompliance 1
       /\ normalTextAA (compliance cell) = false
       /\ normalTextAAA (compliance cell) = false
       /\ largeTextAA (compliance cell) = false
       /\ largeTextAAA (compliance cell) = false
       /\ uiComponents (compliance cell) = false.
Proof.
  apply (calculatePairContrast_unparsable_ratio_1
           [mkPaletteColor "c1" "Ink" "#000000";
            mkPaletteColor "c2" "Broken" "zzz"]
           0 1 (mkPaletteColor "c1" "Ink" "#000000")
           (mkPaletteColor "c2" "Broken" "zzz"));
    [reflexivity|reflexivity|left; reflexivity].
Defined.

End MatrixFacts.

(** *** The accessible-alternative search *)

Section SearchFacts.
Import Contrast.
Local Open Scope R_scope.

(** What the loop returns: the result of the body at the first index where
    it gives one. *)
Lemma scanLoop_spec (body : Z -> option RGB) (count : nat) :
  forall i : Z,
    match scanLoop body i count with
    | Some result =>
        exists k : Z,
          (0 <= k < Z.of_nat count)%Z
          /\ body (i + k)%Z = Some result
          /\ forall j : Z, (0 <= j < k)%Z -> body (i + j)%Z = None
    | None =>
        forall j : Z, (0 <= j < Z.of_nat count)%Z -> body (i + j)%Z = None
    end.
Proof.
  induction count as [|n IH]; intros i; cbn [scanLoop].
  - intros j Hj; lia.
  - destruct (body i) as [result|] eqn:Ei.
    + exists 0%Z; split; [lia|split].
      * now rewrite Z.add_0_r.
      * intros j Hj; lia.
    + specialize (IH (i + 1)%Z).
      destruct (scanLoop body (i + 1) n) as [result|].
      * destruct IH as (k & Hk & Ek & Hbefore).
        exists (k + 1)%Z; split; [lia|split].
        -- now replace (i + (k + 1))%Z with (i + 1 + k)%Z by lia.
        -- intros j Hj.
           destruct (Z.eq_dec j 0) as [->|Hne]; [now rewrite Z.add_0_r|].
           replace (i + j)%Z with (i + 1 + (j - 1))%Z by lia.
           apply Hbefore; lia.
      * intros j Hj.
        destruct (Z.eq_dec j 0) as [->|Hne]; [now rewrite Z.add_0_r|].
        replace (i + j)%Z with (i + 1 + (j - 1))%Z by lia.
        apply IH; lia.
Qed.

Lemma tryLightness_spec (hsl : HSL) (referenceColor : RGB)
    (targetRatio targetL : R) :
  let c := hslToRgb (mkHSL (h hsl) (s hsl) (Rmax 0 (Rmin 100 targetL))) in
  match tryLightness hsl referenceColor targetRatio targetL with
  | Some result => result = c /\ meets referenceColor targetRatio c
  | None => ~ meets referenceColor targetRatio c
  end.
Proof.
  cbv zeta; unfold tryLightness, meets, num_ge.
  destruct (num_le targetRatio _) eqn:E.
  - apply num_le_true in E; auto.
  - apply num_le_false in E; lra.
Qed.

(** One scan of [findPassingColor], in a direction *)
Lemma scan_direction (colorToAdjust referenceColor : RGB) (targetRatio : R)
    (d : Direction) :
  match
    scanLoop
      (fun i =>
         tryLightness (rgbToHsl colorToAdjust) referenceColor targetRatio
           (lightnessAt d (l (rgbToHsl colorToAdjust)) i)) 0%Z 101
  with
  | Some result =>
      exists i, firstPassing colorToAdjust referenceColor targetRatio d i result
  | None => nonePassing colorToAdjust referenceColor targetRatio d
  end.
Proof.
  match goal with
  | |- match scanLoop ?body _ _ with _ => _ end =>
      pose proof (scanLoop_spec body 101 0%Z) as Hscan;
      destruct (scanLoop body 0%Z 101) as [result|]
  end.
  - destruct Hscan as (k & Hk & Ek & Hbefore).
    exists k; unfold firstPassing.
    cbn [Z.add] in Ek.
    pose proof (tryLightness_spec (rgbToHsl colorToAdjust) referenceColor
                  targetRatio
                  (lightnessAt d (l (rgbToHsl colorToAdjust)) k)) as Hk'.
    cbv zeta in Hk'; rewrite Ek in Hk'; destruct Hk' as [-> Hmeets].
    repeat split; try lia; try exact Hmeets.
    intros j Hj.
    specialize (Hbefore j Hj); cbn [Z.add] in Hbefore.
    pose proof (tryLightness_spec (rgbToHsl colorToAdjust) referenceColor
                  targetRatio
                  (lightnessAt d (l (rgbToHsl colorToAdjust)) j)) as Hj'.
    cbv zeta in Hj'; now rewrite Hbefore in Hj'.
  - intros j Hj.
    assert (Hj' : (0 <= j < Z.of_nat 101)%Z) by lia.
    specialize (Hscan j Hj'); cbn [Z.add] in Hscan.
    pose proof (tryLightness_spec (rgbToHsl colorToAdjust) referenceColor
                  targetRatio
                  (lightnessAt d (l (rgbToHsl colorToAdjust)) j)) as Hspec.
    cbv zeta in Hspec; now rewrite Hscan in Hspec.
Qed.

Lemma findPassingColor_directions (colorToAdjust referenceColor : RGB)
    (targetRatio : R) :
  findPassingColor colorToAdjust referenceColor targetRatio
  = match
      scanLoop
        (fun i =>
           tryLightness (rgbToHsl colorToAdjust) referenceColor targetRatio
             (lightnessAt (primaryDirection referenceColor)
                (l (rgbToHsl colorToAdjust)) i)) 0%Z 101
    with
    | Some result => Some result
    | None =>
        scanLoop
          (fun i =>
             tryLightness (rgbToHsl colorToAdjust) referenceColor targetRatio
               (lightnessAt (opposite (primaryDirection referenceColor))
                  (l (rgbToHsl colorToAdjust)) i)) 0%Z 101
    end.
Proof.
  unfold findPassingColor, primaryDirection, num_lt.
  destruct (Rlt_dec (getRelativeLuminance referenceColor) 0.5); reflexivity.
Qed.

(** The shape of [findPassingColor]: a first attempt, and a second one
    that is made only when the first gives nothing. *)
Lemma option_orElse_cases {A : Type} (first second : option A)
    (P Q M : A -> Prop) (NP NQ : Prop) :
  (forall x, P x -> M x) -> (forall x, Q x -> M x) ->
  match first with Some x => P x | None => NP end ->
  match second with Some x => Q x | None => NQ end ->
  match match first with Some x => Some x | None => second end with
  | Some x => M x /\ (P x \/ (NP /\ Q x))
  | None => NP /\ NQ
  end.
Proof.
  intros HP HQ; destruct first as [x|]; [|destruct second as [y|]]; auto.
Qed.

(** C2. [findPassingColor] converts [colorToAdjust] to HSL, keeps hue and
    saturation, and scans the lightness at the offsets 0, 1, ..., 100,
    clamped to [[0, 100]]: toward higher lightness first when the relative
    luminance of the reference is below 0.5, toward lower lightness first
    otherwise.  It returns the colour at the first offset of the primary
    direction that meets [targetRatio] against the reference; the opposite
    direction is scanned only when no offset of the primary direction
    passes; it returns no value exactly when no scanned lightness passes in
    either direction; and a returned colour meets [targetRatio]. *)
Theorem findPassingColor_scan (colorToAdjust referenceColor : RGB)
    (targetRatio : R) :
  let primary := primaryDirection referenceColor in
  let first := firstPassing colorToAdjust referenceColor targetRatio in
  let none := nonePassing colorToAdjust referenceColor targetRatio in
  ((getRelativeLuminance referenceColor < 0.5 /\ primary = Lighter)
   \/ (0.5 <= getRelativeLuminance referenceColor /\ primary = Darker))
  /\ match findPassingColor colorToAdjust referenceColor targetRatio with
     | Some result =>
         meets referenceColor targetRatio result
         /\ ((exists i, first primary i result)
             \/ (none primary /\ exists i, first (opposite primary) i result))
     | None => none primary /\ none (opposite primary)
     end
  /\ (findPassingColor colorToAdjust referenceColor targetRatio = None
      <-> none Lighter /\ none Darker).
Proof.
  cbv zeta.
  assert (Hmatch :
    match findPassingColor colorToAdjust referenceColor targetRatio with
    | Some result =>
        meets referenceColor targetRatio result
        /\ ((exists i, firstPassing colorToAdjust referenceColor targetRatio
                         (primaryDirection referenceColor) i result)
            \/ (nonePassing colorToAdjust referenceColor targetRatio
                  (primaryDirection referenceColor)
                /\ exists i, firstPassing colorToAdjust referenceColor
                               targetRatio
                               (opposite (primaryDirection referenceColor))
                               i result))
    | None =>
        nonePassing colorToAdjust referenceColor targetRatio
          (primaryDirection referenceColor)
        /\ nonePassing colorToAdjust referenceColor targetRatio
             (opposite (primaryDirection referenceColor))
    end).
  { rewrite findPassingColor_directions.
    refine (option_orElse_cases _ _
              (fun result =>
                 exists i, firstPassing colorToAdjust referenceColor
                             targetRatio (primaryDirection referenceColor)
                             i result)
              (fun result =>
                 exists i, firstPassing colorToAdjust referenceColor
                             targetRatio
                             (opposite (primaryDirection referenceColor))
                             i result)
              (meets referenceColor targetRatio)
              (nonePassing colorToAdjust referenceColor targetRatio
                 (primaryDirection referenceColor))
              (nonePassing colorToAdjust referenceColor targetRatio
                 (opposite (primaryDirection referenceColor)))
              _ _
              (scan_direction colorToAdjust referenceColor targetRatio
                 (primaryDirection referenceColor))
              (scan_direction colorToAdjust referenceColor targetRatio
                 (opposite (primaryDirection referenceColor))));
      intros x (i & Hi); apply Hi. }
  split; [|split; [exact Hmatch|]].
  - unfold primaryDirection.
    destruct (Rlt_dec (getRelativeLuminance referenceColor) 0.5); [left|right];
      split; auto; lra.
  - destruct (findPassingColor colorToAdjust referenceColor targetRatio)
      as [result|]; split.
    + discriminate.
    + intros [HL HD]; exfalso.
      destruct (primaryDirection referenceColor); cbn [opposite] in Hmatch;
        destruct Hmatch as (_ & [(i & Hi)|(_ & i & Hi)]);
        destruct Hi as (Hrange & -> & Hmeets & _).
      * exact (HL i Hrange Hmeets).
      * exact (HD i Hrange Hmeets).
      * exact (HD i Hrange Hmeets).
      * exact (HL i Hrange Hmeets).
    + intros _.
      destruct (primaryDirection referenceColor); cbn [opposite] in Hmatch;
        destruct Hmatch as [Hp Ho]; split; assumption.
    + reflexivity.
Qed.

End SearchFacts.

(** *** The colour codec: HSL *)

Section HslFacts.
Import Contrast.
Local Open Scope R_scope.

(** decide the comparisons of the goal that linear arithmetic settles *)
Ltac num_decide :=
  repeat
    (match goal with
     | |- context [num_lt ?a ?c] =>
         first [ rewrite (proj2 (num_lt_true a c)) by lra
               | rewrite (proj2 (num_lt_false a c)) by lra ]
     end; cbv iota).

Lemma hue2rgb_rise p q t : 0 <= t < 1 / 6 -> hue2rgb p q t = p + (q - p) * 6 * t.
Proof. intros H; unfold hue2rgb, num_gt; num_decide; reflexivity. Qed.

Lemma hue2rgb_top p q t : 1 / 6 <= t < 1 / 2 -> hue2rgb p q t = q.
Proof. intros H; unfold hue2rgb, num_gt; num_decide; reflexivity. Qed.

Lemma hue2rgb_fall p q t :
  1 / 2 <= t < 2 / 3 -> hue2rgb p q t = p + (q - p) * (2 / 3 - t) * 6.
Proof. intros H; unfold hue2rgb, num_gt; num_decide; reflexivity. Qed.

Lemma hue2rgb_bottom p q t : 2 / 3 <= t <= 1 -> hue2rgb p q t = p.
Proof. intros H; unfold hue2rgb, num_gt; num_decide; reflexivity. Qed.

Lemma hue2rgb_wrap_up p q t :
  -1 <= t < 0 -> hue2rgb p q t = hue2rgb p q (t + 1).
Proof. intros H; unfold hue2rgb, num_gt; num_decide; reflexivity. Qed.

Lemma hue2rgb_wrap_down p q t :
  1 < t <= 2 -> hue2rgb p q t = hue2rgb p q (t - 1).
Proof. intros H; unfold hue2rgb, num_gt; num_decide; reflexivity. Qed.

(** From the lightness and the saturation [rgbToHsl] computes, [hslToRgb]
    gets [q], the largest channel, back (and [p = 2 * l - q], the smallest). *)
Lemma chroma_recovered (mx mn : R) :
  0 <= mn -> mn < mx -> mx <= 1 ->
  let l := (mx + mn) / 2 in
  let d := mx - mn in
  let s := if num_gt l 0.5 then d / (2 - mx - mn) else d / (mx + mn) in
  s <> 0
  /\ (if num_lt l 0.5 then l * (1 + s) else l + s - l * s) = mx.
Proof.
  intros H0 Hlt H1; cbv zeta; unfold num_gt.
  destruct (num_lt 0.5 ((mx + mn) / 2)) eqn:E1.
  - apply num_lt_true in E1.
    rewrite (proj2 (num_lt_false ((mx + mn) / 2) 0.5)) by lra.
    split.
    + intros Hs. apply Rmult_integral in Hs. destruct Hs as [Hs|Hs]; [lra|].
      assert (2 - mx - mn <> 0) by lra. now apply Rinv_neq_0_compat in H.
    + field; lra.
  - apply num_lt_false in E1.
    split.
    + intros Hs. apply Rmult_integral in Hs. destruct Hs as [Hs|Hs]; [lra|].
      assert (mx + mn <> 0) by lra. now apply Rinv_neq_0_compat in H.
    + destruct (num_lt ((mx + mn) / 2) 0.5) eqn:E2.
      * field; lra.
      * apply num_lt_false in E2.
        assert (Hsum : mn = 1 - mx) by lra.
        rewrite Hsum; field; lra.
Qed.

(** split on the comparisons of [hue2rgb], innermost first *)
Ltac hue_split :=
  unfold hue2rgb, num_gt;
  repeat
    (match goal with
     | |- context [num_lt ?a ?c] =>
         lazymatch a with
         | context [num_lt _ _] => fail
         | _ => idtac
         end;
         let E := fresh "E" in
         destruct (num_lt a c) eqn:E;
         [apply num_lt_true in E | apply num_lt_false in E];
         cbv iota
     end).

(** The three channels [hslToRgb] computes from the hue, when red is the
    largest channel; [mn] is the smallest channel. *)
Lemma hue_red_max (rn gn bn mn : R) :
  mn < rn -> gn <= rn -> bn <= rn -> mn <= gn -> mn <= bn ->
  (mn = gn \/ mn = bn) ->
  let h := ((gn - bn) / (rn - mn) + (if num_lt gn bn then 6 else 0)) / 6 in
  hue2rgb mn rn (h + 1 / 3) = rn
  /\ hue2rgb mn rn h = gn
  /\ hue2rgb mn rn (h - 1 / 3) = bn.
Proof.
  intros Hd Hg Hb Hmg Hmb Hmin; cbv zeta.
  set (w := (gn - bn) / (rn - mn)).
  assert (Hw : w * (rn - mn) = gn - bn) by (unfold w; field; lra).
  destruct (num_lt gn bn) eqn:Egb;
    [apply num_lt_true in Egb | apply num_lt_false in Egb].
  - assert (Hmn : mn = gn) by (destruct Hmin; lra).
    assert (Hwr : -1 <= w < 0) by (split; nra).
    repeat split; hue_split; try lra; try nra.
  - assert (Hmn : mn = bn) by (destruct Hmin; lra).
    assert (Hwr : 0 <= w <= 1) by (split; nra).
    repeat split; hue_split; try lra; try nra.
Qed.

Lemma hue_green_max (rn gn bn mn : R) :
  mn < gn -> rn < gn -> bn <= gn -> mn <= rn -> mn <= bn ->
  (mn = rn \/ mn = bn) ->
  let h := ((bn - rn) / (gn - mn) + 2) / 6 in
  hue2rgb mn gn (h + 1 / 3) = rn
  /\ hue2rgb mn gn h = gn
  /\ hue2rgb mn gn (h - 1 / 3) = bn.
Proof.
  intros Hd Hr Hb Hmr Hmb Hmin; cbv zeta.
  set (w := (bn - rn) / (gn - mn)).
  assert (Hw : w * (gn - mn) = bn - rn) by (unfold w; field; lra).
  assert (Hwr : -1 < w <= 1) by (split; nra).
  destruct (Rlt_dec bn rn) as [Hbr|Hbr].
  - assert (Hmn : mn = bn) by (destruct Hmin; lra).
    assert (Hw0 : w < 0) by nra.
    repeat split; hue_split; try lra; try nra.
  - assert (Hmn : mn = rn) by (destruct Hmin; lra).
    assert (Hw0 : 0 <= w) by nra.
    repeat split; hue_split; try lra; try nra.
Qed.

Lemma hue_blue_max (rn gn bn mn : R) :
  mn < bn -> rn < bn -> gn < bn -> mn <= rn -> mn <= gn ->
  (mn = rn \/ mn = gn) ->
  let h := ((rn - gn) / (bn - mn) + 4) / 6 in
  hue2rgb mn bn (h + 1 / 3) = rn
  /\ hue2rgb mn bn h = gn
  /\ hue2rgb mn bn (h - 1 / 3) = bn.
Proof.
  intros Hd Hr Hg Hmr Hmg Hmin; cbv zeta.
  set (w := (rn - gn) / (bn - mn)).
  assert (Hw : w * (bn - mn) = rn - gn) by (unfold w; field; lra).
  assert (Hwr : -1 < w < 1) by (split; nra).
  destruct (Rlt_dec gn rn) as [Hgr|Hgr].
  - assert (Hmn : mn = gn) by (destruct Hmin; lra).
    assert (Hw0 : 0 < w) by nra.
    repeat split; hue_split; try lra; try nra.
  - assert (Hmn : mn = rn) by (destruct Hmin; lra).
    assert (Hw0 : w <= 0) by nra.
    repeat split; hue_split; try lra; try nra.
Qed.

Lemma Rmax3_cases (x y z : R) :
  let m := Rmax x (Rmax y z) in
  x <= m /\ y <= m /\ z <= m /\ (m = x \/ m = y \/ m = z).
Proof.
  cbv zeta; unfold Rmax.
  destruct (Rle_dec y z); destruct (Rle_dec x _); repeat split; auto; lra.
Qed.

Lemma Rmin3_cases (x y z : R) :
  let m := Rmin x (Rmin y z) in
  m <= x /\ m <= y /\ m <= z /\ (m = x \/ m = y \/ m = z).
Proof.
  cbv zeta; unfold Rmin.
  destruct (Rle_dec y z); destruct (Rle_dec x _); repeat split; auto; lra.
Qed.

Lemma hslToRgb_rgbToHsl_exact (rgb : RGB) :
  validRGB rgb ->
  hslToRgb (rgbToHsl rgb)
  = mkRGB (IZR (Math_round (r rgb))) (IZR (Math_round (g rgb)))
          (IZR (Math_round (b rgb))).
Proof.
  destruct rgb as [r0 g0 b0]; unfold validRGB, validChannel; cbn [r g b].
  intros (Hr & Hg & Hb).
  unfold rgbToHsl; cbn [r g b].
  set (rn := r0 / 255); set (gn := g0 / 255); set (bn := b0 / 255).
  assert (Er : rn * 255 = r0) by (unfold rn; field).
  assert (Eg : gn * 255 = g0) by (unfold gn; field).
  assert (Eb : bn * 255 = b0) by (unfold bn; field).
  assert (Hrn : 0 <= rn <= 1) by (unfold rn; lra).
  assert (Hgn : 0 <= gn <= 1) by (unfold gn; lra).
  assert (Hbn : 0 <= bn <= 1) by (unfold bn; lra).
  clearbody rn gn bn.
  destruct (Rmax3_cases rn gn bn) as (Mr & Mg & Mb & Mcase).
  destruct (Rmin3_cases rn gn bn) as (mr & mg & mb & mcase).
  cbv zeta in Mr, Mg, Mb, Mcase, mr, mg, mb, mcase.
  set (mx := Rmax rn (Rmax gn bn)) in *.
  set (mn := Rmin rn (Rmin gn bn)) in *.
  clearbody mx mn.
  unfold num_ne.
  destruct (num_eq mx mn) eqn:Eeq;
    [apply num_eq_true in Eeq | apply num_eq_false in Eeq]; cbn [negb fst snd].
  - unfold hslToRgb; cbn [h s l].
    rewrite (proj2 (num_eq_true (0 * 100 / 100) 0)) by lra.
    cbn [fst snd].
    repeat f_equal; lra.
  - assert (Hlt : mn < mx) by (destruct Mcase as [?|[?|?]]; lra).
    destruct (chroma_recovered mx mn) as (Hs & Hq); try lra.
    cbv zeta in Hs, Hq.
    unfold hslToRgb; cbn [h s l].
    set (S := if num_gt ((mx + mn) / 2) 0.5 then (mx - mn) / (2 - mx - mn)
              else (mx - mn) / (mx + mn)) in *.
    set (L := (mx + mn) / 2) in *.
    replace (S * 100 / 100) with S by field.
    replace (L * 100 / 100) with L by field.
    rewrite (proj2 (num_eq_false S 0) Hs).
    rewrite Hq.
    replace (2 * L - mx) with mn by (unfold L; lra).
    cbn [fst snd].
    match goal with
    | |- context [hue2rgb mn mx (?H * 360 / 360)] =>
        replace (H * 360 / 360) with H by field
    end.
    clear Hs Hq; clear S L.
    destruct (num_eq mx rn) eqn:E1;
      [apply num_eq_true in E1
      |apply num_eq_false in E1;
       destruct (num_eq mx gn) eqn:E2;
       [apply num_eq_true in E2
       |apply num_eq_false in E2;
        destruct (num_eq mx bn) eqn:E3;
        [apply num_eq_true in E3
        |apply num_eq_false in E3; exfalso; tauto]]].
    + subst mx.
      assert (Hmin : mn = gn \/ mn = bn)
        by (destruct mcase as [?|[?|?]]; [lra|auto|auto]).
      destruct (hue_red_max rn gn bn mn) as (H1 & H2 & H3); try lra; try assumption.
      cbv zeta in H1, H2, H3; rewrite H1, H2, H3, Er, Eg, Eb; reflexivity.
    + subst mx.
      assert (Hmin : mn = rn \/ mn = bn)
        by (destruct mcase as [?|[?|?]]; [auto|lra|auto]).
      destruct (hue_green_max rn gn bn mn) as (H1 & H2 & H3); try lra; try assumption.
      cbv zeta in H1, H2, H3; rewrite H1, H2, H3, Er, Eg, Eb; reflexivity.
    + subst mx.
      assert (Hmin : mn = rn \/ mn = gn)
        by (destruct mcase as [?|[?|?]]; [auto|auto|lra]).
      destruct (hue_blue_max rn gn bn mn) as (H1 & H2 & H3); try lra; try assumption.
      cbv zeta in H1, H2, H3; rewrite H1, H2, H3, Er, Eg, Eb; reflexivity.
Qed.

(** What the tolerance of one unit absorbs: a value that is rounded may be
    off the integer it stands for by as much as 1 and still round to within
    1 of it. *)
Lemma Math_round_near (z : Z) (y : R) :
  Rabs (y - IZR z) <= 1 -> (Z.abs (Math_round y - z) <= 1)%Z.
Proof.
  intros Hy.
  assert (Hy' : -1 <= y - IZR z <= 1).
  { unfold Rabs in Hy; destruct (Rcase_abs (y - IZR z)); lra. }
  clear Hy.
  assert (Hlo : (z - 1 <= Math_round y)%Z).
  { rewrite <- (Math_round_IZR (z - 1)); unfold Math_round.
    apply Zfloor_le; rewrite minus_IZR; lra. }
  assert (Hhi : (Math_round y <= z + 1)%Z).
  { rewrite <- (Math_round_IZR (z + 1)); unfold Math_round.
    apply Zfloor_le; rewrite plus_IZR; lra. }
  lia.
Qed.

(** C7. For every RGB value with integer channels in [[0, 255]], each
    channel of [hslToRgb (rgbToHsl rgb)] is within 1 of the corresponding
    channel of [rgb]. *)
Theorem hslToRgb_rgbToHsl_within_one (red green blue : Z) :
  (0 <= red <= 255)%Z -> (0 <= green <= 255)%Z -> (0 <= blue <= 255)%Z ->
  let rgb := mkRGB (IZR red) (IZR green) (IZR blue) in
  Rabs (r (hslToRgb (rgbToHsl rgb)) - r rgb) <= 1
  /\ Rabs (g (hslToRgb (rgbToHsl rgb)) - g rgb) <= 1
  /\ Rabs (b (hslToRgb (rgbToHsl rgb)) - b rgb) <= 1.
Proof.
  intros Hr Hg Hb; cbv zeta.
  rewrite hslToRgb_rgbToHsl_exact.
  - cbn [r g b]; rewrite !Math_round_IZR.
    repeat split; rewrite Rminus_diag, Rabs_R0; lra.
  - unfold validRGB, validChannel; cbn [r g b].
    repeat split; apply IZR_le; lia.
Qed.

Lemma hslToRgb_rgbToHsl_within_one_witness :
  let rgb := mkRGB 200 30 120 in
  Rabs (r (hslToRgb (rgbToHsl rgb)) - r rgb) <= 1
  /\ Rabs (g (hslToRgb (rgbToHsl rgb)) - g rgb) <= 1
  /\ Rabs (b (hslToRgb (rgbToHsl rgb)) - b rgb) <= 1.
Proof.
  apply (hslToRgb_rgbToHsl_within_one 200 30 120); lia.
Defined.

End HslFacts.

(** *** The search on a colour that already passes *)

Section SearchOnPassingColor.
Import Contrast.
Local Open Scope R_scope.

Lemma scanLoop_first (body : Z -> option RGB) (i : Z) (n : nat) (x : RGB) :
  body i = Some x -> scanLoop body i (S n) = Some x.
Proof. intros H; cbn [scanLoop]; now rewrite H. Qed.

Lemma rgbToHsl_lightness_range (rgb : RGB) :
  validRGB rgb -> 0 <= l (rgbToHsl rgb) <= 100.
Proof.
  destruct rgb as [r0 g0 b0]; unfold validRGB, validChannel; cbn [r g b].
  intros (Hr & Hg & Hb); unfold rgbToHsl; cbn [r g b l].
  destruct (Rmax3_cases (r0 / 255) (g0 / 255) (b0 / 255)) as (_ & _ & _ & Mc).
  destruct (Rmin3_cases (r0 / 255) (g0 / 255) (b0 / 255)) as (_ & _ & _ & mc).
  cbv zeta in Mc, mc.
  destruct Mc as [-> | [-> | ->]]; destruct mc as [-> | [-> | ->]]; lra.
Qed.

(** X10. A colour that meets the target is returned as it is: offset 0 of the
    primary direction passes. *)
Lemma findPassingColor_passing_color (red green blue : Z)
    (referenceColor : RGB) (targetRatio : R) :
  (0 <= red <= 255)%Z -> (0 <= green <= 255)%Z -> (0 <= blue <= 255)%Z ->
  targetRatio
  <= getContrastRatio (mkRGB (IZR red) (IZR green) (IZR blue)) referenceColor ->
  findPassingColor (mkRGB (IZR red) (IZR green) (IZR blue)) referenceColor
    targetRatio
  = Some (mkRGB (IZR red) (IZR green) (IZR blue)).
Proof.
  intros Hr Hg Hb Hpass.
  set (rgb := mkRGB (IZR red) (IZR green) (IZR blue)) in *.
  assert (Hvalid : validRGB rgb).
  { unfold validRGB, validChannel, rgb; cbn [r g b].
    repeat split; apply IZR_le; lia. }
  pose proof (rgbToHsl_lightness_range rgb Hvalid) as Hl.
  assert (Hback : hslToRgb (rgbToHsl rgb) = rgb).
  { rewrite hslToRgb_rgbToHsl_exact by assumption.
    unfold rgb; cbn [r g b]; now rewrite !Math_round_IZR. }
  rewrite findPassingColor_directions.
  change 101%nat with (S 100).
  rewrite (scanLoop_first _ 0%Z 100 rgb); [reflexivity|].
  unfold tryLightness.
  assert (E : Rmax 0 (Rmin 100
                (lightnessAt (primaryDirection referenceColor)
                   (l (rgbToHsl rgb)) 0))
              = l (rgbToHsl rgb)).
  { unfold lightnessAt; destruct (primaryDirection referenceColor).
    - rewrite Rplus_0_r, (Rmin_right 100 (l (rgbToHsl rgb))) by lra.
      rewrite Rmin_right, Rmax_right by lra; reflexivity.
    - rewrite Rminus_0_r, (Rmax_right 0 (l (rgbToHsl rgb))) by lra.
      rewrite Rmin_right, Rmax_right by lra; reflexivity. }
  rewrite E.
  replace (mkHSL (h (rgbToHsl rgb)) (s (rgbToHsl rgb)) (l (rgbToHsl rgb)))
    with (rgbToHsl rgb) by (now destruct (rgbToHsl rgb)).
  rewrite Hback.
  unfold num_ge; now rewrite (proj2 (num_le_true _ _) Hpass).
Qed.

End SearchOnPassingColor.

(** *** The exporters: colour values *)

Section ExportValueFacts.
Import Contrast Palette.
Local Open Scope R_scope.

Lemma Zfloor_div (a c : Z) :
  (0 < c)%Z -> Zfloor (IZR a / IZR c) = (a / c)%Z.
Proof.
  intros Hc; apply Zfloor_eq.
  pose proof (Z.div_mod a c ltac:(lia)) as Hdiv.
  pose proof (Z.mod_pos_bound a c Hc) as Hmod.
  assert (Hc' : 0 < IZR c) by now apply IZR_lt.
  assert (Ha : IZR a = IZR c * IZR (a / c) + IZR (a mod c))
    by (now rewrite <- mult_IZR, <- plus_IZR, <- Hdiv).
  assert (H0 : 0 <= IZR (a mod c)) by (apply IZR_le; lia).
  assert (H1 : IZR (a mod c) < IZR c) by (apply IZR_lt; lia).
  rewrite Ha; split.
  - apply Rmult_le_reg_r with (IZR c); [lra|].
    unfold Rdiv; rewrite Rmult_assoc, Rinv_l by lra; lra.
  - apply Rmult_lt_reg_r with (IZR c); [lra|].
    unfold Rdiv; rewrite Rmult_assoc, Rinv_l by lra; lra.
Qed.

Lemma toFixed_channel (channel : Z) :
  (0 <= channel <= 255)%Z ->
  toFixed (IZR channel / 255) 3
  = fixedText false (channelThousandths channel) 3.
Proof.
  intros Hc; unfold toFixed.
  assert (H0 : 0 <= IZR channel) by (apply IZR_le; lia).
  rewrite (proj2 (num_lt_false (IZR channel / 255) 0)) by lra.
  f_equal; unfold channelThousandths.
  rewrite <- Zfloor_div by lia.
  f_equal; rewrite plus_IZR, mult_IZR; simpl; field.
Qed.

Lemma channelTextOk_all :
  forallb (fun n => channelTextOk (Z.of_nat n)) (seq 0 256) = true.
Proof. vm_compute; reflexivity. Qed.

(** The text printed for a channel denotes it to three decimals. *)
Lemma toFixed_channel_denotes (channel : Z) :
  (0 <= channel <= 255)%Z ->
  denotesChannel (toFixed (IZR channel / 255) 3) channel.
Proof.
  intros Hc; rewrite toFixed_channel by assumption.
  assert (Hin : In (Z.to_nat channel) (seq 0 256)) by (apply in_seq; lia).
  pose proof (proj1 (forallb_forall _ _) channelTextOk_all _ Hin) as Hok.
  cbv beta in Hok; rewrite Z2Nat.id in Hok by lia.
  unfold channelTextOk in Hok; cbv zeta in Hok.
  set (n := channelThousandths channel) in *.
  apply andb_true_iff in Hok; destruct Hok as [Hok Hround].
  apply andb_true_iff in Hok; destruct Hok as [Hread Hclose].
  apply Z.eqb_eq in Hround; apply Z.leb_le in Hclose.
  exists n; split; [|split].
  - unfold optZ_eqb in Hread.
    destruct (readFixed3 (fixedText false n 3)); [|discriminate].
    apply Z.eqb_eq in Hread; now rewrite Hread.
  - assert (Hz : (-255 <= 2 * (255 * n - 1000 * channel) <= 255)%Z) by lia.
    destruct Hz as [Hlo Hhi].
    apply IZR_le in Hlo, Hhi.
    rewrite mult_IZR, minus_IZR, !mult_IZR in Hlo, Hhi.
    apply Rabs_le; lra.
  - unfold Math_round.
    replace (IZR n / 1000 * 255 + / 2) with (IZR (510 * n + 1000) / IZR 2000)
      by (rewrite plus_IZR, mult_IZR; field).
    now rewrite Zfloor_div by lia.
Qed.

Lemma swiftChannel_hexPair (c1 c2 : ascii) :
  isHexDigit c1 = true -> isHexDigit c2 = true ->
  swiftChannel (String c1 (String c2 EmptyString))
  = toFixed (IZR (hexPairValue c1 c2) / 255) 3.
Proof.
  intros H1 H2; unfold swiftChannel; now rewrite parseInt16_hexPair.
Qed.

(** C8 as the specification words it fails: the numbers [exportAsSwift]
    prints are not channel/255.  For [#010101] each channel is 1 and the
    text printed is [0.004], and 4/1000 is not 1/255. *)
Lemma exportAsSwift_rounds_channels :
  hexToRgb "#010101" = Some (mkRGB 1 1 1)
  /\ exportAsSwift [mkPaletteColor "c1" "Ink" "#010101"]
     = joinLines
         ["import UIKit"; ""; "extension UIColor {"; "    struct Palette {";
          "        static let ink = UIColor(red: 0.004, green: 0.004, blue: 0.004, alpha: 1.0)";
          "    }"; "}"]%string
  /\ ~ denotesChannelExactly "0.004" 1.
Proof.
  split; [|split].
  - apply (hexToRgb_valid "#010101" "0" "1" "0" "1" "0" "1"); reflexivity.
  - assert (E : swiftChannel "01" = "0.004"%string).
    { rewrite swiftChannel_hexPair by reflexivity.
      change (hexPairValue "0" "1") with 1%Z.
      rewrite toFixed_channel by lia; vm_compute; reflexivity. }
    unfold exportAsSwift, swiftLine; cbn [map name hex].
    change (removeFirstHash "#010101") with "010101"%string.
    change (substring 0 2 "010101") with "01"%string.
    change (substring 2 4 "010101") with "01"%string.
    change (substring 4 6 "010101") with "01"%string.
    rewrite E; vm_compute; reflexivity.
  - intros (n & Hread & Hn).
    change (readFixed3 "0.004") with (Some 4%Z) in Hread.
    injection Hread as <-; lra.
Qed.

(** C8, amended.  For every palette colour whose hex is a valid 6-digit
    colour, the line [exportAsSwift] prints carries, for each channel parsed
    from the hex, the number channel/255 rounded to three decimals: the
    text is within 0.0005 of channel/255, and the channel is recovered from
    it as the nearest integer to 255 times the number printed.  So the
    Swift text and the hex text agree on the channels, though the Swift
    text does not denote channel/255 exactly. *)
Theorem swiftLine_channels (color : PaletteColor) :
  isValidHex6 (hex color) = true ->
  exists (red green blue : Z) (redText greenText blueText : string),
    hexToRgb (hex color) = Some (mkRGB (IZR red) (IZR green) (IZR blue))
    /\ swiftLine color
       = ("        static let " ++ swiftPropertyName (name color)
          ++ " = UIColor(red: " ++ redText
          ++ ", green: " ++ greenText
          ++ ", blue: " ++ blueText ++ ", alpha: 1.0)")%string
    /\ denotesChannel redText red
    /\ denotesChannel greenText green
    /\ denotesChannel blueText blue.
Proof.
  intros Hvalid.
  destruct (isValidHex6_digits (hex color) Hvalid)
    as (c1 & c2 & c3 & c4 & c5 & c6 & E & H1 & H2 & H3 & H4 & H5 & H6).
  exists (hexPairValue c1 c2), (hexPairValue c3 c4), (hexPairValue c5 c6).
  exists (toFixed (IZR (hexPairValue c1 c2) / 255) 3),
         (toFixed (IZR (hexPairValue c3 c4) / 255) 3),
         (toFixed (IZR (hexPairValue c5 c6) / 255) 3).
  split; [now apply hexToRgb_valid|split].
  - unfold swiftLine.
    rewrite (removeFirstHash_valid (hex color) Hvalid), E.
    cbn [substring String.substring Nat.sub].
    now rewrite !swiftChannel_hexPair.
  - repeat split; apply toFixed_channel_denotes; now apply hexPairValue_range.
Qed.

Lemma swiftLine_channels_witness :
  let color := mkPaletteColor "c1" "Sky Blue" "#3399FF" in
  exists (red green blue : Z) (redText greenText blueText : string),
    hexToRgb (hex color) = Some (mkRGB (IZR red) (IZR green) (IZR blue))
    /\ swiftLine color
       = ("        static let " ++ swiftPropertyName (name color)
          ++ " = UIColor(red: " ++ redText
          ++ ", green: " ++ greenText
          ++ ", blue: " ++ blueText ++ ", alpha: 1.0)")%string
    /\ denotesChannel redText red
    /\ denotesChannel greenText green
    /\ denotesChannel blueText blue.
Proof.
  apply (swiftLine_channels (mkPaletteColor "c1" "Sky Blue" "#3399FF"));
    reflexivity.
Defined.

End ExportValueFacts.

(** *** The exporters: keys *)

Section ExportKeyFacts.
Import Palette.

Lemma charCaseOk_all : forallb charCaseOk allAscii = true.
Proof. vm_compute; reflexivity. Qed.

Lemma alnum_toUpper (a : ascii) :
  isAlnum a = true -> isAlnum (charToUpperCase a) = true.
Proof.
  intros H.
  pose proof (proj1 (forallb_forall _ _) charCaseOk_all a (allAscii_complete a)) as Hok.
  unfold charCaseOk in Hok; now rewrite H in Hok.
Qed.

Lemma punctuation_case (a : ascii) :
  isAlnum a = false ->
  isLowerAlnum (charToLowerCase a) = false
  /\ isAlnum (charToUpperCase a) = false.
Proof.
  intros H.
  pose proof (proj1 (forallb_forall _ _) charCaseOk_all a (allAscii_complete a)) as Hok.
  unfold charCaseOk in Hok; rewrite H in Hok.
  apply andb_true_iff in Hok; destruct Hok as [H1 H2].
  now apply negb_true_iff in H1, H2.
Qed.

Lemma allChars_app (p : ascii -> bool) (s t : string) :
  allChars p (s ++ t) = allChars p s && allChars p t.
Proof.
  induction s as [|c s IH]; cbn [append allChars]; [reflexivity|].
  now rewrite IH, andb_assoc.
Qed.

Lemma keepAlnum_punctuation (s : string) :
  allChars isPunctuation s = true -> keepAlnum s = EmptyString.
Proof.
  induction s as [|c s IH]; cbn [allChars keepAlnum]; [reflexivity|].
  intros H; apply andb_true_iff in H; destruct H as [Hc Hs].
  unfold isPunctuation in Hc; apply negb_true_iff in Hc.
  now rewrite Hc, IH.
Qed.

Lemma lastDotSplit_punctuation (s : string) (chr : ascii) (rest : string) :
  allChars isPunctuation s = true ->
  lastDotSplit s = Some (chr, rest) ->
  isPunctuation chr = true /\ allChars isPunctuation rest = true.
Proof.
  induction s as [|c s IH]; cbn [allChars lastDotSplit]; [discriminate|].
  intros H; apply andb_true_iff in H; destruct H as [Hc Hs].
  destruct (lastDotSplit s) as [[chr' rest']|].
  - intros E; injection E as <- <-; now apply IH.
  - destruct (isLineTerminator c); [discriminate|].
    intros E; injection E as <- <-; now split.
Qed.

Lemma keepAlnum_camelTrailingRun (run : string) :
  allChars isPunctuation run = true ->
  keepAlnum (camelTrailingRun run) = EmptyString.
Proof.
  intros Hrun; unfold camelTrailingRun.
  destruct run as [|c t]; [reflexivity|].
  destruct (lastDotSplit t) as [[chr rest]|] eqn:E.
  - cbn [allChars] in Hrun; apply andb_true_iff in Hrun; destruct Hrun as [_ Ht].
    destruct (lastDotSplit_punctuation t chr rest Ht E) as [Hchr Hrest].
    unfold isPunctuation in Hchr; apply negb_true_iff in Hchr.
    destruct (punctuation_case chr Hchr) as [_ Hup].
    cbn [keepAlnum]; rewrite Hup; now apply keepAlnum_punctuation.
  - now apply keepAlnum_punctuation.
Qed.

(** What [keepAlnum] leaves of [camelScan] *)
Lemma keepAlnum_camelScan (s : string) :
  forall run : string,
    allChars isPunctuation run = true ->
    keepAlnum (camelScan run s)
    = camelKept (match run with EmptyString => false | _ => true end) s.
Proof.
  induction s as [|c s IH]; intros run Hrun; cbn [camelScan camelKept].
  - now apply keepAlnum_camelTrailingRun.
  - destruct (isAlnum c) eqn:Ec.
    + destruct run as [|r0 run'].
      * cbn [keepAlnum]; rewrite Ec; f_equal; now apply (IH EmptyString).
      * cbn [keepAlnum]; rewrite (alnum_toUpper c Ec); f_equal.
        now apply (IH EmptyString).
    + rewrite IH.
      * destruct run; reflexivity.
      * rewrite allChars_app, Hrun; cbn [allChars].
        unfold isPunctuation; now rewrite Ec.
Qed.

Lemma wordCaseOk_all : forallb wordCaseOk allAscii = true.
Proof. vm_compute; reflexivity. Qed.

Lemma wordCase_facts (a : ascii) :
  (isAlnum a = true ->
   isLowerAlnum (charToLowerCase a) = true
   /\ isLineTerminator a = false
   /\ isLineTerminator (charToUpperCase a) = false)
  /\ charToLowerCase (charToUpperCase a) = charToLowerCase a
  /\ charToUpperCase (charToLowerCase a) = charToUpperCase a
  /\ charToLowerCase (charToLowerCase a) = charToLowerCase a.
Proof.
  pose proof (proj1 (forallb_forall _ _) wordCaseOk_all a
                (allAscii_complete a)) as Hok.
  cbv beta in Hok; unfold wordCaseOk in Hok.
  apply andb_true_iff in Hok; destruct Hok as [Hok E3].
  apply andb_true_iff in Hok; destruct Hok as [Hok E2].
  apply andb_true_iff in Hok; destruct Hok as [Hok E1].
  apply Ascii.eqb_eq in E1, E2, E3.
  split; [|now repeat split].
  intros Ha; rewrite Ha in Hok.
  apply andb_true_iff in Hok; destruct Hok as [Hok T2].
  apply andb_true_iff in Hok; destruct Hok as [T0 T1].
  apply negb_true_iff in T1, T2; now repeat split.
Qed.

(** *** The words of a name *)

Lemma consWord_cons (c : ascii) (w : string) (ws : list string) :
  consWord (String c w) ws = String c w :: ws.
Proof. reflexivity. Qed.

Lemma wordSplit_alnum (c : ascii) (t : string) :
  isAlnum c = true ->
  wordSplit (String c t) = (String c (fst (wordSplit t)), snd (wordSplit t)).
Proof. intros H; cbn [wordSplit]; now rewrite H. Qed.

Lemma wordSplit_punctuation (c : ascii) (t : string) :
  isAlnum c = false ->
  wordSplit (String c t) = (EmptyString, words t).
Proof. intros H; cbn [wordSplit]; now rewrite H. Qed.

Lemma words_alnum (c : ascii) (t : string) :
  isAlnum c = true ->
  words (String c t) = String c (fst (wordSplit t)) :: snd (wordSplit t).
Proof. intros H; unfold words; now rewrite (wordSplit_alnum c t H). Qed.

Lemma words_punctuation (c : ascii) (t : string) :
  isAlnum c = false -> words (String c t) = words t.
Proof. intros H; unfold words; now rewrite (wordSplit_punctuation c t H). Qed.

Lemma wordSplit_words (s : string) :
  (fst (wordSplit s) = EmptyString \/ startsWithAlnum (fst (wordSplit s)))
  /\ Forall startsWithAlnum (snd (wordSplit s)).
Proof.
  induction s as [|c t [IH1 IH2]]; [split; [now left|constructor]|].
  destruct (isAlnum c) eqn:Ec.
  - rewrite (wordSplit_alnum c t Ec); cbn [fst snd]; split; [right|exact IH2].
    now exists c, (fst (wordSplit t)).
  - rewrite (wordSplit_punctuation c t Ec); cbn [fst snd].
    split; [now left|].
    unfold words; destruct IH1 as [-> | Hw]; [exact IH2|].
    destruct Hw as (d & u & E & Hd); rewrite E; cbn [consWord].
    constructor; [now exists d, u|exact IH2].
Qed.

Lemma words_startsWithAlnum (s : string) : Forall startsWithAlnum (words s).
Proof.
  destruct (wordSplit_words s) as [[E | Hw] Hws]; unfold words.
  - now rewrite E.
  - destruct Hw as (d & u & E & Hd); rewrite E; cbn [consWord].
    constructor; [now exists d, u|exact Hws].
Qed.


Lemma append_empty (s : string) : (s ++ EmptyString)%string = s.
Proof. induction s as [|c s IH]; cbn [append]; [reflexivity|now rewrite IH]. Qed.

Lemma joinWith_prefixed (sep : ascii) (x : string) (l : list string) :
  joinWith (String sep EmptyString) (x :: l) = (x ++ prefixed sep l)%string.
Proof.
  revert x; induction l as [|y l IH]; intros x.
  - cbn [joinWith prefixed]; now rewrite append_empty.
  - change (joinWith (String sep EmptyString) (x :: y :: l))
      with (x ++ String sep EmptyString
              ++ joinWith (String sep EmptyString) (y :: l))%string.
    rewrite IH; reflexivity.
Qed.

(** *** The keys of the exporters that lower-case the name *)

Section KeyOfWords.
Variable sep : ascii.
Hypothesis sep_not_alnum : isLowerAlnum sep = false.

Lemma lowered_alnum_not_sep (c : ascii) :
  isAlnum c = true -> Ascii.eqb (charToLowerCase c) sep = false.
Proof.
  intros Hc; destruct (wordCase_facts c) as [H _].
  destruct (H Hc) as (Hl & _).
  destruct (Ascii.eqb_spec (charToLowerCase c) sep) as [E|]; [|reflexivity].
  rewrite E, sep_not_alnum in Hl; discriminate.
Qed.

Lemma stripTrailing_head (a : ascii) (u : string) :
  Ascii.eqb a sep = false ->
  stripTrailing sep (String a u) = String a (stripTrailing sep u).
Proof. intros H; destruct u; cbn [stripTrailing]; now rewrite ?H. Qed.

Lemma collapseRuns_alnum (c : ascii) (t : string) (inRun : bool) :
  isAlnum c = true ->
  collapseRuns sep inRun (toLowerCase (String c t))
  = String (charToLowerCase c) (collapseRuns sep false (toLowerCase t)).
Proof.
  intros Hc; destruct (wordCase_facts c) as [H _].
  destruct (H Hc) as (Hl & _).
  cbn [toLowerCase mapChars collapseRuns]; now rewrite Hl.
Qed.

Lemma collapseRuns_punctuation (c : ascii) (t : string) (inRun : bool) :
  isAlnum c = false ->
  collapseRuns sep inRun (toLowerCase (String c t))
  = if inRun then collapseRuns sep true (toLowerCase t)
    else String sep (collapseRuns sep true (toLowerCase t)).
Proof.
  intros Hc; destruct (punctuation_case c Hc) as [Hl _].
  cbn [toLowerCase mapChars collapseRuns]; now rewrite Hl.
Qed.

(** The leading separator is the one of leading punctuation. *)
Lemma stripLeading_collapseRuns (s : string) :
  stripLeading sep (collapseRuns sep false (toLowerCase s))
  = collapseRuns sep true (toLowerCase s).
Proof.
  destruct s as [|c t]; [reflexivity|].
  destruct (isAlnum c) eqn:Ec.
  - rewrite !collapseRuns_alnum by assumption.
    cbn [stripLeading]; now rewrite (lowered_alnum_not_sep c Ec).
  - rewrite !collapseRuns_punctuation by assumption.
    cbn [stripLeading]; now rewrite Ascii.eqb_refl.
Qed.

Lemma collapseRuns_no_words (s : string) :
  words s = [] -> collapseRuns sep true (toLowerCase s) = EmptyString.
Proof.
  induction s as [|c t IH]; [reflexivity|].
  destruct (isAlnum c) eqn:Ec.
  - rewrite (words_alnum c t Ec); discriminate.
  - rewrite (words_punctuation c t Ec), (collapseRuns_punctuation c t true Ec).
    exact IH.
Qed.

Lemma collapseRuns_words (s : string) :
  stripTrailing sep (collapseRuns sep false (toLowerCase s))
  = (toLowerCase (fst (wordSplit s))
     ++ prefixed sep (map toLowerCase (snd (wordSplit s))))%string
  /\ stripTrailing sep (collapseRuns sep true (toLowerCase s))
     = joinWith (String sep EmptyString) (map toLowerCase (words s)).
Proof.
  induction s as [|c t [IH1 IH2]]; [split; reflexivity|].
  destruct (isAlnum c) eqn:Ec.
  - rewrite !collapseRuns_alnum by assumption.
    rewrite stripTrailing_head by now apply lowered_alnum_not_sep.
    rewrite IH1, (words_alnum c t Ec), (wordSplit_alnum c t Ec).
    cbn [fst snd map]; rewrite joinWith_prefixed; split; reflexivity.
  - rewrite !collapseRuns_punctuation by assumption.
    rewrite (words_punctuation c t Ec), (wordSplit_punctuation c t Ec).
    cbn [fst snd]; split; [|exact IH2].
    cbn [toLowerCase mapChars append].
    pose proof (words_startsWithAlnum t) as Hw.
    destruct (words t) as [|x l] eqn:Ew.
    + rewrite (collapseRuns_no_words t Ew); cbn [stripTrailing map prefixed].
      now rewrite Ascii.eqb_refl.
    + cbn [map] in IH2 |- *; rewrite joinWith_prefixed in IH2.
      inversion Hw as [|? ? (d & u & -> & Hd) _]; subst.
      destruct (collapseRuns sep true (toLowerCase t)) as [|e X];
        [discriminate IH2|].
      change (stripTrailing sep (String sep (String e X)))
        with (String sep (stripTrailing sep (String e X))).
      rewrite IH2; reflexivity.
Qed.

(** The key is the words of the name in lower case, joined by the
    separator. *)
Lemma sanitizeKey_words (name : string) :
  sanitizeKey sep name
  = joinWith (String sep EmptyString) (map toLowerCase (words name)).
Proof.
  unfold sanitizeKey; rewrite stripLeading_collapseRuns.
  apply collapseRuns_words.
Qed.

End KeyOfWords.

(** *** The property name of the Swift exporter *)

Lemma camelKept_words (s : string) :
  camelKept false s
  = (fst (wordSplit s) ++ capitalized (snd (wordSplit s)))%string
  /\ camelKept true s = capitalized (words s).
Proof.
  induction s as [|c t [IH1 IH2]]; [split; reflexivity|].
  cbn [camelKept]; destruct (isAlnum c) eqn:Ec.
  - rewrite IH1, (words_alnum c t Ec), (wordSplit_alnum c t Ec).
    cbn [fst snd]; split; reflexivity.
  - rewrite IH2, (words_punctuation c t Ec), (wordSplit_punctuation c t Ec).
    cbn [fst snd]; split; reflexivity.
Qed.

(** The property name is the words of the name in camel case. *)
Lemma swiftPropertyName_words (name : string) :
  swiftPropertyName name = camelCase (words name).
Proof.
  unfold swiftPropertyName.
  rewrite keepAlnum_camelScan by reflexivity.
  rewrite (proj1 (camelKept_words name)); unfold words.
  destruct (wordSplit_words name) as [[E | (d & u & E & Hd)] Hws]; rewrite E.
  - cbn [append consWord].
    destruct (snd (wordSplit name)) as [|x l]; [reflexivity|].
    inversion Hws as [|? ? (d & u & -> & Hd) _]; subst.
    destruct (wordCase_facts d) as (Ha & Elu & _).
    destruct (Ha Hd) as (_ & _ & Hlt).
    cbn [capitalized upperInitial append lowerFirst camelCase lowerInitial].
    now rewrite Hlt, Elu.
  - destruct (wordCase_facts d) as (Ha & _).
    destruct (Ha Hd) as (_ & Hlt & _).
    cbn [consWord append lowerFirst camelCase lowerInitial].
    now rewrite Hlt.
Qed.

Lemma upperInitial_lowerInitial (w : string) :
  upperInitial (lowerInitial w) = upperInitial w.
Proof.
  destruct w as [|c t]; [reflexivity|]; cbn [lowerInitial upperInitial].
  destruct (wordCase_facts c) as (_ & _ & -> & _); reflexivity.
Qed.

Lemma lowerInitial_upperInitial (w : string) :
  lowerInitial (upperInitial w) = lowerInitial w.
Proof.
  destruct w as [|c t]; [reflexivity|]; cbn [lowerInitial upperInitial].
  destruct (wordCase_facts c) as (_ & -> & _); reflexivity.
Qed.

Lemma lowerInitial_idempotent (w : string) :
  lowerInitial (lowerInitial w) = lowerInitial w.
Proof.
  destruct w as [|c t]; [reflexivity|]; cbn [lowerInitial].
  destruct (wordCase_facts c) as (_ & _ & _ & ->); reflexivity.
Qed.

Lemma capitalized_lowerInitial (ws : list string) :
  capitalized (map lowerInitial ws) = capitalized ws.
Proof.
  induction ws as [|w ws IH]; [reflexivity|]; cbn [map capitalized].
  now rewrite upperInitial_lowerInitial, IH.
Qed.

Lemma camelCase_lowerInitial (ws : list string) :
  camelCase (map lowerInitial ws) = camelCase ws.
Proof.
  destruct ws as [|w ws]; [reflexivity|]; cbn [map camelCase].
  now rewrite lowerInitial_idempotent, capitalized_lowerInitial.
Qed.

Lemma append_same_length (x1 x2 y1 y2 : string) :
  String.length x1 = String.length x2 ->
  (x1 ++ y1)%string = (x2 ++ y2)%string -> x1 = x2 /\ y1 = y2.
Proof.
  revert x2; induction x1 as [|c x1 IH]; intros [|d x2] Hl E;
    try discriminate; cbn [append] in E.
  - now split.
  - injection E as -> E; cbn [String.length] in Hl.
    destruct (IH x2 (eq_add_S _ _ Hl) E) as [-> ->]; now split.
Qed.

Lemma length_toLowerCase (w : string) :
  String.length (toLowerCase w) = String.length w.
Proof.
  induction w as [|c w IH]; [reflexivity|].
  cbn [toLowerCase mapChars String.length]; f_equal; exact IH.
Qed.

Lemma length_initial (w : string) :
  String.length (lowerInitial w) = String.length w
  /\ String.length (upperInitial w) = String.length w.
Proof. destruct w; split; reflexivity. Qed.

Lemma same_length_lowered (w1 w2 : string) :
  toLowerCase w1 = toLowerCase w2 -> String.length w1 = String.length w2.
Proof.
  intros E; rewrite <- (length_toLowerCase w1), <- (length_toLowerCase w2).
  now rewrite E.
Qed.

Lemma capitalized_injective (l1 l2 : list string) :
  map toLowerCase l1 = map toLowerCase l2 ->
  capitalized l1 = capitalized l2 ->
  map lowerInitial l1 = map lowerInitial l2.
Proof.
  revert l2; induction l1 as [|x1 l1 IH]; intros [|x2 l2] Hm Hc;
    try discriminate; [reflexivity|].
  cbn [map] in Hm; injection Hm as Hx Hm.
  cbn [capitalized] in Hc.
  apply append_same_length in Hc.
  - destruct Hc as [Hu Hc]; cbn [map].
    rewrite <- (lowerInitial_upperInitial x1), Hu, lowerInitial_upperInitial.
    f_equal; now apply IH.
  - rewrite (proj2 (length_initial x1)), (proj2 (length_initial x2)).
    now apply same_length_lowered.
Qed.

Lemma camelCase_injective (l1 l2 : list string) :
  map toLowerCase l1 = map toLowerCase l2 ->
  camelCase l1 = camelCase l2 ->
  map lowerInitial l1 = map lowerInitial l2.
Proof.
  destruct l1 as [|x1 l1], l2 as [|x2 l2]; intros Hm Hc; try discriminate;
    [reflexivity|].
  cbn [map] in Hm; injection Hm as Hx Hm.
  cbn [camelCase] in Hc.
  apply append_same_length in Hc.
  - destruct Hc as [Hu Hc]; cbn [map]; rewrite Hu; f_equal.
    now apply capitalized_injective.
  - rewrite (proj1 (length_initial x1)), (proj1 (length_initial x2)).
    now apply same_length_lowered.
Qed.

Lemma swiftPropertyName_agree_iff (name1 name2 : string) :
  differOnlyInCaseOrPunctuation name1 name2 ->
  swiftPropertyName name1 = swiftPropertyName name2
  <-> differOnlyInInitialsOrPunctuation name1 name2.
Proof.
  unfold differOnlyInCaseOrPunctuation, differOnlyInInitialsOrPunctuation.
  intros Hw; rewrite !swiftPropertyName_words; split.
  - now apply camelCase_injective.
  - intros E.
    rewrite <- (camelCase_lowerInitial (words name1)), E.
    apply camelCase_lowerInitial.
Qed.


(** *** Names with the same key have the same words *)

Lemma wordSplit_alnums (s : string) :
  allChars isAlnum (fst (wordSplit s)) = true
  /\ Forall (fun w => allChars isAlnum w = true) (snd (wordSplit s)).
Proof.
  induction s as [|c t [IH1 IH2]]; [split; [reflexivity|constructor]|].
  destruct (isAlnum c) eqn:Ec.
  - rewrite (wordSplit_alnum c t Ec); cbn [fst snd allChars].
    now rewrite Ec, IH1.
  - rewrite (wordSplit_punctuation c t Ec); cbn [fst snd allChars].
    split; [reflexivity|]; unfold words.
    destruct (fst (wordSplit t)); [exact IH2|now constructor].
Qed.

Lemma words_lowered (s : string) :
  Forall isLoweredWord (map toLowerCase (words s)).
Proof.
  assert (Ha : Forall (fun w => allChars isAlnum w = true) (words s)).
  { destruct (wordSplit_alnums s) as [H1 H2]; unfold words.
    destruct (fst (wordSplit s)); [exact H2|now constructor]. }
  pose proof (words_startsWithAlnum s) as Hs.
  induction (words s) as [|w ws IH]; [constructor|].
  inversion Ha as [|? ? Hw Hws]; inversion Hs as [|? ? (d & u & E & Hd) Hss];
    subst.
  cbn [map]; constructor; [|now apply IH].
  split; [discriminate|].
  clear -Hw; induction (String d u) as [|c t IHt]; [reflexivity|].
  cbn [allChars] in Hw; apply andb_true_iff in Hw; destruct Hw as [Hc Ht].
  cbn [toLowerCase mapChars allChars]; fold (toLowerCase t).
  destruct (wordCase_facts c) as [H _]; destruct (H Hc) as (-> & _).
  now apply IHt.
Qed.

Section WordsOfKey.
Variable sep : ascii.
Hypothesis sep_not_alnum : isLowerAlnum sep = false.

(** A text that is empty or begins with the separator *)
Lemma word_then_separator (x1 x2 r1 r2 : string) :
  allChars isLowerAlnum x1 = true -> allChars isLowerAlnum x2 = true ->
  (r1 = EmptyString \/ exists u, r1 = String sep u) ->
  (r2 = EmptyString \/ exists u, r2 = String sep u) ->
  (x1 ++ r1)%string = (x2 ++ r2)%string -> x1 = x2 /\ r1 = r2.
Proof.
  revert x2; induction x1 as [|c x1 IH]; intros [|d x2] H1 H2 Hr1 Hr2 E;
    cbn [append allChars] in *.
  - now split.
  - apply andb_true_iff in H2; destruct H2 as [Hd _].
    destruct Hr1 as [-> | (u & ->)]; [discriminate|].
    injection E as -> _; rewrite sep_not_alnum in Hd; discriminate.
  - apply andb_true_iff in H1; destruct H1 as [Hc _].
    destruct Hr2 as [-> | (u & ->)]; [discriminate|].
    injection E as -> _; rewrite sep_not_alnum in Hc; discriminate.
  - apply andb_true_iff in H1, H2; destruct H1 as [_ H1], H2 as [_ H2].
    injection E as -> E.
    destruct (IH x2 H1 H2 Hr1 Hr2 E) as [-> ->]; now split.
Qed.

Lemma prefixed_shape (l : list string) :
  prefixed sep l = EmptyString \/ exists u, prefixed sep l = String sep u.
Proof. destruct l; [now left|right; eexists; reflexivity]. Qed.

Lemma prefixed_injective (l1 l2 : list string) :
  Forall isLoweredWord l1 -> Forall isLoweredWord l2 ->
  prefixed sep l1 = prefixed sep l2 -> l1 = l2.
Proof.
  revert l2; induction l1 as [|x1 l1 IH]; intros [|x2 l2] H1 H2 E;
    try discriminate; [reflexivity|].
  inversion H1 as [|? ? [_ Hx1] Hl1]; inversion H2 as [|? ? [_ Hx2] Hl2];
    subst.
  cbn [prefixed] in E; injection E as E.
  destruct (word_then_separator x1 x2 _ _ Hx1 Hx2
              (prefixed_shape l1) (prefixed_shape l2) E) as [-> E'].
  f_equal; now apply IH.
Qed.

Lemma joinWith_injective (l1 l2 : list string) :
  Forall isLoweredWord l1 -> Forall isLoweredWord l2 ->
  joinWith (String sep EmptyString) l1 = joinWith (String sep EmptyString) l2 ->
  l1 = l2.
Proof.
  intros H1 H2 E.
  destruct l1 as [|x1 l1], l2 as [|x2 l2]; [reflexivity| | |].
  - inversion H2 as [|? ? [Hne _] _]; subst.
    rewrite joinWith_prefixed in E; destruct x2; [now destruct Hne|].
    discriminate.
  - inversion H1 as [|? ? [Hne _] _]; subst.
    rewrite joinWith_prefixed in E; destruct x1; [now destruct Hne|].
    discriminate.
  - rewrite !joinWith_prefixed in E.
    inversion H1 as [|? ? [_ Hx1] Hl1]; inversion H2 as [|? ? [_ Hx2] Hl2];
      subst.
    destruct (word_then_separator x1 x2 _ _ Hx1 Hx2
                (prefixed_shape l1) (prefixed_shape l2) E) as [-> E'].
    f_equal; now apply prefixed_injective.
Qed.

(** Two names get the same key exactly when they consist of the same
    words up to letter case. *)
Lemma sanitizeKey_agree_iff (name1 name2 : string) :
  sanitizeKey sep name1 = sanitizeKey sep name2
  <-> differOnlyInCaseOrPunctuation name1 name2.
Proof.
  unfold differOnlyInCaseOrPunctuation.
  rewrite !(sanitizeKey_words sep sep_not_alnum); split.
  - apply joinWith_injective; apply words_lowered.
  - now intros ->.
Qed.

End WordsOfKey.

Example swiftPropertyName_sky_blue :
  swiftPropertyName "Sky Blue" = "skyBlue"%string
  /\ swiftPropertyName "Sky-Blue" = "skyBlue"%string
  /\ swiftPropertyName "sky-blue" = "skyBlue"%string
  /\ swiftPropertyName " Sky  Blue!" = "skyBlue"%string
  /\ swiftPropertyName "my color 2!" = "myColor2"%string.
Proof. repeat split. Qed.

(** C9 as the specification words it fails: [exportAsSwift] keeps the case
    of the letters after the first, so the names [RED] and [red], which
    differ only in letter case, get the property names [rED] and [red]. *)
Lemma swiftPropertyName_keeps_case :
  differOnlyInCaseOrPunctuation "RED" "red"
  /\ swiftPropertyName "RED" = "rED"%string
  /\ swiftPropertyName "red" = "red"%string
  /\ swiftPropertyName "RED" <> swiftPropertyName "red".
Proof.
  split; [reflexivity|split; [reflexivity|split; [reflexivity|discriminate]]].
Qed.

(** Inserting punctuation into a word makes two words of it, and another
    key: [SkyBlue] and [Sky Blue] do not consist of the same words. *)
Remark cssVarName_splits_words :
  cssVarName "SkyBlue" = "skyblue"%string
  /\ cssVarName "Sky Blue" = "sky-blue"%string
  /\ ~ differOnlyInCaseOrPunctuation "SkyBlue" "Sky Blue".
Proof. split; [reflexivity|split; [reflexivity|discriminate]]. Qed.

(** C9, amended.  For every pair of (ASCII) colour names that differ only in
    letter case or in punctuation, that is, that consist of the same words
    up to letter case, whatever the punctuation before, between and after
    the words, the exporters that lower-case the name (CSS, SCSS, Tailwind,
    design tokens, JSON and Android XML) derive the same key from both
    names; [exportAsSwift] derives the same property name from both names
    exactly when, in addition, the characters after the first of each word
    have the same case in both names. *)
Theorem export_keys_agree (name1 name2 : string) :
  isAsciiText name1 = true -> isAsciiText name2 = true ->
  differOnlyInCaseOrPunctuation name1 name2 ->
  cssVarName name1 = cssVarName name2
  /\ scssVarName name1 = scssVarName name2
  /\ tailwindKey name1 = tailwindKey name2
  /\ designTokenKey name1 = designTokenKey name2
  /\ jsonKey name1 = jsonKey name2
  /\ androidName name1 = androidName name2
  /\ (swiftPropertyName name1 = swiftPropertyName name2
      <-> differOnlyInInitialsOrPunctuation name1 name2).
Proof.
  intros _ _ H.
  unfold cssVarName, scssVarName, tailwindKey, designTokenKey, jsonKey,
    androidName.
  repeat split;
    try (apply sanitizeKey_agree_iff; [reflexivity|exact H]);
    now apply swiftPropertyName_agree_iff.
Qed.

Lemma export_keys_agree_witness :
  cssVarName " Sky  Blue!" = cssVarName "sky-blue"
  /\ scssVarName " Sky  Blue!" = scssVarName "sky-blue"
  /\ tailwindKey " Sky  Blue!" = tailwindKey "sky-blue"
  /\ designTokenKey " Sky  Blue!" = designTokenKey "sky-blue"
  /\ jsonKey " Sky  Blue!" = jsonKey "sky-blue"
  /\ androidName " Sky  Blue!" = androidName "sky-blue"
  /\ (swiftPropertyName " Sky  Blue!" = swiftPropertyName "sky-blue"
      <-> differOnlyInInitialsOrPunctuation " Sky  Blue!" "sky-blue").
Proof.
  apply (export_keys_agree " Sky  Blue!" "sky-blue"); reflexivity.
Defined.

End ExportKeyFacts.

(* ================================================================== *)
(** ** Further properties of the colour codec *)
(* ================================================================== *)

Section HexTextFacts.
Import Contrast.

Lemma hexToRgb_sixDigits (hex : string) :
  hexToRgb hex = sixDigits (expandHex hex).
Proof.
  unfold hexToRgb; fold (expandHex hex).
  destruct (expandHex hex) as [|c1 [|c2 [|c3 [|c4 [|c5 [|c6 [|c7 t]]]]]]];
    try reflexivity.
  - cbn [String.length Nat.eqb negb sixDigits].
    destruct (allChars isHexDigit _) eqn:Ed; cbn [negb]; [|reflexivity].
    cbn [allChars] in Ed.
    repeat (apply andb_true_iff in Ed; let H := fresh "H" in destruct Ed as [H Ed]).
    cbn [substring String.substring Nat.sub].
    now rewrite !parseInt16_hexPair.
Qed.

Lemma hexCaseOk_all : forallb hexCaseOk allAscii = true.
Proof. vm_compute; reflexivity. Qed.

Lemma hexCase_facts (c : ascii) :
  isHexDigit (charToUpperCase c) = isHexDigit c
  /\ Ascii.eqb (charToUpperCase c) "#" = Ascii.eqb c "#"
  /\ charToUpperCase (charToUpperCase c) = charToUpperCase c
  /\ isUpperHexDigit (charToUpperCase c) = isHexDigit c.
Proof.
  pose proof (proj1 (forallb_forall _ _) hexCaseOk_all c (allAscii_complete c)) as Hok.
  unfold hexCaseOk in Hok.
  repeat (apply andb_true_iff in Hok; destruct Hok as [Hok ?]).
  repeat split;
    first [now apply Bool.eqb_prop | now apply Ascii.eqb_eq].
Qed.

Lemma hexPairBackOk_all :
  forallb (fun c1 => forallb (hexPairBackOk c1) hexDigitChars) hexDigitChars
  = true.
Proof. vm_compute; reflexivity. Qed.

Lemma hexPair_back (c1 c2 : ascii) :
  isHexDigit c1 = true -> isHexDigit c2 = true ->
  toUpperCase (ColorBlindness.hexPair (hexPairValue c1 c2))
  = String (charToUpperCase c1) (String (charToUpperCase c2) EmptyString).
Proof.
  intros H1 H2; apply hexDigitChars_complete in H1, H2.
  pose proof (proj1 (forallb_forall _ _) hexPairBackOk_all c1 H1) as Hrow.
  cbv beta in Hrow.
  pose proof (proj1 (forallb_forall _ _) Hrow c2 H2) as Hok.
  unfold hexPairBackOk in Hok; now apply String.eqb_eq in Hok.
Qed.

Lemma length_mapChars (f : ascii -> ascii) (s : string) :
  String.length (mapChars f s) = String.length s.
Proof. induction s as [|c s IH]; cbn [mapChars String.length]; congruence. Qed.

Lemma length_doubleChars (s : string) :
  String.length (doubleChars s) = (2 * String.length s)%nat.
Proof. induction s as [|c s IH]; cbn [doubleChars String.length]; lia. Qed.

Lemma mapChars_doubleChars (f : ascii -> ascii) (s : string) :
  mapChars f (doubleChars s) = doubleChars (mapChars f s).
Proof. induction s as [|c s IH]; cbn [mapChars doubleChars]; congruence. Qed.

Lemma allChars_hexDigit_upper (s : string) :
  allChars isHexDigit (toUpperCase s) = allChars isHexDigit s.
Proof.
  induction s as [|c s IH]; cbn [toUpperCase mapChars allChars]; [reflexivity|].
  fold (toUpperCase s); destruct (hexCase_facts c) as (-> & _); now rewrite IH.
Qed.

Lemma sixDigits_upper (s : string) : sixDigits (toUpperCase s) = sixDigits s.
Proof.
  destruct s as [|c1 [|c2 [|c3 [|c4 [|c5 [|c6 [|c7 t]]]]]]]; try reflexivity.
  change (toUpperCase
            (String c1 (String c2 (String c3 (String c4 (String c5
               (String c6 EmptyString)))))))
    with (String (charToUpperCase c1) (String (charToUpperCase c2)
           (String (charToUpperCase c3) (String (charToUpperCase c4)
             (String (charToUpperCase c5)
               (String (charToUpperCase c6) EmptyString)))))).
  unfold sixDigits; cbn [allChars].
  destruct (hexCase_facts c1) as (-> & _), (hexCase_facts c2) as (-> & _),
    (hexCase_facts c3) as (-> & _), (hexCase_facts c4) as (-> & _),
    (hexCase_facts c5) as (-> & _), (hexCase_facts c6) as (-> & _).
  destruct (isHexDigit c1) eqn:H1; [|reflexivity].
  destruct (isHexDigit c2) eqn:H2; [|reflexivity].
  destruct (isHexDigit c3) eqn:H3; [|reflexivity].
  destruct (isHexDigit c4) eqn:H4; [|reflexivity].
  destruct (isHexDigit c5) eqn:H5; [|reflexivity].
  destruct (isHexDigit c6) eqn:H6; [|reflexivity].
  cbn [andb]; unfold hexPairValue.
  destruct (hexDigit_facts c1 H1) as (_ & _ & -> & _).
  destruct (hexDigit_facts c2 H2) as (_ & _ & -> & _).
  destruct (hexDigit_facts c3 H3) as (_ & _ & -> & _).
  destruct (hexDigit_facts c4 H4) as (_ & _ & -> & _).
  destruct (hexDigit_facts c5 H5) as (_ & _ & -> & _).
  destruct (hexDigit_facts c6 H6) as (_ & _ & -> & _).
  reflexivity.
Qed.

(** What [normalizeHex] returns: ['#'] and the expanded text in upper case *)
Lemma normalizeHex_expandHex (hex : string) :
  normalizeHex hex = String "#" (toUpperCase (expandHex hex)).
Proof.
  unfold normalizeHex, expandHex; cbn [append].
  unfold toUpperCase; rewrite length_mapChars.
  destruct (String.length (stripLeadingHash hex) =? 3)%nat;
    now rewrite ?mapChars_doubleChars.
Qed.

Lemma expandHex_never_three (hex : string) :
  (String.length (expandHex hex) =? 3)%nat = false.
Proof.
  unfold expandHex.
  destruct (String.length (stripLeadingHash hex) =? 3)%nat eqn:E; [|exact E].
  apply Nat.eqb_eq in E; rewrite length_doubleChars, E; reflexivity.
Qed.

Lemma expandHex_normalizeHex (hex : string) :
  expandHex (normalizeHex hex) = toUpperCase (expandHex hex).
Proof.
  rewrite normalizeHex_expandHex.
  unfold expandHex at 1; cbn [stripLeadingHash Ascii.eqb Bool.eqb].
  unfold toUpperCase; rewrite length_mapChars.
  now rewrite expandHex_never_three.
Qed.

Lemma toUpperCase_idempotent (s : string) :
  toUpperCase (toUpperCase s) = toUpperCase s.
Proof.
  induction s as [|c s IH]; cbn [toUpperCase mapChars]; [reflexivity|].
  fold (toUpperCase s); fold (toUpperCase (toUpperCase s)).
  destruct (hexCase_facts c) as (_ & _ & -> & _); now rewrite IH.
Qed.

End HexTextFacts.

Section HexTextProperties.
Import Contrast.

Lemma allChars_doubleChars (p : ascii -> bool) (s : string) :
  allChars p (doubleChars s) = allChars p s.
Proof.
  induction s as [|c s IH]; cbn [doubleChars allChars]; [reflexivity|].
  rewrite IH; now destruct (p c).
Qed.

Lemma sixDigits_some (s : string) :
  (exists rgb, sixDigits s = Some rgb)
  <-> (String.length s =? 6)%nat && allChars isHexDigit s = true.
Proof.
  destruct s as [|c1 [|c2 [|c3 [|c4 [|c5 [|c6 [|c7 t]]]]]]];
    try (split; [intros (rgb & H); discriminate|discriminate]).
  unfold sixDigits; cbn [String.length Nat.eqb andb].
  destruct (allChars isHexDigit _); split; try discriminate; eauto.
  intros (rgb & H); discriminate.
Qed.

Lemma expandHex_length_six (hex : string) :
  (String.length (expandHex hex) =? 6)%nat
  = (String.length (stripLeadingHash hex) =? 6)%nat
    || (String.length (stripLeadingHash hex) =? 3)%nat.
Proof.
  unfold expandHex.
  destruct (String.length (stripLeadingHash hex) =? 3)%nat eqn:E.
  - apply Nat.eqb_eq in E; rewrite length_doubleChars, E; reflexivity.
  - now rewrite orb_false_r.
Qed.

Lemma expandHex_hexDigits (hex : string) :
  allChars isHexDigit (expandHex hex)
  = allChars isHexDigit (stripLeadingHash hex).
Proof.
  unfold expandHex.
  destruct (String.length (stripLeadingHash hex) =? 3)%nat;
    [apply allChars_doubleChars|reflexivity].
Qed.

(** X1. [isValidHex] accepts exactly the texts [hexToRgb] parses: [hexToRgb]
    returns a colour when [isValidHex] holds and [null] otherwise. *)
Theorem isValidHex_iff_hexToRgb (hex : string) :
  isValidHex hex = true <-> exists rgb, hexToRgb hex = Some rgb.
Proof.
  rewrite hexToRgb_sixDigits, sixDigits_some.
  unfold isValidHex; cbv zeta.
  now rewrite expandHex_length_six, expandHex_hexDigits.
Qed.

(** X2. A shorthand of three digits is the colour of the six digits got by
    doubling each: each channel is 17 times its digit, with or without the
    leading ['#']. *)
Theorem hexToRgb_shorthand (c1 c2 c3 : ascii) :
  isHexDigit c1 = true -> isHexDigit c2 = true -> isHexDigit c3 = true ->
  let short := String c1 (String c2 (String c3 EmptyString)) in
  let long :=
    String c1 (String c1 (String c2 (String c2 (String c3
      (String c3 EmptyString))))) in
  let rgb :=
    mkRGB (IZR (17 * hexDigitValue c1)) (IZR (17 * hexDigitValue c2))
          (IZR (17 * hexDigitValue c3)) in
  hexToRgb (String "#" short) = Some rgb
  /\ hexToRgb short = Some rgb
  /\ hexToRgb (String "#" long) = Some rgb
  /\ hexToRgb long = Some rgb.
Proof.
  intros H1 H2 H3; cbv zeta.
  destruct (hexDigit_facts c1 H1) as (N1 & _).
  assert (E : sixDigits
                (String c1 (String c1 (String c2 (String c2 (String c3
                   (String c3 EmptyString))))))
              = Some (mkRGB (IZR (17 * hexDigitValue c1))
                            (IZR (17 * hexDigitValue c2))
                            (IZR (17 * hexDigitValue c3)))).
  { unfold sixDigits; cbn [allChars]; rewrite H1, H2, H3; cbn [andb].
    unfold hexPairValue.
    replace (16 * hexDigitValue c1 + hexDigitValue c1)%Z
      with (17 * hexDigitValue c1)%Z by lia.
    replace (16 * hexDigitValue c2 + hexDigitValue c2)%Z
      with (17 * hexDigitValue c2)%Z by lia.
    replace (16 * hexDigitValue c3 + hexDigitValue c3)%Z
      with (17 * hexDigitValue c3)%Z by lia.
    reflexivity. }
  rewrite !hexToRgb_sixDigits; unfold expandHex.
  cbn [stripLeadingHash Ascii.eqb Bool.eqb]; rewrite N1.
  cbn [String.length Nat.eqb doubleChars].
  repeat split; exact E.
Qed.

Lemma hexToRgb_shorthand_witness :
  hexToRgb "#abc" = Some (mkRGB (IZR (17 * hexDigitValue "a"))
                            (IZR (17 * hexDigitValue "b"))
                            (IZR (17 * hexDigitValue "c")))
  /\ hexToRgb "abc" = Some (mkRGB (IZR (17 * hexDigitValue "a"))
                              (IZR (17 * hexDigitValue "b"))
                              (IZR (17 * hexDigitValue "c")))
  /\ hexToRgb "#aabbcc" = Some (mkRGB (IZR (17 * hexDigitValue "a"))
                                  (IZR (17 * hexDigitValue "b"))
                                  (IZR (17 * hexDigitValue "c")))
  /\ hexToRgb "aabbcc" = Some (mkRGB (IZR (17 * hexDigitValue "a"))
                                 (IZR (17 * hexDigitValue "b"))
                                 (IZR (17 * hexDigitValue "c"))).
Proof.
  apply (hexToRgb_shorthand "a" "b" "c"); reflexivity.
Defined.

(** X3. Normalizing does not change the colour a text parses to, nor whether it
    parses. *)
Theorem hexToRgb_normalizeHex (hex : string) :
  isAsciiText hex = true -> hexToRgb (normalizeHex hex) = hexToRgb hex.
Proof.
  intros _.
  now rewrite !hexToRgb_sixDigits, expandHex_normalizeHex, sixDigits_upper.
Qed.

Lemma hexToRgb_normalizeHex_witness :
  hexToRgb (normalizeHex "3a9") = hexToRgb "3a9".
Proof. apply (hexToRgb_normalizeHex "3a9"); reflexivity. Defined.

(** X4. [normalizeHex] is idempotent. *)
Theorem normalizeHex_idempotent (hex : string) :
  isAsciiText hex = true ->
  normalizeHex (normalizeHex hex) = normalizeHex hex.
Proof.
  intros _.
  rewrite (normalizeHex_expandHex (normalizeHex hex)).
  rewrite expandHex_normalizeHex, toUpperCase_idempotent.
  now rewrite <- normalizeHex_expandHex.
Qed.

Lemma normalizeHex_idempotent_witness :
  normalizeHex (normalizeHex "#3a9") = normalizeHex "#3a9".
Proof. apply (normalizeHex_idempotent "#3a9"); reflexivity. Defined.

Lemma allChars_upperHexDigit_upper (s : string) :
  allChars isUpperHexDigit (toUpperCase s) = allChars isHexDigit s.
Proof.
  induction s as [|c s IH]; cbn [toUpperCase mapChars allChars]; [reflexivity|].
  fold (toUpperCase s); destruct (hexCase_facts c) as (_ & _ & _ & ->).
  now rewrite IH.
Qed.

(** X5. The text [normalizeHex] returns is ['#'] followed by six upper-case
    hexadecimal digits exactly when its input is a valid hex colour; for
    any other input it is not a colour. *)
Theorem normalizeHex_upper_iff_valid (hex : string) :
  isAsciiText hex = true ->
  isUpperHexColor (normalizeHex hex) = isValidHex hex.
Proof.
  intros _.
  rewrite normalizeHex_expandHex.
  unfold isUpperHexColor, isHexColorOf, isValidHex;
    cbn [Ascii.eqb Bool.eqb andb]; cbv zeta.
  unfold toUpperCase at 1; rewrite length_mapChars.
  now rewrite allChars_upperHexDigit_upper, expandHex_length_six,
    expandHex_hexDigits.
Qed.

Lemma normalizeHex_upper_iff_valid_witness :
  isUpperHexColor (normalizeHex "#3a9") = isValidHex "#3a9".
Proof. apply (normalizeHex_upper_iff_valid "#3a9"); reflexivity. Defined.

Lemma sixDigits_inv (s : string) (rgb : RGB) :
  sixDigits s = Some rgb ->
  exists c1 c2 c3 c4 c5 c6 : ascii,
    s = String c1 (String c2 (String c3 (String c4 (String c5
          (String c6 EmptyString)))))
    /\ isHexDigit c1 = true /\ isHexDigit c2 = true /\ isHexDigit c3 = true
    /\ isHexDigit c4 = true /\ isHexDigit c5 = true /\ isHexDigit c6 = true
    /\ rgb = mkRGB (IZR (hexPairValue c1 c2)) (IZR (hexPairValue c3 c4))
                   (IZR (hexPairValue c5 c6)).
Proof.
  destruct s as [|c1 [|c2 [|c3 [|c4 [|c5 [|c6 [|c7 t]]]]]]]; try discriminate.
  unfold sixDigits.
  destruct (allChars isHexDigit _) eqn:Ed; [|discriminate].
  intros E; injection E as <-.
  cbn [allChars] in Ed.
  repeat (apply andb_true_iff in Ed; let H := fresh "H" in destruct Ed as [H Ed]).
  exists c1, c2, c3, c4, c5, c6; repeat split; assumption.
Qed.

(** X6. Printing a parsed colour gives the text back in normal form:
    [rgbToHex (hexToRgb hex)] and [hex] normalize to the same text. *)
Theorem rgbToHex_hexToRgb_normalized (hex : string) (rgb : RGB) :
  hexToRgb hex = Some rgb ->
  normalizeHex (rgbToHex rgb) = normalizeHex hex.
Proof.
  rewrite hexToRgb_sixDigits; intros Hparse.
  destruct (sixDigits_inv _ _ Hparse)
    as (c1 & c2 & c3 & c4 & c5 & c6 & E & H1 & H2 & H3 & H4 & H5 & H6 & ->).
  rewrite (normalizeHex_expandHex hex), E.
  pose proof (hexPairValue_range c1 c2 H1 H2) as R1.
  pose proof (hexPairValue_range c3 c4 H3 H4) as R2.
  pose proof (hexPairValue_range c5 c6 H5 H6) as R3.
  unfold rgbToHex; cbn [r g b].
  rewrite !toHex_hexPair, !Math_round_IZR.
  rewrite !Z.min_r, !Z.max_r by lia.
  pose proof (hexPair_back c1 c2 H1 H2) as B1.
  pose proof (hexPair_back c3 c4 H3 H4) as B2.
  pose proof (hexPair_back c5 c6 H5 H6) as B3.
  destruct (hexPair_shape _ R1) as (a1 & a2 & E1 & _).
  destruct (hexPair_shape _ R2) as (a3 & a4 & E2 & _).
  destruct (hexPair_shape _ R3) as (a5 & a6 & E3 & _).
  rewrite E1 in B1 |- *; rewrite E2 in B2 |- *; rewrite E3 in B3 |- *.
  cbn [append].
  rewrite normalizeHex_expandHex.
  unfold expandHex; cbn [stripLeadingHash Ascii.eqb Bool.eqb String.length Nat.eqb].
  cbn [toUpperCase mapChars] in B1, B2, B3 |- *.
  injection B1 as -> ->; injection B2 as -> ->; injection B3 as -> ->.
  reflexivity.
Qed.

Lemma rgbToHex_hexToRgb_normalized_witness :
  normalizeHex (rgbToHex (mkRGB 51 170 153)) = normalizeHex "3a9".
Proof.
  apply (rgbToHex_hexToRgb_normalized "3a9" (mkRGB 51 170 153)); reflexivity.
Defined.

End HexTextProperties.

(* ================================================================== *)
(** ** Further properties of the compliance classifier *)
(* ================================================================== *)

Section ComplianceProperties.
Import Contrast.
Local Open Scope R_scope.

Lemma num_ge_true (x y : R) : num_ge x y = true <-> y <= x.
Proof. unfold num_ge; apply num_le_true. Qed.

Lemma num_ge_false (x y : R) : num_ge x y = false <-> x < y.
Proof. unfold num_ge; apply num_le_false. Qed.

(** split on the threshold comparisons of the goal *)
Ltac thresholds :=
  unfold checkWCAGCompliance, getNormalTextLevel, getLargeTextLevel,
    WCAG_THRESHOLDS.normalTextAA, WCAG_THRESHOLDS.normalTextAAA,
    WCAG_THRESHOLDS.largeTextAA, WCAG_THRESHOLDS.largeTextAAA,
    WCAG_THRESHOLDS.uiComponents;
  cbn [normalTextAA normalTextAAA largeTextAA largeTextAAA uiComponents];
  repeat
    match goal with
    | |- context [num_ge ?x ?y] =>
        let E := fresh "E" in
        destruct (num_ge x y) eqn:E;
        [apply num_ge_true in E | apply num_ge_false in E]
    end.

(** The five flags are ordered: a ratio that passes normal text at AAA
    passes it at AA; passing normal text at AA is passing large text at AAA;
    that implies passing large text at AA, which is passing UI components. *)
Theorem checkWCAGCompliance_flags_ordered (ratio : R) :
  let c := checkWCAGCompliance ratio in
  (normalTextAAA c = true -> normalTextAA c = true)
  /\ normalTextAA c = largeTextAAA c
  /\ (largeTextAAA c = true -> largeTextAA c = true)
  /\ largeTextAA c = uiComponents c.
Proof.
  cbv zeta; thresholds; repeat split; intros; try reflexivity;
    try discriminate; exfalso; lra.
Qed.

(** X7. The letter grades agree with the flags, and large text is never graded
    below normal text: a ratio graded AA or better for normal text is AAA
    for large text. *)
Theorem text_levels_agree_with_flags (ratio : R) :
  let c := checkWCAGCompliance ratio in
  (level (getNormalTextLevel ratio) = Level_AAA <-> normalTextAAA c = true)
  /\ (level (getNormalTextLevel ratio) = Level_Fail
      <-> normalTextAA c = false)
  /\ (level (getLargeTextLevel ratio) = Level_AAA <-> largeTextAAA c = true)
  /\ (level (getLargeTextLevel ratio) = Level_Fail
      <-> largeTextAA c = false)
  /\ (levelRank (level (getNormalTextLevel ratio))
      <= levelRank (level (getLargeTextLevel ratio)))%nat
  /\ (level (getNormalTextLevel ratio) <> Level_Fail ->
      level (getLargeTextLevel ratio) = Level_AAA).
Proof.
  cbv zeta; thresholds; cbn [level levelRank];
    repeat split; intros; try reflexivity; try discriminate;
    try congruence; try lia; exfalso; lra.
Qed.

End ComplianceProperties.

Section RatioTextProperties.
Import Contrast.
Local Open Scope R_scope.

Lemma fixed2Ok_all :
  forallb (fun n => fixed2Ok (Z.of_nat n)) (seq 0 2101) = true.
Proof. vm_compute; reflexivity. Qed.

Lemma toFixed_nonneg (x : R) (f : nat) :
  0 <= x -> toFixed x f = fixedText false (Zfloor (x * 10 ^ f + / 2)) f.
Proof.
  intros Hx; unfold toFixed.
  now rewrite (proj2 (num_lt_false x 0)) by lra.
Qed.

(** X8. The ratio shown is the ratio to two decimals: the text before [:1]
    reads as a number within 0.005 of the ratio. *)
Theorem formatContrastRatio_accuracy (ratio : R) :
  0 <= ratio <= 21 ->
  exists (text : string) (n : Z),
    formatContrastRatio ratio = (text ++ ":1")%string
    /\ readFixed2 text = Some n
    /\ Rabs (IZR n / 100 - ratio) <= 1 / 200.
Proof.
  intros Hr; unfold formatContrastRatio.
  rewrite toFixed_nonneg by lra.
  set (n := Zfloor (ratio * 10 ^ 2 + / 2)).
  pose proof (Zfloor_bound (ratio * 10 ^ 2 + / 2)) as Hb; fold n in Hb.
  simpl pow in Hb.
  assert (Hn : (0 <= n <= 2100)%Z).
  { split.
    - apply Zfloor_lub; simpl; lra.
    - assert (IZR n < IZR 2101) by lra.
      apply lt_IZR in H; lia. }
  clearbody n.
  exists (fixedText false n 2), n; split; [reflexivity|split].
  - assert (Hin : In (Z.to_nat n) (seq 0 2101)) by (apply in_seq; lia).
    pose proof (proj1 (forallb_forall _ _) fixed2Ok_all _ Hin) as Hok.
    cbv beta in Hok; rewrite Z2Nat.id in Hok by lia.
    unfold fixed2Ok, optZ_eqb in Hok.
    destruct (readFixed2 (fixedText false n 2)); [|discriminate].
    apply Z.eqb_eq in Hok; now rewrite Hok.
  - apply Rabs_le; lra.
Qed.

Lemma formatContrastRatio_accuracy_witness :
  exists (text : string) (n : Z),
    formatContrastRatio 4.5 = (text ++ ":1")%string
    /\ readFixed2 text = Some n
    /\ Rabs (IZR n / 100 - 4.5) <= 1 / 200.
Proof. apply (formatContrastRatio_accuracy 4.5); lra. Defined.

(** X9. The classification uses the ratio itself, the text a rounded one: a
    ratio from 4.495 up to, not including, 4.5 is shown as [4.50:1] and
    fails normal text at AA. *)
Theorem formatContrastRatio_shows_threshold_for_failing_ratio (ratio : R) :
  4.495 <= ratio < 4.5 ->
  formatContrastRatio ratio = "4.50:1"%string
  /\ ratioString (checkWCAGCompliance ratio) = "4.50:1"%string
  /\ normalTextAA (checkWCAGCompliance ratio) = false
  /\ level (getNormalTextLevel ratio) = Level_Fail.
Proof.
  intros Hr.
  assert (E : formatContrastRatio ratio = "4.50:1"%string).
  { unfold formatContrastRatio; rewrite toFixed_nonneg by lra.
    replace (Zfloor (ratio * 10 ^ 2 + / 2)) with 450%Z
      by (symmetry; apply Zfloor_eq; simpl; lra).
    vm_compute; reflexivity. }
  split; [exact E|split; [exact E|]].
  unfold checkWCAGCompliance, getNormalTextLevel,
    WCAG_THRESHOLDS.normalTextAA, WCAG_THRESHOLDS.normalTextAAA;
    cbn [normalTextAA].
  rewrite (proj2 (num_ge_false ratio 4.5)) by lra.
  rewrite (proj2 (num_ge_false ratio 7)) by lra.
  split; reflexivity.
Qed.

Lemma formatContrastRatio_shows_threshold_witness :
  formatContrastRatio 4.499 = "4.50:1"%string
  /\ ratioString (checkWCAGCompliance 4.499) = "4.50:1"%string
  /\ normalTextAA (checkWCAGCompliance 4.499) = false
  /\ level (getNormalTextLevel 4.499) = Level_Fail.
Proof.
  apply (formatContrastRatio_shows_threshold_for_failing_ratio 4.499); lra.
Defined.

End RatioTextProperties.

(* ================================================================== *)
(** ** Further properties of the contrast matrix *)
(* ================================================================== *)

Section MatrixProperties.
Import Contrast Palette.
Local Open Scope R_scope.

Lemma calculatePairContrast_comm (fgColor bgColor : PaletteColor) :
  calculatePairContrast fgColor bgColor = calculatePairContrast bgColor fgColor.
Proof.
  unfold calculatePairContrast.
  destruct (hexToRgb (hex fgColor)), (hexToRgb (hex bgColor)); try reflexivity.
  apply getContrastRatio_comm.
Qed.

Lemma calculatePairContrast_range (fgColor bgColor : PaletteColor) :
  1 <= calculatePairContrast fgColor bgColor <= 21.
Proof.
  unfold calculatePairContrast.
  destruct (hexToRgb (hex fgColor)) as [fg|] eqn:Ef; [|lra].
  destruct (hexToRgb (hex bgColor)) as [bg|] eqn:Eb; [|lra].
  apply getContrastRatio_range; eapply hexToRgb_validRGB; eassumption.
Qed.

(** X22. The matrix is symmetric: the cells [(i, j)] and [(j, i)] carry the same
    ratio and the same classification, whatever the palette records hold,
    and every ratio of the matrix lies in [[1, 21]]. *)
Theorem generateContrastMatrix_symmetric (colors : list PaletteColor)
    (i j : nat) (color1 color2 : PaletteColor) :
  nth_error colors i = Some color1 -> nth_error colors j = Some color2 ->
  exists cell mirror,
    cellAt (generateContrastMatrix colors) i j = Some cell
    /\ cellAt (generateContrastMatrix colors) j i = Some mirror
    /\ ratio cell = ratio mirror
    /\ compliance cell = compliance mirror
    /\ 1 <= ratio cell <= 21.
Proof.
  intros Hi Hj.
  exists (matrixCell color1 color2), (matrixCell color2 color1).
  split; [now apply generateContrastMatrix_cellAt|].
  split; [now apply generateContrastMatrix_cellAt|].
  unfold matrixCell; cbn [ratio compliance].
  rewrite (calculatePairContrast_comm color2 color1).
  repeat split; apply calculatePairContrast_range.
Qed.

Lemma generateContrastMatrix_symmetric_witness :
  let ink := mkPaletteColor "c1" "Ink" "#000000" in
  let broken := mkPaletteColor "c2" "Broken" "zzz" in
  exists cell mirror,
    cellAt (generateContrastMatrix [ink; broken]) 0 1 = Some cell
    /\ cellAt (generateContrastMatrix [ink; broken]) 1 0 = Some mirror
    /\ ratio cell = ratio mirror
    /\ compliance cell = compliance mirror
    /\ 1 <= ratio cell <= 21.
Proof.
  apply (generateContrastMatrix_symmetric
           [mkPaletteColor "c1" "Ink" "#000000";
            mkPaletteColor "c2" "Broken" "zzz"]
           0 1 (mkPaletteColor "c1" "Ink" "#000000")
           (mkPaletteColor "c2" "Broken" "zzz")); reflexivity.
Defined.

End MatrixProperties.

(* ================================================================== *)
(** ** Further properties of the accessible-alternative search *)
(* ================================================================== *)

Section SearchProperties.
Import Contrast.
Local Open Scope R_scope.

Lemma findPassingColor_passing_color_witness :
  findPassingColor (mkRGB 0 0 0) (mkRGB 255 255 255) 4.5
  = Some (mkRGB 0 0 0).
Proof.
  apply (findPassingColor_passing_color 0 0 0 (mkRGB 255 255 255) 4.5);
    try lia.
  rewrite getContrastRatio_black_white; lra.
Defined.

(** The outcome of [findPassingColor], by direction *)
Lemma findPassingColor_outcome (colorToAdjust referenceColor : RGB)
    (targetRatio : R) :
  match findPassingColor colorToAdjust referenceColor targetRatio with
  | Some result =>
      meets referenceColor targetRatio result
      /\ ((exists i, firstPassing colorToAdjust referenceColor targetRatio
                       (primaryDirection referenceColor) i result)
          \/ (nonePassing colorToAdjust referenceColor targetRatio
                (primaryDirection referenceColor)
              /\ exists i, firstPassing colorToAdjust referenceColor
                             targetRatio
                             (opposite (primaryDirection referenceColor))
                             i result))
  | None =>
      nonePassing colorToAdjust referenceColor targetRatio Lighter
      /\ nonePassing colorToAdjust referenceColor targetRatio Darker
  end.
Proof.
  rewrite findPassingColor_directions.
  pose proof
    (option_orElse_cases _ _
       (fun result =>
          exists i, firstPassing colorToAdjust referenceColor
                      targetRatio (primaryDirection referenceColor)
                      i result)
       (fun result =>
          exists i, firstPassing colorToAdjust referenceColor
                      targetRatio
                      (opposite (primaryDirection referenceColor))
                      i result)
       (meets referenceColor targetRatio)
       (nonePassing colorToAdjust referenceColor targetRatio
          (primaryDirection referenceColor))
       (nonePassing colorToAdjust referenceColor targetRatio
          (opposite (primaryDirection referenceColor)))
       (fun x '(ex_intro _ i Hi) => proj1 (proj2 (proj2 Hi)))
       (fun x '(ex_intro _ i Hi) => proj1 (proj2 (proj2 Hi)))
       (scan_direction colorToAdjust referenceColor targetRatio
          (primaryDirection referenceColor))
       (scan_direction colorToAdjust referenceColor targetRatio
          (opposite (primaryDirection referenceColor)))) as H.
  match type of H with
  | match ?X with _ => _ end =>
      match goal with
      | |- match ?Y with _ => _ end => change Y with X
      end;
      generalize dependent X
  end.
  intros [result|] H; [exact H|].
  destruct (primaryDirection referenceColor); cbn [opposite] in H; tauto.
Qed.

(** At lightness 100 every hue and saturation is white, at lightness 0
    black. *)
Lemma hslToRgb_lightness_100 (hue saturation : R) :
  hslToRgb (mkHSL hue saturation 100) = mkRGB 255 255 255.
Proof.
  unfold hslToRgb; cbn [h s l].
  replace (100 / 100) with 1 by lra.
  destruct (num_eq (saturation / 100) 0); cbn [fst snd].
  - replace (1 * 255) with 255 by lra; now rewrite Math_round_IZR.
  - rewrite (proj2 (num_lt_false 1 0.5)) by lra.
    replace (1 + saturation / 100 - 1 * (saturation / 100)) with 1 by lra.
    replace (2 * 1 - 1) with 1 by lra.
    assert (E : forall t, hue2rgb 1 1 t = 1).
    { intros t; unfold hue2rgb.
      repeat match goal with
             | |- context [if ?c then _ else _] => destruct c
             end; lra. }
    rewrite !E; replace (1 * 255) with 255 by lra.
    now rewrite Math_round_IZR.
Qed.

Lemma hslToRgb_lightness_0 (hue saturation : R) :
  hslToRgb (mkHSL hue saturation 0) = mkRGB 0 0 0.
Proof.
  unfold hslToRgb; cbn [h s l].
  replace (0 / 100) with 0 by lra.
  destruct (num_eq (saturation / 100) 0); cbn [fst snd].
  - replace (0 * 255) with 0 by lra; now rewrite Math_round_IZR.
  - rewrite (proj2 (num_lt_true 0 0.5)) by lra.
    replace (0 * (1 + saturation / 100)) with 0 by lra.
    replace (2 * 0 - 0) with 0 by lra.
    assert (E : forall t, hue2rgb 0 0 t = 0).
    { intros t; unfold hue2rgb.
      repeat match goal with
             | |- context [if ?c then _ else _] => destruct c
             end; lra. }
    rewrite !E; replace (0 * 255) with 0 by lra.
    now rewrite Math_round_IZR.
Qed.

(** The last offset of each direction is the extreme of the lightness. *)
Lemma candidate_lighter_100 (colorToAdjust : RGB) :
  validRGB colorToAdjust ->
  candidate colorToAdjust Lighter 100 = mkRGB 255 255 255.
Proof.
  intros Hv; pose proof (rgbToHsl_lightness_range _ Hv) as Hl.
  unfold candidate, lightnessAt; cbv zeta.
  rewrite (Rmin_left 100 (l (rgbToHsl colorToAdjust) + 100)) by lra.
  rewrite Rmin_left, Rmax_right by lra.
  apply hslToRgb_lightness_100.
Qed.

Lemma candidate_darker_100 (colorToAdjust : RGB) :
  validRGB colorToAdjust ->
  candidate colorToAdjust Darker 100 = mkRGB 0 0 0.
Proof.
  intros Hv; pose proof (rgbToHsl_lightness_range _ Hv) as Hl.
  unfold candidate, lightnessAt; cbv zeta.
  rewrite (Rmax_left 0 (l (rgbToHsl colorToAdjust) - 100)) by lra.
  rewrite Rmin_right, Rmax_left by lra.
  apply hslToRgb_lightness_0.
Qed.

Lemma getContrastRatio_white (c : RGB) :
  validRGB c ->
  getContrastRatio (mkRGB 255 255 255) c
  = 1.05 / (getRelativeLuminance c + 0.05).
Proof.
  intros Hv; apply getRelativeLuminance_range in Hv.
  unfold getContrastRatio; rewrite getRelativeLuminance_white.
  rewrite Rmax_left, Rmin_right by lra.
  f_equal; lra.
Qed.

Lemma getContrastRatio_black (c : RGB) :
  validRGB c ->
  getContrastRatio (mkRGB 0 0 0) c
  = (getRelativeLuminance c + 0.05) / 0.05.
Proof.
  intros Hv; apply getRelativeLuminance_range in Hv.
  unfold getContrastRatio; rewrite getRelativeLuminance_black.
  rewrite Rmax_right, Rmin_left by lra.
  f_equal; lra.
Qed.

(** Against any colour, white or black reaches the ratio 4.5. *)
Lemma white_or_black_passes (c : RGB) :
  validRGB c ->
  4.5 <= getContrastRatio (mkRGB 255 255 255) c
  \/ 4.5 <= getContrastRatio (mkRGB 0 0 0) c.
Proof.
  intros Hv.
  rewrite getContrastRatio_white, getContrastRatio_black by assumption.
  apply getRelativeLuminance_range in Hv.
  destruct (Rle_lt_dec (getRelativeLuminance c) 0.18) as [Hd|Hl].
  - left.
    apply Rmult_le_reg_r with (getRelativeLuminance c + 0.05); [lra|].
    unfold Rdiv; rewrite Rmult_assoc, Rinv_l by lra; lra.
  - right.
    apply Rmult_le_reg_r with 0.05; [lra|].
    unfold Rdiv; rewrite Rmult_assoc, Rinv_l by lra; lra.
Qed.

Lemma findPassingColor_reaches (colorToAdjust referenceColor : RGB)
    (targetRatio : R) :
  validRGB colorToAdjust -> validRGB referenceColor -> targetRatio <= 4.5 ->
  exists result,
    findPassingColor colorToAdjust referenceColor targetRatio = Some result
    /\ targetRatio <= getContrastRatio result referenceColor.
Proof.
  intros Hc Href Ht.
  pose proof (findPassingColor_outcome colorToAdjust referenceColor
                targetRatio) as Hout.
  destruct (findPassingColor colorToAdjust referenceColor targetRatio)
    as [result|].
  - exists result; split; [reflexivity|apply Hout].
  - exfalso; destruct Hout as [HL HD].
    assert (Hr : (0 <= 100 <= 100)%Z) by lia.
    specialize (HL 100%Z Hr); specialize (HD 100%Z Hr).
    rewrite candidate_lighter_100 in HL by assumption.
    rewrite candidate_darker_100 in HD by assumption.
    unfold meets in HL, HD.
    destruct (white_or_black_passes referenceColor Href); lra.
Qed.

(** X11. With a target of at most 4.5, the default, the search never comes back
    empty: whatever the two colours, it returns a colour, and that colour
    meets the target. *)
Theorem findPassingColor_default_target_succeeds
    (colorToAdjust referenceColor : RGB) (targetRatio : R) :
  validRGB colorToAdjust -> validRGB referenceColor -> targetRatio <= 4.5 ->
  exists result,
    findPassingColor colorToAdjust referenceColor targetRatio = Some result
    /\ targetRatio <= getContrastRatio result referenceColor.
Proof. exact (findPassingColor_reaches colorToAdjust referenceColor targetRatio). Qed.

Lemma findPassingColor_default_target_succeeds_witness :
  exists result,
    findPassingColor (mkRGB 200 200 200) (mkRGB 255 255 255) 4.5 = Some result
    /\ 4.5 <= getContrastRatio result (mkRGB 255 255 255).
Proof.
  apply (findPassingColor_default_target_succeeds
           (mkRGB 200 200 200) (mkRGB 255 255 255) 4.5);
    unfold validRGB, validChannel; cbn [r g b]; lra.
Defined.

End SearchProperties.

(* ================================================================== *)
(** ** Further properties of the CVD simulator *)
(* ================================================================== *)

Section SimulatorProperties.
Import Contrast ColorBlindness.
Local Open Scope R_scope.

(** [Rpower x 2.4] raised to the fifth power is [x ^ 12]. *)
Lemma Rpower_12_5 (x : R) : 0 < x -> Rpower x 2.4 ^ 5 = x ^ 12.
Proof.
  intros Hx.
  rewrite <- (Rpower_pow 5) by apply exp_pos.
  rewrite Rpower_mult.
  replace (2.4 * INR 5) with (INR 12) by (simpl; lra).
  now apply Rpower_pow.
Qed.

Lemma pow_lt_inv (x y : R) (n : nat) :
  0 <= x -> 0 <= y -> x ^ n < y ^ n -> x < y.
Proof.
  intros Hx Hy H.
  destruct (Rlt_le_dec x y) as [Hlt|Hle]; [exact Hlt|].
  exfalso; pose proof (pow_incr y x n (conj Hy Hle)); lra.
Qed.

(** Above the breakpoint of the 8-bit channels the linear value is above
    the breakpoint of the inverse transfer. *)
Lemma srgbToLinear_above (y : R) :
  0.093 <= y -> 0.0031308 < Rpower y 2.4.
Proof.
  intros Hy.
  apply (pow_lt_inv _ _ 5); [lra|left; apply exp_pos|].
  rewrite Rpower_12_5 by lra.
  apply Rlt_le_trans with (0.093 ^ 12).
  - simpl; lra.
  - apply pow_incr; lra.
Qed.

Lemma transfer_round_trip (channel : Z) :
  (0 <= channel <= 255)%Z ->
  linearToSrgb (srgbToLinear (IZR channel)) = channel.
Proof.
  intros Hc.
  assert (H0 : 0 <= IZR channel) by (apply IZR_le; lia).
  assert (H1 : IZR channel <= 255) by (apply IZR_le; lia).
  unfold linearToSrgb, srgbToLinear.
  destruct (Z_le_gt_dec channel 10) as [Hle|Hgt].
  - assert (IZR channel <= 10) by now apply IZR_le.
    rewrite (proj2 (num_le_true (IZR channel / 255) 0.04045)) by lra.
    rewrite (proj2 (num_le_true (IZR channel / 255 / 12.92) 0.0031308)) by lra.
    replace (IZR channel / 255 / 12.92 * 12.92 * 255) with (IZR channel) by lra.
    rewrite Rmin_right, Rmax_right by lra.
    apply Math_round_IZR.
  - assert (11 <= IZR channel) by (apply IZR_le; lia).
    rewrite (proj2 (num_le_false (IZR channel / 255) 0.04045)) by lra.
    set (y := (IZR channel / 255 + 0.055) / 1.055).
    assert (Hy : 0.093 <= y) by (unfold y; lra).
    unfold Math_pow.
    rewrite (proj2 (num_le_false (Rpower y 2.4) 0.0031308))
      by now apply srgbToLinear_above.
    rewrite Rpower_mult.
    replace (2.4 * (1 / 2.4)) with 1 by lra.
    rewrite Rpower_1 by lra.
    replace ((1.055 * y - 0.055) * 255) with (IZR channel) by (unfold y; lra).
    rewrite Rmin_right, Rmax_right by lra.
    apply Math_round_IZR.
Qed.

(** The text printed for three channels *)
Lemma hexColor_text (c1 c2 c3 c4 c5 c6 : ascii) :
  isHexDigit c1 = true -> isHexDigit c2 = true -> isHexDigit c3 = true ->
  isHexDigit c4 = true -> isHexDigit c5 = true -> isHexDigit c6 = true ->
  toUpperCase ("#" ++ hexPair (hexPairValue c1 c2)
                 ++ hexPair (hexPairValue c3 c4)
                 ++ hexPair (hexPairValue c5 c6))
  = String "#" (toUpperCase
      (String c1 (String c2 (String c3 (String c4 (String c5
         (String c6 EmptyString))))))).
Proof.
  intros H1 H2 H3 H4 H5 H6.
  pose proof (hexPair_back c1 c2 H1 H2) as B1.
  pose proof (hexPair_back c3 c4 H3 H4) as B2.
  pose proof (hexPair_back c5 c6 H5 H6) as B3.
  destruct (hexPair_shape _ (hexPairValue_range c1 c2 H1 H2))
    as (a1 & a2 & E1 & _).
  destruct (hexPair_shape _ (hexPairValue_range c3 c4 H3 H4))
    as (a3 & a4 & E2 & _).
  destruct (hexPair_shape _ (hexPairValue_range c5 c6 H5 H6))
    as (a5 & a6 & E3 & _).
  rewrite E1 in B1 |- *; rewrite E2 in B2 |- *; rewrite E3 in B3 |- *.
  cbn [append toUpperCase mapChars] in B1, B2, B3 |- *.
  injection B1 as -> ->; injection B2 as -> ->; injection B3 as -> ->.
  reflexivity.
Qed.

Lemma simulateLinear_gray (cvdType : CVDType) (x : R) :
  simulateLinear cvdType (x, x, x) = (x, x, x).
Proof.
  destruct cvdType; unfold simulateLinear, applyMatrix, CVD_MATRICES.protanopia,
    CVD_MATRICES.deuteranopia, CVD_MATRICES.tritanopia, GRAYSCALE_WEIGHTS,
    at0, at1, at2, row0, row1, row2; cbn [fst snd];
    repeat f_equal; lra.
Qed.

Lemma simulateCVD_valid (hex : string) (cvdType : CVDType)
    (c1 c2 c3 c4 c5 c6 : ascii) :
  stripLeadingHash hex
  = String c1 (String c2 (String c3 (String c4 (String c5
      (String c6 EmptyString))))) ->
  isValidHex6 hex = true ->
  isHexDigit c1 = true -> isHexDigit c2 = true -> isHexDigit c3 = true ->
  isHexDigit c4 = true -> isHexDigit c5 = true -> isHexDigit c6 = true ->
  cvdType <> none ->
  let simulated :=
    simulateLinear cvdType
      (srgbToLinear (IZR (hexPairValue c1 c2)),
       srgbToLinear (IZR (hexPairValue c3 c4)),
       srgbToLinear (IZR (hexPairValue c5 c6))) in
  simulateCVD hex cvdType
  = toUpperCase ("#" ++ hexPair (linearToSrgb (at0 simulated))
                   ++ hexPair (linearToSrgb (at1 simulated))
                   ++ hexPair (linearToSrgb (at2 simulated))).
Proof.
  intros E Hvalid H1 H2 H3 H4 H5 H6 Hnone; cbv zeta.
  unfold simulateCVD.
  rewrite (removeFirstHash_valid hex Hvalid), E.
  cbn [substring String.substring Nat.sub].
  rewrite !parseInt16_hexPair by assumption.
  destruct cvdType; try reflexivity; contradiction.
Qed.

(** The gray of pure red: 0.2126 re-encodes to 127. *)
Lemma linearToSrgb_red_gray : linearToSrgb 0.2126 = 127%Z.
Proof.
  unfold linearToSrgb, Math_pow.
  rewrite (proj2 (num_le_false 0.2126 0.0031308)) by lra.
  set (y := Rpower 0.2126 (1 / 2.4)).
  assert (Hy0 : 0 < y) by apply exp_pos.
  assert (Hy : Rpower y 2.4 = 0.2126).
  { unfold y; rewrite Rpower_mult.
    replace (1 / 2.4 * 2.4) with 1 by lra.
    apply Rpower_1; lra. }
  assert (H12 : y ^ 12 = 0.2126 ^ 5) by (rewrite <- Rpower_12_5, Hy; lra).
  assert (Hlo : 0.5224 < y).
  { apply (pow_lt_inv _ _ 12); [lra|lra|]. rewrite H12; simpl; lra. }
  assert (Hhi : y < 0.526).
  { apply (pow_lt_inv _ _ 12); [lra|lra|]. rewrite H12; simpl; lra. }
  rewrite Rmin_right, Rmax_right by lra.
  unfold Math_round; apply Zfloor_eq; simpl; lra.
Qed.

(** The example of the specification: under achromatopsia pure red is the
    gray [#7F7F7F]. *)
Lemma simulateCVD_achromatopsia_red :
  simulateCVD "#FF0000" achromatopsia = "#7F7F7F"%string.
Proof.
  rewrite (simulateCVD_valid "#FF0000" achromatopsia "F" "F" "0" "0" "0" "0")
    by (reflexivity || discriminate).
  cbv zeta; cbn [simulateLinear at0 at1 at2 fst snd GRAYSCALE_WEIGHTS].
  change (hexPairValue "F" "F") with 255%Z.
  change (hexPairValue "0" "0") with 0%Z.
  assert (E255 : srgbToLinear 255 = 1).
  { unfold srgbToLinear, Math_pow.
    rewrite (proj2 (num_le_false (255 / 255) 0.04045)) by lra.
    replace ((255 / 255 + 0.055) / 1.055) with 1 by lra.
    unfold Rpower; rewrite ln_1, Rmult_0_r; apply exp_0. }
  assert (E0 : srgbToLinear 0 = 0).
  { unfold srgbToLinear.
    rewrite (proj2 (num_le_true (0 / 255) 0.04045)) by lra; lra. }
  rewrite E255, E0.
  replace (1 * 0.2126 + 0 * 0.7152 + 0 * 0.0722) with 0.2126 by lra.
  rewrite linearToSrgb_red_gray.
  reflexivity.
Qed.

(** X15. For every channel value, the sRGB transfer and its inverse cancel:
    re-encoding the linear value of an 8-bit channel gives the channel
    back. *)
Theorem linearToSrgb_srgbToLinear (channel : Z) :
  (0 <= channel <= 255)%Z ->
  linearToSrgb (srgbToLinear (IZR channel)) = channel.
Proof. apply transfer_round_trip. Qed.

Lemma linearToSrgb_srgbToLinear_witness :
  linearToSrgb (srgbToLinear 128) = 128%Z.
Proof. apply (linearToSrgb_srgbToLinear 128); lia. Defined.

Lemma simulateCVD_gray_normalized (hex : string) (cvdType : CVDType)
    (gray : R) :
  isValidHex6 hex = true ->
  hexToRgb hex = Some (mkRGB gray gray gray) ->
  cvdType <> none ->
  simulateCVD hex cvdType = normalizeHex hex.
Proof.
  intros Hvalid Hgray Hnone.
  destruct (isValidHex6_digits hex Hvalid)
    as (c1 & c2 & c3 & c4 & c5 & c6 & E & H1 & H2 & H3 & H4 & H5 & H6).
  rewrite (hexToRgb_valid hex c1 c2 c3 c4 c5 c6 E H1 H2 H3 H4 H5 H6) in Hgray.
  injection Hgray as E1 E2 E3.
  rewrite <- E1 in E2, E3; apply eq_IZR in E2, E3.
  rewrite (simulateCVD_valid hex cvdType c1 c2 c3 c4 c5 c6) by assumption.
  cbv zeta; rewrite E2, E3, simulateLinear_gray.
  unfold at0, at1, at2; cbn [fst snd].
  rewrite transfer_round_trip by now apply hexPairValue_range.
  rewrite <- E2 at 2; rewrite <- E3 at 2.
  rewrite hexColor_text by assumption.
  rewrite normalizeHex_expandHex.
  unfold expandHex; rewrite E.
  reflexivity.
Qed.

(** X16. A gray is a fixed point of every simulation: for a valid 6-digit hex
    colour with equal channels, [simulateCVD] returns the colour itself, in
    normal form, under each of the four deficiency types. *)
Theorem simulateCVD_gray_fixed (hex : string) (cvdType : CVDType) (gray : R) :
  isValidHex6 hex = true ->
  hexToRgb hex = Some (mkRGB gray gray gray) ->
  cvdType <> none ->
  simulateCVD hex cvdType = normalizeHex hex.
Proof. apply simulateCVD_gray_normalized. Qed.

Lemma simulateCVD_gray_fixed_witness :
  simulateCVD "#7f7f7f" protanopia = normalizeHex "#7f7f7f".
Proof.
  apply (simulateCVD_gray_fixed "#7f7f7f" protanopia 127);
    [reflexivity|reflexivity|discriminate].
Defined.

Lemma hexColor_parse (x y z : Z) :
  (0 <= x <= 255)%Z -> (0 <= y <= 255)%Z -> (0 <= z <= 255)%Z ->
  isUpperHexColor (toUpperCase ("#" ++ hexPair x ++ hexPair y ++ hexPair z))
  = true
  /\ hexToRgb (toUpperCase ("#" ++ hexPair x ++ hexPair y ++ hexPair z))
     = Some (mkRGB (IZR x) (IZR y) (IZR z)).
Proof.
  intros Hx Hy Hz.
  destruct (hexPair_shape x Hx) as (a1 & a2 & E1 & L1 & L2 & V1).
  destruct (hexPair_shape y Hy) as (a3 & a4 & E2 & L3 & L4 & V2).
  destruct (hexPair_shape z Hz) as (a5 & a6 & E3 & L5 & L6 & V3).
  rewrite E1, E2, E3; cbn [append toUpperCase mapChars].
  change (charToUpperCase "#") with "#"%char.
  assert (U : forall a, isLowerHexDigit a = true ->
                isHexDigit (charToUpperCase a) = true
                /\ hexDigitValue (charToUpperCase a) = hexDigitValue a).
  { intros a La.
    destruct (hexDigit_facts a (lower_is_hexDigit a La)) as (_ & Hh & Hv & _).
    now split. }
  destruct (U a1 L1) as [U1 W1], (U a2 L2) as [U2 W2], (U a3 L3) as [U3 W3],
    (U a4 L4) as [U4 W4], (U a5 L5) as [U5 W5], (U a6 L6) as [U6 W6].
  split.
  - unfold isUpperHexColor, isHexColorOf;
      cbn [Ascii.eqb Bool.eqb String.length Nat.eqb allChars andb].
    now rewrite !lowerHexDigit_toUpper.
  - rewrite hexToRgb_six_digits by assumption.
    unfold hexPairValue in *.
    now rewrite W1, W2, W3, W4, W5, W6, V1, V2, V3.
Qed.

(** X17. For a valid 6-digit hex colour the simulation is a colour again: under
    every deficiency type the text returned is ['#'] followed by six
    upper-case hexadecimal digits, and it parses to channels in
    [[0, 255]]. *)
Theorem simulateCVD_returns_color (hex : string) (cvdType : CVDType) :
  isValidHex6 hex = true -> cvdType <> none ->
  isUpperHexColor (simulateCVD hex cvdType) = true
  /\ exists rgb,
       hexToRgb (simulateCVD hex cvdType) = Some rgb /\ validRGB rgb.
Proof.
  intros Hvalid Hnone.
  destruct (isValidHex6_digits hex Hvalid)
    as (c1 & c2 & c3 & c4 & c5 & c6 & E & H1 & H2 & H3 & H4 & H5 & H6).
  rewrite (simulateCVD_valid hex cvdType c1 c2 c3 c4 c5 c6) by assumption.
  cbv zeta.
  match goal with
  | |- context [append (hexPair (linearToSrgb ?x))
                  (append (hexPair (linearToSrgb ?y))
                     (hexPair (linearToSrgb ?z)))] =>
      destruct (hexColor_parse (linearToSrgb x) (linearToSrgb y)
                  (linearToSrgb z) (linearToSrgb_range x)
                  (linearToSrgb_range y) (linearToSrgb_range z))
        as [Hup Hparse]
  end.
  split; [exact Hup|].
  eexists; split; [exact Hparse|].
  eapply hexToRgb_validRGB; exact Hparse.
Qed.

Lemma simulateCVD_returns_color_witness :
  isUpperHexColor (simulateCVD "3399ff" tritanopia) = true
  /\ exists rgb,
       hexToRgb (simulateCVD "3399ff" tritanopia) = Some rgb /\ validRGB rgb.
Proof.
  apply (simulateCVD_returns_color "3399ff" tritanopia);
    [reflexivity|discriminate].
Defined.

Lemma substring_short (s : string) (start stop : nat) :
  (String.length s <= start)%nat -> substring start stop s = EmptyString.
Proof.
  unfold substring; generalize (stop - start)%nat as m.
  revert start; induction s as [|c s IH]; intros start m Hl.
  - destruct start, m; reflexivity.
  - destruct start as [|start]; cbn [String.length] in Hl; [lia|].
    cbn [String.substring]; apply IH; lia.
Qed.

(** X18. Shorthand is not expanded: when fewer than five characters are left
    once the ['#'] is removed, as for every 3-digit colour, the blue channel
    is NaN and the text returned, under every deficiency type, is
    [#NANNANNAN], which is no colour. *)
Theorem simulateCVD_short_input (hex : string) (cvdType : CVDType) :
  (String.length (removeFirstHash hex) <= 4)%nat -> cvdType <> none ->
  simulateCVD hex cvdType = "#NANNANNAN"%string
  /\ isValidHex (simulateCVD hex cvdType) = false.
Proof.
  intros Hshort Hnone.
  assert (E : simulateCVD hex cvdType = "#NANNANNAN"%string).
  { unfold simulateCVD.
    rewrite (substring_short (removeFirstHash hex) 4 6 Hshort).
    change (parseInt16 EmptyString) with (@None Z).
    destruct cvdType; try contradiction;
      destruct (parseInt16 (substring 0 2 (removeFirstHash hex)));
      destruct (parseInt16 (substring 2 4 (removeFirstHash hex)));
      reflexivity. }
  rewrite E; split; reflexivity.
Qed.

Lemma simulateCVD_short_input_witness :
  simulateCVD "#abc" deuteranopia = "#NANNANNAN"%string
  /\ isValidHex (simulateCVD "#abc" deuteranopia) = false.
Proof.
  apply (simulateCVD_short_input "#abc" deuteranopia);
    [cbn; lia|discriminate].
Defined.

Lemma upperHexDigit_fixed_all :
  forallb (fun c => implb (isUpperHexDigit c)
                      (Ascii.eqb (charToUpperCase c) c)) allAscii = true.
Proof. vm_compute; reflexivity. Qed.

Lemma toUpperCase_upperHexDigits (s : string) :
  allChars isUpperHexDigit s = true -> toUpperCase s = s.
Proof.
  induction s as [|c s IH]; cbn [allChars toUpperCase mapChars]; [reflexivity|].
  intros H; apply andb_true_iff in H; destruct H as [Hc Hs].
  fold (toUpperCase s); rewrite (IH Hs); f_equal.
  pose proof (proj1 (forallb_forall _ _) upperHexDigit_fixed_all c
                (allAscii_complete c)) as Hok.
  cbv beta in Hok; rewrite Hc in Hok; now apply Ascii.eqb_eq in Hok.
Qed.

(** A normalized colour is a fixed point of [normalizeHex]. *)
Lemma normalizeHex_fixed (s : string) :
  isUpperHexColor s = true -> normalizeHex s = s.
Proof.
  unfold isUpperHexColor, isHexColorOf; intros H.
  destruct s as [|c t]; [discriminate|].
  apply andb_true_iff in H; destruct H as [H Hd].
  apply andb_true_iff in H; destruct H as [Hc Hl].
  apply Ascii.eqb_eq in Hc; subst c.
  rewrite normalizeHex_expandHex; unfold expandHex.
  cbn [stripLeadingHash Ascii.eqb Bool.eqb].
  apply Nat.eqb_eq in Hl; rewrite Hl; cbn [Nat.eqb].
  now rewrite toUpperCase_upperHexDigits.
Qed.

Lemma upperHexColor_valid6 (s : string) :
  isUpperHexColor s = true -> isValidHex6 s = true.
Proof.
  unfold isUpperHexColor, isHexColorOf; intros H.
  destruct s as [|c t]; [discriminate|].
  apply andb_true_iff in H; destruct H as [H Hd].
  apply andb_true_iff in H; destruct H as [Hc Hl].
  unfold isValidHex6; cbn [stripLeadingHash]; rewrite Hc, Hl; cbn [andb].
  clear - Hd; induction t as [|a t IH]; cbn [allChars] in *; [reflexivity|].
  apply andb_true_iff in Hd; destruct Hd as [Ha Ht].
  now rewrite (upper_is_hexDigit a Ha), IH.
Qed.

(** X19. Simulating achromatopsia twice is simulating it once. *)
Theorem simulateCVD_achromatopsia_idempotent (hex : string) :
  isValidHex6 hex = true ->
  simulateCVD (simulateCVD hex achromatopsia) achromatopsia
  = simulateCVD hex achromatopsia.
Proof.
  intros Hvalid.
  destruct (simulateCVD_achromatopsia_channels hex Hvalid)
    as (red & green & blue & _ & Hout).
  cbv zeta in Hout; destruct Hout as [Hparse Hupper].
  rewrite (simulateCVD_gray_normalized _ achromatopsia _
             (upperHexColor_valid6 _ Hupper) Hparse) by discriminate.
  now apply normalizeHex_fixed.
Qed.

Lemma simulateCVD_achromatopsia_idempotent_witness :
  simulateCVD (simulateCVD "#FF0000" achromatopsia) achromatopsia
  = simulateCVD "#FF0000" achromatopsia.
Proof.
  apply (simulateCVD_achromatopsia_idempotent "#FF0000"); reflexivity.
Defined.

End SimulatorProperties.

(* ================================================================== *)
(** ** Further properties of the export keys *)
(* ================================================================== *)

Section KeyProperties.
Import Palette.

Lemma lowerCaseOk_all : forallb lowerCaseOk allAscii = true.
Proof. vm_compute; reflexivity. Qed.

Lemma lowerAlnum_lower (c : ascii) :
  isLowerAlnum c = true -> charToLowerCase c = c.
Proof.
  intros H.
  pose proof (proj1 (forallb_forall _ _) lowerCaseOk_all c (allAscii_complete c)) as Hok.
  unfold lowerCaseOk in Hok; rewrite H in Hok.
  apply andb_true_iff in Hok; destruct Hok as [Hok _].
  now apply Ascii.eqb_eq.
Qed.

Lemma alnum_toLower (c : ascii) :
  isAlnum c = true ->
  isAlnum (charToLowerCase c) = true /\ isUpper (charToLowerCase c) = false.
Proof.
  intros H.
  pose proof (proj1 (forallb_forall _ _) lowerCaseOk_all c (allAscii_complete c)) as Hok.
  unfold lowerCaseOk in Hok; rewrite H in Hok.
  apply andb_true_iff in Hok; destruct Hok as [_ Hok].
  apply andb_true_iff in Hok; destruct Hok as [H1 H2].
  now apply negb_true_iff in H2.
Qed.

Section Separator.
Variable sep : ascii.
Hypothesis sep_not_alnum : isLowerAlnum sep = false.
Hypothesis sep_lower : charToLowerCase sep = sep.

Lemma collapseRuns_keyFrom (s : string) :
  forall inRun : bool, keyFrom sep inRun (collapseRuns sep inRun s) = true.
Proof.
  induction s as [|c s IH]; intros inRun; cbn [collapseRuns]; [reflexivity|].
  destruct (isLowerAlnum c) eqn:Ec.
  - cbn [keyFrom]; rewrite Ec; apply IH.
  - destruct inRun; [apply IH|].
    cbn [keyFrom]; rewrite sep_not_alnum, Ascii.eqb_refl; cbn [andb negb].
    apply IH.
Qed.

Lemma stripLeading_keyFrom (s : string) :
  keyFrom sep false s = true -> keyFrom sep true (stripLeading sep s) = true.
Proof.
  destruct s as [|c t]; [reflexivity|]; cbn [stripLeading keyFrom].
  destruct (Ascii.eqb c sep) eqn:Ec.
  - apply Ascii.eqb_eq in Ec; subst c; rewrite sep_not_alnum.
    cbn [andb negb]; auto.
  - cbn [keyFrom]; destruct (isLowerAlnum c); [auto|]; rewrite Ec; auto.
Qed.

Lemma stripTrailing_keyFrom (s : string) :
  forall afterSep : bool,
    keyFrom sep afterSep s = true ->
    keyFrom sep afterSep (stripTrailing sep s) = true
    /\ endsWith sep (stripTrailing sep s) = false.
Proof.
  induction s as [|c t IH]; intros afterSep H; [now split|].
  cbn [keyFrom] in H.
  destruct t as [|d t'].
  - cbn [stripTrailing].
    destruct (Ascii.eqb c sep) eqn:Ec; [now split|].
    cbn [keyFrom endsWith]; rewrite Ec.
    destruct (isLowerAlnum c); [now split|discriminate].
  - change (stripTrailing sep (String c (String d t')))
      with (String c (stripTrailing sep (String d t'))).
    destruct (isLowerAlnum c) eqn:Ea.
    + destruct (IH false H) as [H1 H2].
      cbn [keyFrom]; rewrite Ea; split; [exact H1|].
      destruct (stripTrailing sep (String d t')) as [|e u] eqn:Es;
        [|exact H2].
      cbn [endsWith].
      destruct (Ascii.eqb c sep) eqn:Ec; [|reflexivity].
      apply Ascii.eqb_eq in Ec; subst c; congruence.
    + apply andb_true_iff in H; destruct H as [H Ht].
      apply andb_true_iff in H; destruct H as [Hc Hs].
      destruct (IH true Ht) as [H1 H2].
      cbn [keyFrom]; rewrite Ea, Hc, Hs; cbn [andb]; split; [exact H1|].
      destruct (stripTrailing sep (String d t')) as [|e u] eqn:Es;
        [|exact H2].
      (* the separator [c] would be last: what follows it is one more
         separator, which [keyFrom] excludes *)
      exfalso.
      cbn [stripTrailing] in Es.
      destruct t' as [|e' u']; [|discriminate].
      destruct (Ascii.eqb d sep) eqn:Ed; [|discriminate].
      cbn [keyFrom] in Ht.
      apply Ascii.eqb_eq in Ed; subst d; rewrite sep_not_alnum in Ht.
      cbn [negb andb] in Ht; rewrite andb_false_r in Ht; discriminate.
Qed.

Lemma sanitizeKey_isKey (name : string) :
  isKey sep (sanitizeKey sep name) = true.
Proof.
  unfold sanitizeKey, isKey.
  pose proof (collapseRuns_keyFrom (toLowerCase name) false) as H.
  apply stripLeading_keyFrom in H.
  destruct (stripTrailing_keyFrom _ true H) as [H1 H2].
  now rewrite H1, H2.
Qed.

Lemma toLowerCase_key (s : string) :
  forall afterSep : bool,
    keyFrom sep afterSep s = true -> toLowerCase s = s.
Proof.
  induction s as [|c t IH]; intros afterSep H; [reflexivity|].
  cbn [keyFrom] in H; cbn [toLowerCase mapChars]; fold (toLowerCase t).
  destruct (isLowerAlnum c) eqn:Ea.
  - now rewrite (lowerAlnum_lower c Ea), (IH false H).
  - apply andb_true_iff in H; destruct H as [H Ht].
    apply andb_true_iff in H; destruct H as [Hc _].
    apply Ascii.eqb_eq in Hc; subst c.
    now rewrite sep_lower, (IH true Ht).
Qed.

Lemma collapseRuns_key (s : string) :
  forall afterSep : bool,
    keyFrom sep afterSep s = true -> collapseRuns sep afterSep s = s.
Proof.
  induction s as [|c t IH]; intros afterSep H; [reflexivity|].
  cbn [keyFrom] in H; cbn [collapseRuns].
  destruct (isLowerAlnum c) eqn:Ea.
  - now rewrite (IH false H).
  - apply andb_true_iff in H; destruct H as [H Ht].
    apply andb_true_iff in H; destruct H as [Hc Hs].
    apply Ascii.eqb_eq in Hc; subst c.
    apply negb_true_iff in Hs; subst afterSep.
    now rewrite (IH true Ht).
Qed.

Lemma keyFrom_weaken (s : string) :
  keyFrom sep true s = true -> keyFrom sep false s = true.
Proof.
  destruct s as [|c t]; [reflexivity|]; cbn [keyFrom].
  destruct (isLowerAlnum c); [auto|].
  cbn [negb]; rewrite andb_false_r; discriminate.
Qed.

Lemma stripLeading_key (s : string) :
  keyFrom sep true s = true -> stripLeading sep s = s.
Proof.
  destruct s as [|c t]; [reflexivity|]; cbn [keyFrom stripLeading].
  destruct (Ascii.eqb c sep) eqn:Ec; [|reflexivity].
  apply Ascii.eqb_eq in Ec; subst c; rewrite sep_not_alnum.
  cbn [negb]; rewrite andb_false_r; discriminate.
Qed.

Lemma stripTrailing_key (s : string) :
  endsWith sep s = false -> stripTrailing sep s = s.
Proof.
  induction s as [|c t IH]; [reflexivity|].
  destruct t as [|d u].
  - cbn [endsWith stripTrailing]; now intros ->.
  - intros H.
    change (stripTrailing sep (String c (String d u)))
      with (String c (stripTrailing sep (String d u))).
    f_equal; apply IH; exact H.
Qed.

Lemma sanitizeKey_key (k : string) :
  isKey sep k = true -> sanitizeKey sep k = k.
Proof.
  unfold isKey; intros H; apply andb_true_iff in H; destruct H as [Hk He].
  apply negb_true_iff in He.
  unfold sanitizeKey.
  rewrite (toLowerCase_key k true Hk).
  rewrite (collapseRuns_key k false (keyFrom_weaken k Hk)).
  rewrite (stripLeading_key k Hk).
  now apply stripTrailing_key.
Qed.

End Separator.

(** X23. Every export key is well formed: lower-case letters and digits joined
    by single separators, with no separator first or last, whatever the
    name.  The key may be empty. *)
Theorem export_keys_well_formed (name : string) :
  isKey "-" (cssVarName name) = true
  /\ isKey "-" (scssVarName name) = true
  /\ isKey "-" (tailwindKey name) = true
  /\ isKey "-" (designTokenKey name) = true
  /\ isKey "_" (jsonKey name) = true
  /\ isKey "_" (androidName name) = true.
Proof.
  unfold cssVarName, scssVarName, tailwindKey, designTokenKey, jsonKey,
    androidName.
  repeat split; now apply sanitizeKey_isKey.
Qed.

(** Deriving a key from a key changes nothing: a name that already is a
    well-formed key is exported under itself. *)
Theorem export_keys_idempotent (name : string) :
  cssVarName (cssVarName name) = cssVarName name
  /\ jsonKey (jsonKey name) = jsonKey name
  /\ (isKey "-" name = true -> cssVarName name = name)
  /\ (isKey "_" name = true -> jsonKey name = name).
Proof.
  unfold cssVarName, jsonKey.
  repeat split; intros;
    apply sanitizeKey_key; try reflexivity; try assumption;
    now apply sanitizeKey_isKey.
Qed.

End KeyProperties.

Section KeyRelations.
Import Palette.

Lemma collapseRuns_swap (s : string) :
  forall inRun : bool,
    mapChars (swapSeparator "-" "_") (collapseRuns "-" inRun s)
    = collapseRuns "_" inRun s.
Proof.
  induction s as [|c s IH]; intros inRun; cbn [collapseRuns mapChars];
    [reflexivity|].
  destruct (isLowerAlnum c) eqn:Ec.
  - cbn [mapChars]; rewrite IH; f_equal.
    unfold swapSeparator.
    destruct (Ascii.eqb c "-") eqn:E; [|reflexivity].
    apply Ascii.eqb_eq in E; subst c; discriminate.
  - destruct inRun; [apply IH|].
    cbn [mapChars]; now rewrite IH.
Qed.

Lemma swap_not_underscore (c : ascii) :
  isLowerAlnum c = true ->
  swapSeparator "-" "_" c = c /\ Ascii.eqb c "_" = false
  /\ Ascii.eqb c "-" = false.
Proof.
  intros H; unfold swapSeparator.
  destruct (Ascii.eqb c "-") eqn:E1.
  { apply Ascii.eqb_eq in E1; subst c; discriminate. }
  destruct (Ascii.eqb c "_") eqn:E2.
  { apply Ascii.eqb_eq in E2; subst c; discriminate. }
  now repeat split.
Qed.

Lemma stripLeading_swap (s : string) (afterSep : bool) :
  keyFrom "-" afterSep s = true ->
  stripLeading "_" (mapChars (swapSeparator "-" "_") s)
  = mapChars (swapSeparator "-" "_") (stripLeading "-" s).
Proof.
  destruct s as [|c t]; [reflexivity|]; cbn [keyFrom mapChars stripLeading].
  destruct (isLowerAlnum c) eqn:Ec.
  - destruct (swap_not_underscore c Ec) as (E1 & E2 & E3).
    rewrite E1, E2, E3; cbn [mapChars]; now rewrite E1.
  - intros H; apply andb_true_iff in H; destruct H as [H _].
    apply andb_true_iff in H; destruct H as [H _].
    rewrite H; apply Ascii.eqb_eq in H; subst c; reflexivity.
Qed.

Lemma stripTrailing_swap (s : string) :
  forall afterSep : bool,
    keyFrom "-" afterSep s = true ->
    stripTrailing "_" (mapChars (swapSeparator "-" "_") s)
    = mapChars (swapSeparator "-" "_") (stripTrailing "-" s).
Proof.
  induction s as [|c t IH]; intros afterSep H; [reflexivity|].
  cbn [keyFrom] in H.
  assert (Ht : exists a, keyFrom "-" a t = true).
  { destruct (isLowerAlnum c); [now exists false|].
    apply andb_true_iff in H; destruct H as [_ H]; now exists true. }
  destruct Ht as [a Ht].
  destruct t as [|d u].
  - cbn [mapChars stripTrailing].
    destruct (isLowerAlnum c) eqn:Ec.
    + destruct (swap_not_underscore c Ec) as (E1 & E2 & E3).
      rewrite E1, E2, E3; cbn [mapChars]; now rewrite E1.
    + apply andb_true_iff in H; destruct H as [H _].
      apply andb_true_iff in H; destruct H as [H _].
      rewrite H; apply Ascii.eqb_eq in H; subst c; reflexivity.
  - change (stripTrailing "-" (String c (String d u)))
      with (String c (stripTrailing "-" (String d u))).
    change (mapChars (swapSeparator "-" "_") (String c (String d u)))
      with (String (swapSeparator "-" "_" c)
              (String (swapSeparator "-" "_" d)
                 (mapChars (swapSeparator "-" "_") u))).
    change (stripTrailing "_"
              (String (swapSeparator "-" "_" c)
                 (String (swapSeparator "-" "_" d)
                    (mapChars (swapSeparator "-" "_") u))))
      with (String (swapSeparator "-" "_" c)
              (stripTrailing "_"
                 (mapChars (swapSeparator "-" "_") (String d u)))).
    cbn [mapChars]; f_equal; exact (IH a Ht).
Qed.

(** X24. The keys of the exporters differ in the separator only: the JSON and
    Android key of a name is its CSS key with every ['-'] replaced by
    ['_']. *)
Theorem jsonKey_is_cssVarName_with_underscores (name : string) :
  jsonKey name = mapChars (swapSeparator "-" "_") (cssVarName name)
  /\ androidName name = mapChars (swapSeparator "-" "_") (tailwindKey name).
Proof.
  assert (E : sanitizeKey "_" name
              = mapChars (swapSeparator "-" "_") (sanitizeKey "-" name)).
  { unfold sanitizeKey.
    pose proof (collapseRuns_keyFrom "-" eq_refl (toLowerCase name) false)
      as Hk.
    pose proof (stripLeading_keyFrom "-" eq_refl _ Hk) as Hk'.
    rewrite <- (stripTrailing_swap _ true Hk').
    rewrite <- (stripLeading_swap _ false Hk).
    now rewrite collapseRuns_swap. }
  unfold jsonKey, androidName, cssVarName, tailwindKey; now split.
Qed.

Lemma keepAlnum_alnum (s : string) : allChars isAlnum (keepAlnum s) = true.
Proof.
  induction s as [|c s IH]; cbn [keepAlnum]; [reflexivity|].
  destruct (isAlnum c) eqn:Ec; [|exact IH].
  cbn [allChars]; now rewrite Ec, IH.
Qed.

(** X25. A Swift property name holds letters and digits only, and does not
    begin with an upper-case letter, whatever the name.  (It may be empty,
    and it may begin with a digit.) *)
Theorem swiftPropertyName_alnum (name : string) :
  allChars isAlnum (swiftPropertyName name) = true
  /\ startsLower (swiftPropertyName name) = true.
Proof.
  unfold swiftPropertyName.
  pose proof (keepAlnum_alnum (camelScan EmptyString name)) as H.
  destruct (keepAlnum (camelScan EmptyString name)) as [|c t];
    [now split|].
  cbn [allChars] in H; apply andb_true_iff in H; destruct H as [Hc Ht].
  destruct (alnum_toLower c Hc) as [H1 H2].
  assert (Hl : isLineTerminator c = false).
  { destruct (isLineTerminator c) eqn:E; [|reflexivity].
    unfold isLineTerminator in E; unfold isAlnum, isLower, isUpper, isDigit,
      inRange in Hc.
    apply orb_true_iff in E; destruct E as [E|E]; apply N.eqb_eq in E;
      rewrite E in Hc; discriminate. }
  cbn [lowerFirst]; rewrite Hl; cbn [allChars startsLower].
  now rewrite H1, H2, Ht.
Qed.

End KeyRelations.

(* ================================================================== *)
(** ** Further properties of the exported objects *)
(* ================================================================== *)

Section ObjectProperties.
Import Palette.

Lemma getProperty_setProperty_same {V : Type} (key : string) (value : V)
    (obj : list (string * V)) :
  getProperty key (setProperty key value obj) = Some value.
Proof.
  induction obj as [|[k v] rest IH]; cbn [setProperty getProperty].
  - now rewrite String.eqb_refl.
  - destruct (String.eqb k key) eqn:E; cbn [getProperty]; now rewrite E.
Qed.

Lemma getProperty_setProperty_other {V : Type} (key other : string)
    (value : V) (obj : list (string * V)) :
  String.eqb key other = false ->
  getProperty other (setProperty key value obj) = getProperty other obj.
Proof.
  intros Hne; induction obj as [|[k v] rest IH];
    cbn [setProperty getProperty].
  - now rewrite Hne.
  - destruct (String.eqb k key) eqn:E; cbn [getProperty].
    + apply String.eqb_eq in E; subst k; now rewrite Hne.
    + now rewrite IH.
Qed.

Lemma setProperty_keys {V : Type} (key : string) (value : V)
    (obj : list (string * V)) (k : string) :
  In k (map fst (setProperty key value obj))
  <-> k = key \/ In k (map fst obj).
Proof.
  induction obj as [|[k0 v0] rest IH]; cbn [setProperty map fst In].
  - intuition.
  - destruct (String.eqb k0 key) eqn:E; cbn [map fst In].
    + apply String.eqb_eq in E; subst k0; intuition.
    + rewrite IH; intuition.
Qed.

Lemma setProperty_NoDup {V : Type} (key : string) (value : V)
    (obj : list (string * V)) :
  NoDup (map fst obj) -> NoDup (map fst (setProperty key value obj)).
Proof.
  induction obj as [|[k0 v0] rest IH]; cbn [setProperty map fst]; intros Hnd.
  - constructor; [intros []|constructor].
  - inversion Hnd as [|? ? Hnotin Hrest]; subst.
    destruct (String.eqb k0 key) eqn:E; cbn [map fst].
    + now constructor.
    + constructor; [|now apply IH].
      rewrite setProperty_keys; intros [->|Hin]; [|contradiction].
      now rewrite String.eqb_refl in E.
Qed.

(** An object built by assignments in a loop: each key holds the value of
    the last item assigned under it, and no key occurs twice. *)
Lemma assignments_last_wins {A V : Type} (keyOf : A -> string)
    (valueOf : A -> V) (items : list A) (k : string) :
  let obj :=
    fold_left (fun o x => setProperty (keyOf x) (valueOf x) o) items [] in
  getProperty k obj
  = option_map valueOf
      (find (fun x => String.eqb (keyOf x) k) (rev items))
  /\ NoDup (map fst obj).
Proof.
  cbv zeta; rewrite <- fold_left_rev_right.
  induction (rev items) as [|x r IH]; cbn [fold_right find].
  - split; [reflexivity|constructor].
  - destruct IH as [IH1 IH2]; split; [|now apply setProperty_NoDup].
    destruct (String.eqb (keyOf x) k) eqn:E.
    + apply String.eqb_eq in E; subst k.
      apply getProperty_setProperty_same.
    + now rewrite getProperty_setProperty_other.
Qed.

(** X26. Names that give the same key share one entry: in the objects
    [exportAsJSON] and [exportAsDesignTokens] build, every key occurs once
    and holds the colour of the last palette colour with that key. *)
Theorem exported_objects_last_write_wins (colors : list PaletteColor)
    (key : string) :
  getProperty key (exportAsJSON_palette colors)
  = option_map hex
      (find (fun c => String.eqb (jsonKey (name c)) key) (rev colors))
  /\ NoDup (map fst (exportAsJSON_palette colors))
  /\ getProperty key (exportAsDesignTokens_color colors)
     = option_map (fun c => (hex c, name c))
         (find (fun c => String.eqb (designTokenKey (name c)) key)
            (rev colors))
  /\ NoDup (map fst (exportAsDesignTokens_color colors)).
Proof.
  unfold exportAsJSON_palette, exportAsDesignTokens_color.
  destruct (assignments_last_wins (fun c => jsonKey (name c)) hex colors key)
    as [J1 J2].
  destruct (assignments_last_wins (fun c => designTokenKey (name c))
              (fun c => (hex c, name c)) colors key) as [T1 T2].
  cbv zeta in J1, J2, T1, T2.
  repeat split; assumption.
Qed.

End ObjectProperties.

(* ================================================================== *)
(** ** Properties of the contrast report *)
(* ================================================================== *)

Section ReportProperties.
Import Contrast Palette.
Local Open Scope R_scope.

Lemma mapOrThrow_all {B C : Type} (body : nat -> option B) (g : C -> B)
    (l : list C) :
  forall k : nat,
    (forall j x, nth_error l j = Some x -> body (k + j)%nat = Some (g x)) ->
    mapOrThrow body (seq k (length l)) = Some (map g l).
Proof.
  induction l as [|x l IH]; intros k H; cbn [length seq mapOrThrow map];
    [reflexivity|].
  pose proof (H 0%nat x eq_refl) as H0; rewrite Nat.add_0_r in H0.
  rewrite H0, (IH (S k)); [reflexivity|].
  intros j y Hj; replace (S k + j)%nat with (k + S j)%nat by lia; now apply H.
Qed.

Lemma mapOrThrow_throws {A B : Type} (body : A -> option B) (items : list A)
    (x : A) :
  In x items -> body x = None -> mapOrThrow body items = None.
Proof.
  induction items as [|y items IH]; intros Hin Hx; [destruct Hin|].
  cbn [mapOrThrow]; destruct Hin as [->|Hin].
  - now rewrite Hx.
  - destruct (body y); [|reflexivity]; now rewrite (IH Hin Hx).
Qed.

Lemma reportCell_matrixCell (bgColor fgColor : PaletteColor) :
  reportCell (matrixCell bgColor fgColor) = reportPair bgColor fgColor.
Proof.
  unfold reportCell, matrixCell, reportPair; cbn [ratio compliance]; cbv zeta.
  unfold checkWCAGCompliance; cbn [normalTextAA].
  unfold num_ge, num_le, WCAG_THRESHOLDS.normalTextAA.
  now destruct (Rle_dec 4.5 (calculatePairContrast fgColor bgColor)).
Qed.

Lemma reportRow_generated (colors : list PaletteColor) (i : nat)
    (bgColor : PaletteColor) :
  nth_error colors i = Some bgColor ->
  reportRow colors (generateContrastMatrix colors) i
  = Some (reportRowOf colors bgColor).
Proof.
  intros Hi; unfold reportRow; rewrite Hi.
  rewrite (mapOrThrow_all (B := string) _ (reportPair bgColor) colors 0%nat).
  - reflexivity.
  - intros j fgColor Hj; cbn [Nat.add].
    change (matrixAt (generateContrastMatrix colors) i j)
      with (cellAt (generateContrastMatrix colors) i j).
    rewrite (generateContrastMatrix_cellAt colors i j bgColor fgColor Hi Hj).
    cbn [option_map]; now rewrite reportCell_matrixCell.
Qed.

(** X27. The report of a palette and its own matrix is always produced: it is
    the heading followed by one row per colour, in palette order, each row
    giving for every foreground colour the ratio to two decimals and [Pass]
    exactly when the ratio is at least 4.5. *)
Theorem exportContrastReport_of_generated_matrix
    (colors : list PaletteColor) :
  exportContrastReport colors (generateContrastMatrix colors)
  = Some (joinLines (reportHeading colors
                     ++ map (reportRowOf colors) colors)).
Proof.
  unfold exportContrastReport; cbv zeta.
  rewrite (mapOrThrow_all (B := string) _ (reportRowOf colors) colors 0%nat).
  - unfold reportHeading; now rewrite <- !app_assoc.
  - intros j x Hj; cbn [Nat.add]; now apply reportRow_generated.
Qed.

(** X28. With a matrix that lacks the cell of a pair of palette colours, a
    matrix of another palette for instance, the report throws. *)
Theorem exportContrastReport_throws_on_missing_cell
    (colors : list PaletteColor) (matrix : list (list ContrastMatrixCell))
    (i j : nat) :
  (i < length colors)%nat -> (j < length colors)%nat ->
  matrixAt matrix i j = None ->
  exportContrastReport colors matrix = None.
Proof.
  intros Hi Hj Hcell; unfold exportContrastReport; cbv zeta.
  rewrite (mapOrThrow_throws (reportRow colors matrix) _ i).
  - reflexivity.
  - apply in_seq; lia.
  - unfold reportRow.
    destruct (nth_error colors i); [|reflexivity].
    rewrite (mapOrThrow_throws _ _ j); [reflexivity|apply in_seq; lia|].
    now rewrite Hcell.
Qed.

Lemma exportContrastReport_throws_witness :
  exportContrastReport [mkPaletteColor "c1" "Ink" "#000000"] [] = None.
Proof.
  apply (exportContrastReport_throws_on_missing_cell
           [mkPaletteColor "c1" "Ink" "#000000"] [] 0 0);
    [cbn; lia|cbn; lia|reflexivity].
Defined.

End ReportProperties.

(* ================================================================== *)
(** ** Properties of the colour spaces and of the random pair *)
(* ================================================================== *)

Section ColourSpaceProperties.
Import Contrast.
Local Open Scope R_scope.

Lemma mix_unit (p q w : R) :
  0 <= p <= 1 -> 0 <= q <= 1 -> 0 <= w <= 1 -> 0 <= p + (q - p) * w <= 1.
Proof. intros Hp Hq Hw; split; nra. Qed.

(** [hue2rgb] stays between the two levels it mixes. *)
Lemma hue2rgb_unit (p q t : R) :
  0 <= p <= 1 -> 0 <= q <= 1 -> -1 <= t <= 2 -> 0 <= hue2rgb p q t <= 1.
Proof.
  intros Hp Hq Ht; unfold hue2rgb, num_gt, num_lt.
  repeat match goal with
         | |- context [Rlt_dec ?x ?y] => destruct (Rlt_dec x y)
         end;
    try lra;
    match goal with
    | |- _ <= p + (q - p) * 6 * ?u <= _ =>
        replace (p + (q - p) * 6 * u) with (p + (q - p) * (6 * u)) by ring;
        apply mix_unit; lra
    | |- _ <= p + (q - p) * ?u * 6 <= _ =>
        replace (p + (q - p) * u * 6) with (p + (q - p) * (u * 6)) by ring;
        apply mix_unit; lra
    end.
Qed.

Lemma Math_round_unit (x : R) :
  0 <= x <= 1 -> (0 <= Math_round (x * 255) <= 255)%Z.
Proof.
  intros Hx.
  assert (H0 : (Math_round 0 <= Math_round (x * 255))%Z)
    by (unfold Math_round; apply Zfloor_le; lra).
  assert (H1 : (Math_round (x * 255) <= Math_round 255)%Z)
    by (unfold Math_round; apply Zfloor_le; lra).
  rewrite Math_round_IZR in H0, H1; lia.
Qed.

Lemma hslToRgb_channels (hsl : HSL) :
  0 <= h hsl <= 360 -> 0 <= s hsl <= 100 -> 0 <= l hsl <= 100 ->
  exists red green blue : Z,
    (0 <= red <= 255)%Z /\ (0 <= green <= 255)%Z /\ (0 <= blue <= 255)%Z
    /\ hslToRgb hsl = mkRGB (IZR red) (IZR green) (IZR blue).
Proof.
  destruct hsl as [h0 s0 l0]; cbn [h s l]; intros Hh Hs Hl.
  unfold hslToRgb; cbn [h s l].
  set (hn := h0 / 360); set (sn := s0 / 100); set (ln := l0 / 100).
  assert (Hhn : 0 <= hn <= 1) by (unfold hn; lra).
  assert (Hsn : 0 <= sn <= 1) by (unfold sn; lra).
  assert (Hln : 0 <= ln <= 1) by (unfold ln; lra).
  clearbody hn sn ln.
  match goal with
  | |- context [IZR (Math_round (fst (fst ?t) * 255))] => set (rgb := t)
  end.
  assert (Hrgb : 0 <= fst (fst rgb) <= 1 /\ 0 <= snd (fst rgb) <= 1
                 /\ 0 <= snd rgb <= 1).
  { unfold rgb; destruct (num_eq sn 0); cbn [fst snd]; [tauto|].
    assert (Hq : 0 <= (if num_lt ln 0.5 then ln * (1 + sn)
                       else ln + sn - ln * sn) <= 1).
    { unfold num_lt; destruct (Rlt_dec ln 0.5); split; nra. }
    assert (Hp : 0 <= 2 * ln - (if num_lt ln 0.5 then ln * (1 + sn)
                                else ln + sn - ln * sn) <= 1).
    { unfold num_lt; destruct (Rlt_dec ln 0.5); split; nra. }
    repeat split; apply hue2rgb_unit; try assumption; lra. }
  clearbody rgb; destruct Hrgb as (H1 & H2 & H3).
  exists (Math_round (fst (fst rgb) * 255)),
         (Math_round (snd (fst rgb) * 255)),
         (Math_round (snd rgb * 255)).
  repeat split; try (apply Math_round_unit; assumption).
Qed.


Lemma quotient_bounds (a d : R) :
  0 < d -> - d <= a <= d ->
  -1 <= a / d <= 1 /\ (a < 0 -> a / d < 0) /\ (0 <= a -> 0 <= a / d).
Proof.
  intros Hd Ha.
  assert (Hi : 0 < / d) by now apply Rinv_0_lt_compat.
  assert (E : d * / d = 1) by (apply Rinv_r; lra).
  unfold Rdiv; repeat split; try intros ?; nra.
Qed.

Lemma rgbToHsl_ranges (rgb : RGB) :
  validRGB rgb ->
  0 <= h (rgbToHsl rgb) < 360
  /\ 0 <= s (rgbToHsl rgb) <= 100
  /\ 0 <= l (rgbToHsl rgb) <= 100.
Proof.
  destruct rgb as [r0 g0 b0]; unfold validRGB, validChannel; cbn [r g b].
  intros (Hr & Hg & Hb); unfold rgbToHsl; cbn [r g b h s l].
  set (rn := r0 / 255); set (gn := g0 / 255); set (bn := b0 / 255).
  assert (Hrn : 0 <= rn <= 1) by (unfold rn; lra).
  assert (Hgn : 0 <= gn <= 1) by (unfold gn; lra).
  assert (Hbn : 0 <= bn <= 1) by (unfold bn; lra).
  clearbody rn gn bn.
  destruct (Rmax3_cases rn gn bn) as (M1 & M2 & M3 & Mc).
  destruct (Rmin3_cases rn gn bn) as (m1 & m2 & m3 & mc).
  cbv zeta in M1, M2, M3, Mc, m1, m2, m3, mc.
  set (mx := Rmax rn (Rmax gn bn)) in *.
  set (mn := Rmin rn (Rmin gn bn)) in *.
  assert (Hmx : 0 <= mx <= 1) by (destruct Mc as [-> | [-> | ->]]; lra).
  assert (Hmn : 0 <= mn <= 1) by (destruct mc as [-> | [-> | ->]]; lra).
  clear Mc mc; clearbody mx mn.
  unfold num_ne.
  destruct (Req_dec_T mx mn) as [E|N];
    [rewrite (proj2 (num_eq_true _ _) E)
    |rewrite (proj2 (num_eq_false _ _) N)]; cbn [negb fst snd];
    [repeat split; lra|].
  assert (Hd : 0 < mx - mn) by lra.
  destruct (quotient_bounds (gn - bn) (mx - mn) Hd) as (Q1 & Q1n & Q1p);
    [lra|].
  destruct (quotient_bounds (bn - rn) (mx - mn) Hd) as (Q2 & _); [lra|].
  destruct (quotient_bounds (rn - gn) (mx - mn) Hd) as (Q3 & _); [lra|].
  set (w1 := (gn - bn) / (mx - mn)) in *.
  set (w2 := (bn - rn) / (mx - mn)) in *.
  set (w3 := (rn - gn) / (mx - mn)) in *.
  clearbody w1 w2 w3.
  split; [|split; [|lra]].
  - unfold num_eq, num_lt.
    destruct (Req_dec_T mx rn); [destruct (Rlt_dec gn bn)|]; [| |
      destruct (Req_dec_T mx gn); [|destruct (Req_dec_T mx bn)]].
    + specialize (Q1n ltac:(lra)); lra.
    + specialize (Q1p ltac:(lra)); lra.
    + lra.
    + lra.
    + lra.
  - unfold num_gt, num_lt.
    destruct (Rlt_dec 0.5 ((mx + mn) / 2)).
    + destruct (quotient_bounds (mx - mn) (2 - mx - mn)) as (_ & _ & Q);
        [lra|lra|].
      destruct (quotient_bounds (mx - mn) (2 - mx - mn)) as (Q' & _);
        [lra|lra|].
      specialize (Q ltac:(lra)); lra.
    + destruct (quotient_bounds (mx - mn) (mx + mn)) as (_ & _ & Q);
        [lra|lra|].
      destruct (quotient_bounds (mx - mn) (mx + mn)) as (Q' & _);
        [lra|lra|].
      specialize (Q ltac:(lra)); lra.
Qed.


(** Parsing the text of integer channels in [[0, 255]] gives them back. *)
Lemma hexToRgb_rgbToHex_integers (red green blue : Z) :
  (0 <= red <= 255)%Z -> (0 <= green <= 255)%Z -> (0 <= blue <= 255)%Z ->
  hexToRgb (rgbToHex (mkRGB (IZR red) (IZR green) (IZR blue)))
  = Some (mkRGB (IZR red) (IZR green) (IZR blue)).
Proof.
  intros Hr Hg Hb.
  unfold rgbToHex; cbn [r g b].
  rewrite !toHex_hexPair, !Math_round_IZR.
  rewrite !Z.min_r, !Z.max_r by lia.
  destruct (hexPair_shape red Hr) as (r1 & r2 & Er & Lr1 & Lr2 & Vr).
  destruct (hexPair_shape green Hg) as (g1 & g2 & Eg & Lg1 & Lg2 & Vg).
  destruct (hexPair_shape blue Hb) as (b1 & b2 & Eb & Lb1 & Lb2 & Vb).
  rewrite Er, Eg, Eb; cbn [append].
  rewrite hexToRgb_six_digits by now apply lower_is_hexDigit.
  now rewrite Vr, Vg, Vb.
Qed.



Lemma integerRGB_valid (c : RGB) : integerRGB c -> validRGB c.
Proof.
  intros (red & green & blue & Hr & Hg & Hb & ->).
  unfold validRGB, validChannel; cbn [r g b].
  repeat split; apply IZR_le; lia.
Qed.

(** X12. For a hue in [[0, 360]] and a saturation and a lightness in [[0, 100]]
    [hslToRgb] returns a displayable colour: its three channels are
    integers between 0 and 255. *)
Theorem hslToRgb_channels_in_range (hsl : HSL) :
  0 <= h hsl <= 360 -> 0 <= s hsl <= 100 -> 0 <= l hsl <= 100 ->
  exists red green blue : Z,
    (0 <= red <= 255)%Z /\ (0 <= green <= 255)%Z /\ (0 <= blue <= 255)%Z
    /\ hslToRgb hsl = mkRGB (IZR red) (IZR green) (IZR blue).
Proof. exact (hslToRgb_channels hsl). Qed.

Lemma hslToRgb_channels_in_range_witness :
  exists red green blue : Z,
    (0 <= red <= 255)%Z /\ (0 <= green <= 255)%Z /\ (0 <= blue <= 255)%Z
    /\ hslToRgb (mkHSL 210 60 40) = mkRGB (IZR red) (IZR green) (IZR blue).
Proof.
  apply (hslToRgb_channels_in_range (mkHSL 210 60 40)); cbn [h s l]; lra.
Defined.

Lemma hslToRgb_integerRGB (hsl : HSL) :
  0 <= h hsl <= 360 -> 0 <= s hsl <= 100 -> 0 <= l hsl <= 100 ->
  integerRGB (hslToRgb hsl).
Proof. exact (hslToRgb_channels hsl). Qed.

Lemma candidate_integerRGB (colorToAdjust : RGB) (d : Direction) (i : Z) :
  validRGB colorToAdjust -> integerRGB (candidate colorToAdjust d i).
Proof.
  intros Hv; destruct (rgbToHsl_ranges _ Hv) as (Hh & Hs & _).
  unfold candidate; cbv zeta.
  apply hslToRgb_integerRGB; cbn [h s l]; try lra.
  set (x := lightnessAt d (l (rgbToHsl colorToAdjust)) i).
  unfold Rmax, Rmin; destruct (Rle_dec 100 x); destruct (Rle_dec 0 _); lra.
Qed.

Lemma findPassingColor_integerRGB (colorToAdjust referenceColor : RGB)
    (targetRatio : R) (result : RGB) :
  validRGB colorToAdjust ->
  findPassingColor colorToAdjust referenceColor targetRatio = Some result ->
  integerRGB result.
Proof.
  intros Hv E.
  pose proof (findPassingColor_outcome colorToAdjust referenceColor
                targetRatio) as Hout.
  rewrite E in Hout.
  destruct Hout as (_ & [(i & _ & -> & _) | (_ & i & _ & -> & _)]);
    now apply candidate_integerRGB.
Qed.

(** The last step of [generateAccessiblePair]: after it the foreground
    reaches the AA ratio. *)
Lemma ensured_foreground (foregroundRgb bgRgb : RGB) :
  integerRGB foregroundRgb -> validRGB bgRgb ->
  let ensured :=
    if num_lt (getContrastRatio foregroundRgb bgRgb)
         WCAG_THRESHOLDS.normalTextAA then
      match findPassingColor foregroundRgb bgRgb
              WCAG_THRESHOLDS.normalTextAA with
      | Some passing => passing
      | None => foregroundRgb
      end
    else foregroundRgb in
  integerRGB ensured
  /\ WCAG_THRESHOLDS.normalTextAA <= getContrastRatio ensured bgRgb.
Proof.
  intros Hfg Hbg; cbv zeta.
  unfold num_lt.
  destruct (Rlt_dec (getContrastRatio foregroundRgb bgRgb)
              WCAG_THRESHOLDS.normalTextAA) as [Hlow|Hok].
  - destruct (findPassingColor_reaches foregroundRgb bgRgb
                WCAG_THRESHOLDS.normalTextAA)
      as (passing & E & Hpass);
      [now apply integerRGB_valid|assumption
      |unfold WCAG_THRESHOLDS.normalTextAA; lra|].
    rewrite E; split; [|assumption].
    apply (findPassingColor_integerRGB foregroundRgb bgRgb
             WCAG_THRESHOLDS.normalTextAA); [now apply integerRGB_valid|assumption].
  - split; [assumption|lra].
Qed.

Lemma Math_floor_scaled (u : R) (n : Z) :
  0 <= u < 1 -> (0 < n)%Z -> (0 <= Math_floor (u * IZR n) < n)%Z.
Proof.
  intros Hu Hn; unfold Math_floor.
  pose proof (Zfloor_bound (u * IZR n)) as [Hlo Hhi].
  assert (HN : 0 < IZR n) by (apply (IZR_lt 0); lia).
  assert (H0 : 0 <= u * IZR n < IZR n) by (split; nra).
  split.
  - assert (H : (-1 < Zfloor (u * IZR n))%Z)
      by (apply lt_IZR; lra).
    lia.
  - apply lt_IZR; lra.
Qed.

Lemma backgrounds_parse (bg : string) :
  In bg backgrounds -> exists rgb, hexToRgb bg = Some rgb.
Proof.
  unfold backgrounds; cbn [In]; intros H.
  repeat (destruct H as [<- | H];
          [eexists; apply hexToRgb_six_digits; reflexivity|]).
  contradiction.
Qed.

Lemma item_some {A : Type} (items : list A) (i : Z) :
  (0 <= i < Z.of_nat (length items))%Z ->
  exists x, item items i = Some x /\ In x items.
Proof.
  intros Hi; unfold item.
  destruct (Z.ltb_spec i 0) as [Hneg|_]; [lia|].
  destruct (nth_error items (Z.to_nat i)) as [x|] eqn:E.
  - exists x; split; [reflexivity|now apply nth_error_In in E].
  - apply nth_error_None in E; lia.
Qed.

(** X14. Whatever the four random draws, [generateAccessiblePair] returns a
    pair: the background is one of the eight listed, the foreground is the
    text of a colour, and the contrast ratio of the two colours is at
    least 4.5. *)
Theorem generateAccessiblePair_passes_AA
    (random1 random2 random3 random4 : R) :
  0 <= random1 < 1 -> 0 <= random2 < 1 -> 0 <= random3 < 1 ->
  0 <= random4 < 1 ->
  exists (pair : AccessiblePair) (fg bg : RGB),
    generateAccessiblePair random1 random2 random3 random4 = Some pair
    /\ In (background pair) backgrounds
    /\ hexToRgb (foreground pair) = Some fg
    /\ hexToRgb (background pair) = Some bg
    /\ WCAG_THRESHOLDS.normalTextAA <= getContrastRatio fg bg.
Proof.
  intros H1 H2 H3 H4.
  destruct (item_some backgrounds
              (Math_floor (random1 * IZR (Z.of_nat (length backgrounds)))))
    as (bgText & Eitem & Hin).
  { apply Math_floor_scaled; [assumption|cbn; lia]. }
  destruct (backgrounds_parse bgText Hin) as (bgRgb & Ebg).
  pose proof (hexToRgb_validRGB _ _ Ebg) as Hbg.
  pose proof (Math_floor_scaled random2 360 H2 ltac:(lia)) as F2.
  pose proof (Math_floor_scaled random3 40 H3 ltac:(lia)) as F3.
  pose proof (Math_floor_scaled random4 25 H4 ltac:(lia)) as F4.
  pose proof (Math_floor_scaled random4 30 H4 ltac:(lia)) as F5.
  unfold generateAccessiblePair; rewrite Eitem, Ebg; cbv zeta.
  set (hue := IZR (Math_floor (random2 * 360))).
  set (saturation := 50 + IZR (Math_floor (random3 * 40))).
  set (targetLightness :=
         if num_lt (getRelativeLuminance bgRgb) 0.5
         then 70 + IZR (Math_floor (random4 * 25))
         else 15 + IZR (Math_floor (random4 * 30))).
  assert (Hhue : 0 <= hue <= 360).
  { unfold hue; split; [apply (IZR_le 0)|apply (IZR_le _ 360)]; lia. }
  assert (Hsat : 0 <= saturation <= 100).
  { unfold saturation.
    assert (0 <= IZR (Math_floor (random3 * 40)) <= 40)
      by (split; [apply (IZR_le 0)|apply (IZR_le _ 40)]; lia).
    lra. }
  assert (Hl : 0 <= targetLightness <= 100).
  { unfold targetLightness.
    assert (0 <= IZR (Math_floor (random4 * 25)) <= 25)
      by (split; [apply (IZR_le 0)|apply (IZR_le _ 25)]; lia).
    assert (0 <= IZR (Math_floor (random4 * 30)) <= 30)
      by (split; [apply (IZR_le 0)|apply (IZR_le _ 30)]; lia).
    destruct (num_lt (getRelativeLuminance bgRgb) 0.5); lra. }
  clearbody hue saturation targetLightness.
  pose proof (hslToRgb_integerRGB (mkHSL hue saturation targetLightness)
                Hhue Hsat Hl) as Hfg.
  destruct (ensured_foreground _ bgRgb Hfg Hbg) as [Hint Hpass].
  cbv zeta in Hint, Hpass.
  match goal with
  | |- context [rgbToHex ?c] => set (ensured := c) in *
  end.
  clearbody ensured.
  exists {| foreground := rgbToHex ensured; background := bgText |},
         ensured, bgRgb.
  cbn [foreground background]; repeat split; try assumption.
  destruct Hint as (red & green & blue & Hr & Hg & Hb & ->).
  now apply hexToRgb_rgbToHex_integers.
Qed.

Lemma generateAccessiblePair_passes_AA_witness :
  exists (pair : AccessiblePair) (fg bg : RGB),
    generateAccessiblePair 0.1 0.5 0.25 0.75 = Some pair
    /\ In (background pair) backgrounds
    /\ hexToRgb (foreground pair) = Some fg
    /\ hexToRgb (background pair) = Some bg
    /\ WCAG_THRESHOLDS.normalTextAA <= getContrastRatio fg bg.
Proof.
  apply (generateAccessiblePair_passes_AA 0.1 0.5 0.25 0.75); lra.
Defined.

End ColourSpaceProperties.

(* ================================================================== *)
(** ** Properties of the stored preferences *)
(* ================================================================== *)

Section StorageProperties.
Import ColorBlindness.

Lemma getItem_removeItem_same (key : string) (storage : Storage) :
  getItem key (removeItem key storage) = None.
Proof.
  induction storage as [|[k v] rest IH]; cbn [removeItem getItem];
    [reflexivity|].
  destruct (String.eqb k key) eqn:E; [exact IH|].
  cbn [getItem]; now rewrite E.
Qed.

Lemma getItem_removeItem_other (key other : string) (storage : Storage) :
  String.eqb other key = false ->
  getItem key (removeItem other storage) = getItem key storage.
Proof.
  intros Hne.
  induction storage as [|[k v] rest IH]; cbn [removeItem getItem];
    [reflexivity|].
  destruct (String.eqb k other) eqn:E.
  - apply String.eqb_eq in E; subst k; now rewrite Hne.
  - cbn [getItem]; now rewrite IH.
Qed.

Lemma getItem_setItem_same (key value : string) (storage : Storage) :
  getItem key (setItem key value storage) = Some value.
Proof. unfold setItem; cbn [getItem]; now rewrite String.eqb_refl. Qed.

Lemma getItem_setItem_other (key other value : string) (storage : Storage) :
  String.eqb other key = false ->
  getItem key (setItem other value storage) = getItem key storage.
Proof.
  intros Hne; unfold setItem; cbn [getItem]; rewrite Hne.
  now apply getItem_removeItem_other.
Qed.

Lemma removeItem_removeItem (key : string) (storage : Storage) :
  removeItem key (removeItem key storage) = removeItem key storage.
Proof.
  induction storage as [|[k v] rest IH]; cbn [removeItem]; [reflexivity|].
  destruct (String.eqb k key) eqn:E; [exact IH|].
  cbn [removeItem]; now rewrite E, IH.
Qed.

Lemma setItem_setItem (key value value' : string) (storage : Storage) :
  setItem key value (setItem key value' storage) = setItem key value storage.
Proof.
  unfold setItem; cbn [removeItem]; rewrite String.eqb_refl.
  now rewrite removeItem_removeItem.
Qed.

Lemma cvdTypeText_injective (mode mode' : CVDType) :
  cvdTypeText mode = cvdTypeText mode' -> mode = mode'.
Proof. destruct mode, mode'; cbn; intros E; try reflexivity; discriminate. Qed.

(** Looking a deficiency type up in [CVD_TYPES] by its text *)
Lemma find_CVD_TYPES (mode : CVDType) :
  mode <> none ->
  exists info,
    find (fun t => String.eqb (cvdTypeText (id t)) (cvdTypeText mode))
      CVD_TYPES = Some info
    /\ id info = mode.
Proof.
  destruct mode; intros Hn; try contradiction;
    (eexists; split; [reflexivity|reflexivity]).
Qed.

Lemma find_CVD_TYPES_inv (stored : string) (info : CVDInfo) :
  find (fun t => String.eqb (cvdTypeText (id t)) stored) CVD_TYPES
  = Some info ->
  stored = cvdTypeText (id info) /\ id info <> none.
Proof.
  intros E; apply find_some in E; destruct E as [Hin E].
  apply String.eqb_eq in E; split; [now symmetry|].
  unfold CVD_TYPES in Hin; cbn [In] in Hin.
  decompose [or] Hin; subst; cbn [id]; try discriminate; contradiction.
Qed.

Lemma initCVDMode_stored (mode : CVDType) (page : Page) :
  mode <> none ->
  storedText CVD_STORAGE_KEY page = Some (cvdTypeText mode) ->
  initCVDMode page = setCVDMode mode page.
Proof.
  intros Hn; unfold storedText, initCVDMode.
  destruct (localStorage page) as [storage|]; [|discriminate].
  intros ->.
  destruct (find_CVD_TYPES mode Hn) as (info & -> & ->).
  now destruct mode.
Qed.

Lemma initCVDMode_cases (page : Page) :
  initCVDMode page = page
  \/ exists mode,
       mode <> none
       /\ storedText CVD_STORAGE_KEY page = Some (cvdTypeText mode)
       /\ initCVDMode page = setCVDMode mode page.
Proof.
  unfold storedText, initCVDMode.
  destruct (localStorage page) as [storage|]; [|now left].
  destruct (getItem CVD_STORAGE_KEY storage) as [stored|]; [|now left].
  destruct (String.eqb stored EmptyString); [now left|].
  destruct (find _ CVD_TYPES) as [info|] eqn:E; [|now left].
  apply find_CVD_TYPES_inv in E; destruct E as [-> Hn].
  right; exists (id info); repeat split; assumption.
Qed.

(** What [initCVDMode] does is decided by the stored text: for the text of
    a deficiency type it is [setCVDMode] of that type; for any other text,
    ['none'] and the empty text among them, and without an entry or a
    storage, the page is left as it is and no event is dispatched. *)
Theorem initCVDMode_outcome (page : Page) :
  (forall mode, mode <> none ->
     storedText CVD_STORAGE_KEY page = Some (cvdTypeText mode) ->
     initCVDMode page = setCVDMode mode page)
  /\ ((forall mode, mode <> none ->
         storedText CVD_STORAGE_KEY page <> Some (cvdTypeText mode)) ->
      initCVDMode page = page).
Proof.
  split.
  - intros mode; apply initCVDMode_stored.
  - intros Hno.
    destruct (initCVDMode_cases page) as [E | (mode & Hn & Hs & _)];
      [exact E|].
    now destruct (Hno mode Hn).
Qed.

Lemma storedText_setCVDMode (mode : CVDType) (page : Page) :
  localStorage page <> None ->
  storedText CVD_STORAGE_KEY (setCVDMode mode page)
  = Some (cvdTypeText mode).
Proof.
  unfold storedText, setCVDMode; cbn [localStorage].
  destruct (localStorage page); [intros _|intros H; now destruct H].
  apply getItem_setItem_same.
Qed.

(** X20. The mode chosen with [setCVDMode] is the mode after the next load of
    the page: on a page whose module variable is back at ['none'] and whose
    storage is the one [setCVDMode] left, [initCVDMode] sets the mode
    again, with the same filter and attribute for a deficiency type, and
    leaves the storage as it is. *)
Theorem initCVDMode_restores_mode (mode : CVDType) (page later : Page) :
  localStorage page <> None ->
  localStorage later = localStorage (setCVDMode mode page) ->
  currentCVDMode later = none ->
  getCurrentCVDMode (initCVDMode later) = mode
  /\ (mode <> none ->
      filter (initCVDMode later) = filter (setCVDMode mode page)
      /\ dataCvdMode (initCVDMode later) = dataCvdMode (setCVDMode mode page))
  /\ localStorage (initCVDMode later) = localStorage later.
Proof.
  intros Hst Hlater Hcur.
  assert (Hs : storedText CVD_STORAGE_KEY later = Some (cvdTypeText mode)).
  { unfold storedText; rewrite Hlater.
    exact (storedText_setCVDMode mode page Hst). }
  destruct (Bool.reflect_dec _ _ (String.eqb_spec (cvdTypeText mode) "none"))
    as [En|Hn].
  - apply (cvdTypeText_injective mode none) in En; subst mode.
    destruct (initCVDMode_cases later) as [E | (m & Hm & Hs' & _)].
    + rewrite E; unfold getCurrentCVDMode.
      split; [assumption|split; [intros H; now destruct H|reflexivity]].
    + rewrite Hs in Hs'; injection Hs' as Hs'.
      apply (cvdTypeText_injective none m) in Hs'; now destruct Hm.
  - assert (Hmode : mode <> none) by (intros ->; now apply Hn).
    rewrite (initCVDMode_stored mode later Hmode Hs).
    unfold getCurrentCVDMode.
    split; [reflexivity|split; [intros _; split; reflexivity|]].
    cbn [setCVDMode localStorage]; rewrite Hlater.
    cbn [setCVDMode localStorage].
    destruct (localStorage page); [|reflexivity].
    now rewrite setItem_setItem.
Qed.

Lemma initCVDMode_restores_mode_witness :
  getCurrentCVDMode
    (initCVDMode
       (mkPage none (Some [("huepass-cvd-mode", "tritanopia")]%string)
          EmptyString None []))
  = tritanopia
  /\ (tritanopia <> none ->
      filter
        (initCVDMode
           (mkPage none (Some [("huepass-cvd-mode", "tritanopia")]%string)
              EmptyString None []))
      = filter (setCVDMode tritanopia
                  (mkPage none (Some []) EmptyString None []))
      /\ dataCvdMode
           (initCVDMode
              (mkPage none (Some [("huepass-cvd-mode", "tritanopia")]%string)
                 EmptyString None []))
         = dataCvdMode (setCVDMode tritanopia
                          (mkPage none (Some []) EmptyString None [])))
  /\ localStorage
       (initCVDMode
          (mkPage none (Some [("huepass-cvd-mode", "tritanopia")]%string)
             EmptyString None []))
     = localStorage
         (mkPage none (Some [("huepass-cvd-mode", "tritanopia")]%string)
            EmptyString None []).
Proof.
  apply (initCVDMode_restores_mode tritanopia
           (mkPage none (Some []) EmptyString None [])
           (mkPage none (Some [("huepass-cvd-mode", "tritanopia")]%string)
              EmptyString None []));
    [discriminate|reflexivity|reflexivity].
Defined.


Lemma keys_differ :
  String.eqb Palette.STORAGE_KEY CVD_STORAGE_KEY = false
  /\ String.eqb CVD_STORAGE_KEY Palette.STORAGE_KEY = false.
Proof. split; reflexivity. Qed.

Lemma agreesWithMode_setCVDMode (mode : CVDType) (page : Page) :
  agreesWithMode (setCVDMode mode page).
Proof.
  unfold agreesWithMode; cbv zeta.
  change (currentCVDMode (setCVDMode mode page)) with mode.
  split; [reflexivity|split; [reflexivity|]].
  intros _ Hst; apply storedText_setCVDMode.
  cbn [setCVDMode localStorage] in Hst.
  destruct (localStorage page); [discriminate|now destruct Hst].
Qed.

Lemma agreesWithMode_withStorage (page : Page) (storage : option Storage) :
  (storage <> None ->
   match storage with
   | Some st => getItem CVD_STORAGE_KEY st
   | None => None
   end = storedText CVD_STORAGE_KEY page
   /\ localStorage page <> None) ->
  agreesWithMode page -> agreesWithMode (withStorage page storage).
Proof.
  intros Hkeep (Hf & Ha & Hs); unfold agreesWithMode; cbv zeta.
  split; [exact Hf|split; [exact Ha|]].
  cbn [withStorage currentCVDMode localStorage]; intros Hm Hst.
  destruct (Hkeep Hst) as [E Hp].
  unfold storedText at 1; cbn [withStorage localStorage].
  rewrite E; now apply Hs.
Qed.

Lemma agreesWithMode_call (JSON_stringify : JSONValue -> string) (c : Call)
    (page : Page) :
  agreesWithMode page -> agreesWithMode (call JSON_stringify c page).
Proof.
  intros Hp; destruct c as [mode| |colors|]; cbn [call].
  - apply agreesWithMode_setCVDMode.
  - destruct (initCVDMode_cases page) as [-> | (mode & _ & _ & ->)];
      [assumption|apply agreesWithMode_setCVDMode].
  - apply agreesWithMode_withStorage; [|assumption].
    unfold Palette.savePalette, storedText.
    destruct (localStorage page); [intros _|intros H; now destruct H].
    split; [|discriminate].
    apply getItem_setItem_other, keys_differ.
  - apply agreesWithMode_withStorage; [|assumption].
    unfold Palette.clearStoredPalette, storedText.
    destruct (localStorage page); [intros _|intros H; now destruct H].
    split; [|discriminate].
    apply getItem_removeItem_other, keys_differ.
Qed.

(** [initCVDMode] is decided by the stored preference. *)
Lemma initCVDMode_by_stored (page page' : Page) :
  storedText CVD_STORAGE_KEY page = storedText CVD_STORAGE_KEY page' ->
  (initCVDMode page = page /\ initCVDMode page' = page')
  \/ exists mode,
       initCVDMode page = setCVDMode mode page
       /\ initCVDMode page' = setCVDMode mode page'.
Proof.
  intros E.
  destruct (initCVDMode_cases page) as [Hp | (mode & Hn & Hs & Hp)].
  - destruct (initCVDMode_cases page') as [Hq | (mode & Hn & Hs & Hq)].
    + now left.
    + right; exists mode; split; [|exact Hq].
      rewrite <- E in Hs; now apply initCVDMode_stored.
  - right; exists mode; split; [exact Hp|].
    rewrite E in Hs; now apply initCVDMode_stored.
Qed.

Lemma sameModeState_setCVDMode (mode : CVDType) (page page' : Page) :
  sameModeState page page' ->
  (localStorage page = None <-> localStorage page' = None) ->
  sameModeState (setCVDMode mode page) (setCVDMode mode page').
Proof.
  intros (_ & _ & _ & Hd & _) Hav.
  unfold sameModeState, storedText; cbn [setCVDMode currentCVDMode filter
    dataCvdMode dispatched localStorage].
  rewrite Hd; repeat split.
  destruct (localStorage page) as [st|], (localStorage page') as [st'|].
  - now rewrite !getItem_setItem_same.
  - destruct Hav as [_ H]; now specialize (H eq_refl).
  - destruct Hav as [H _]; now specialize (H eq_refl).
  - reflexivity.
Qed.

Lemma available_setCVDMode (mode : CVDType) (page : Page) :
  localStorage (setCVDMode mode page) = None <-> localStorage page = None.
Proof.
  cbn [setCVDMode localStorage]; destruct (localStorage page);
    split; intros H; (reflexivity || discriminate).
Qed.

Lemma storedPreference_paletteCall (JSON_stringify : JSONValue -> string)
    (c : Call) (page : Page) :
  isModeCall c = false ->
  sameModeState (call JSON_stringify c page) page
  /\ (localStorage (call JSON_stringify c page) = None
      <-> localStorage page = None).
Proof.
  destruct c as [mode| |colors|]; try discriminate; intros _;
    cbn [call]; unfold sameModeState, storedText;
    cbn [withStorage currentCVDMode filter dataCvdMode dispatched
         localStorage];
    unfold Palette.savePalette, Palette.clearStoredPalette;
    destruct (localStorage page) as [st|];
    repeat split; try discriminate; try reflexivity.
  - apply getItem_setItem_other, keys_differ.
  - apply getItem_removeItem_other, keys_differ.
Qed.

Lemma calls_without_palette_calls (JSON_stringify : JSONValue -> string)
    (cs : list Call) :
  forall page page' : Page,
    sameModeState page page' ->
    (localStorage page = None <-> localStorage page' = None) ->
    sameModeState (calls JSON_stringify cs page)
      (calls JSON_stringify (List.filter isModeCall cs) page').
Proof.
  unfold calls.
  induction cs as [|c cs IH]; intros page page' Hs Hav;
    cbn [List.filter fold_left]; [exact Hs|].
  destruct (isModeCall c) eqn:Ec.
  - cbn [fold_left]; destruct c as [mode| |colors|]; try discriminate;
      cbn [call].
    + apply IH; [now apply sameModeState_setCVDMode|].
      now rewrite !available_setCVDMode.
    + destruct (initCVDMode_by_stored page page')
        as [[-> ->] | (mode & -> & ->)];
        [apply Hs|now apply IH|].
      apply IH; [now apply sameModeState_setCVDMode|].
      now rewrite !available_setCVDMode.
  - destruct (storedPreference_paletteCall JSON_stringify c page Ec)
      as [(H1 & H2 & H3 & H4 & H5) Hav'].
    destruct Hs as (S1 & S2 & S3 & S4 & S5).
    apply IH.
    + unfold sameModeState; repeat split; congruence.
    + now rewrite Hav'.
Qed.

(** X21. Whatever the scripts are called to do with the stored preferences, in
    whatever order, the page stays in agreement with the current mode: the
    filter and the attribute of the root element are those of the mode, and
    a deficiency type that is the current mode is the stored preference.
    Saving and clearing the palette never touch the CVD preference: with
    these calls left out of the sequence, the current mode, the filter, the
    attribute, the events dispatched and the stored CVD preference come out
    the same. *)
Theorem cvd_mode_agreement_kept (JSON_stringify : JSONValue -> string)
    (cs : list Call) (page : Page) :
  agreesWithMode page ->
  agreesWithMode (calls JSON_stringify cs page)
  /\ sameModeState (calls JSON_stringify cs page)
       (calls JSON_stringify (List.filter isModeCall cs) page).
Proof.
  intros Hp; split.
  - revert page Hp; unfold calls.
    induction cs as [|c cs IH]; intros page Hp; cbn [fold_left];
      [assumption|].
    now apply IH, agreesWithMode_call.
  - apply calls_without_palette_calls; [|tauto].
    unfold sameModeState; repeat split.
Qed.

Lemma cvd_mode_agreement_kept_witness :
  agreesWithMode
    (calls printValue
       [Call_savePalette [Palette.mkPaletteColor "c1" "Ink" "#000000"];
        Call_setCVDMode tritanopia; Call_clearStoredPalette;
        Call_initCVDMode;
        Call_savePalette [Palette.mkPaletteColor "c1" "Ink" "#000000"]]
       (mkPage none (Some []) EmptyString None []))
  /\ sameModeState
       (calls printValue
          [Call_savePalette [Palette.mkPaletteColor "c1" "Ink" "#000000"];
           Call_setCVDMode tritanopia; Call_clearStoredPalette;
           Call_initCVDMode;
           Call_savePalette [Palette.mkPaletteColor "c1" "Ink" "#000000"]]
          (mkPage none (Some []) EmptyString None []))
       (calls printValue
          (List.filter isModeCall
             [Call_savePalette [Palette.mkPaletteColor "c1" "Ink" "#000000"];
              Call_setCVDMode tritanopia; Call_clearStoredPalette;
              Call_initCVDMode;
              Call_savePalette
                [Palette.mkPaletteColor "c1" "Ink" "#000000"]])
          (mkPage none (Some []) EmptyString None [])).
Proof.
  apply (cvd_mode_agreement_kept printValue
           [Call_savePalette [Palette.mkPaletteColor "c1" "Ink" "#000000"];
            Call_setCVDMode tritanopia; Call_clearStoredPalette;
            Call_initCVDMode;
            Call_savePalette [Palette.mkPaletteColor "c1" "Ink" "#000000"]]
           (mkPage none (Some []) EmptyString None [])).
  unfold agreesWithMode; cbn.
  split; [reflexivity|split; [reflexivity|intros H; now destruct H]].
Defined.

Lemma loadPalette_storedText (JSON_parse : string -> option JSONValue)
    (page : Page) :
  Palette.loadPalette JSON_parse (localStorage page)
  = match storedText Palette.STORAGE_KEY page with
    | Some stored =>
        if String.eqb stored EmptyString then JSON_array []
        else match JSON_parse stored with
             | Some value => value
             | None => JSON_array []
             end
    | None => JSON_array []
    end.
Proof.
  unfold Palette.loadPalette, storedText.
  now destruct (localStorage page).
Qed.

Lemma storedPalette_setCVDMode (mode : CVDType) (page : Page) :
  storedText Palette.STORAGE_KEY (setCVDMode mode page)
  = storedText Palette.STORAGE_KEY page.
Proof.
  unfold storedText; cbn [setCVDMode localStorage].
  destruct (localStorage page); [|reflexivity].
  apply getItem_setItem_other, keys_differ.
Qed.

Lemma storedPalette_modeCalls (JSON_stringify : JSONValue -> string)
    (cs : list Call) (page : Page) :
  forallb isModeCall cs = true ->
  storedText Palette.STORAGE_KEY (calls JSON_stringify cs page)
  = storedText Palette.STORAGE_KEY page.
Proof.
  unfold calls; revert page.
  induction cs as [|c cs IH]; intros page Hcs; cbn [fold_left];
    [reflexivity|].
  cbn [forallb] in Hcs; apply andb_true_iff in Hcs; destruct Hcs as [Hc Hcs].
  rewrite (IH _ Hcs).
  destruct c as [mode| |colors|]; try discriminate; cbn [call].
  - apply storedPalette_setCVDMode.
  - destruct (initCVDMode_cases page) as [-> | (mode & _ & _ & ->)];
      [reflexivity|apply storedPalette_setCVDMode].
Qed.

(** X29. A saved palette is what [loadPalette] returns afterwards, also when the
    CVD mode is set or initialised in between, provided there is a storage
    and [JSON.parse] reads the text of [JSON.stringify] back. *)
Theorem loadPalette_after_savePalette
    (JSON_stringify : JSONValue -> string)
    (JSON_parse : string -> option JSONValue)
    (colors : list Palette.PaletteColor) (modeCalls : list Call)
    (page : Page) :
  localStorage page <> None ->
  forallb isModeCall modeCalls = true ->
  JSON_stringify (Palette.paletteValue colors) <> EmptyString ->
  JSON_parse (JSON_stringify (Palette.paletteValue colors))
  = Some (Palette.paletteValue colors) ->
  Palette.loadPalette JSON_parse
    (localStorage
       (calls JSON_stringify (Call_savePalette colors :: modeCalls) page))
  = Palette.paletteValue colors.
Proof.
  intros Hst Hcs Hne Hparse.
  rewrite loadPalette_storedText.
  change (calls JSON_stringify (Call_savePalette colors :: modeCalls) page)
    with (calls JSON_stringify modeCalls
            (call JSON_stringify (Call_savePalette colors) page)).
  rewrite (storedPalette_modeCalls _ _ _ Hcs).
  unfold storedText; cbn [call withStorage localStorage].
  unfold Palette.savePalette.
  destruct (localStorage page); [|now destruct Hst].
  rewrite getItem_setItem_same.
  apply String.eqb_neq in Hne; rewrite Hne.
  now rewrite Hparse.
Qed.

Lemma loadPalette_after_savePalette_witness :
  Palette.loadPalette
    (readBack
       (Palette.paletteValue
          [Palette.mkPaletteColor "c1" "Ink" "#000000";
           Palette.mkPaletteColor "c2" "Sky Blue" "#12abff"]))
    (localStorage
       (calls printValue
          [Call_savePalette
             [Palette.mkPaletteColor "c1" "Ink" "#000000";
              Palette.mkPaletteColor "c2" "Sky Blue" "#12abff"];
           Call_setCVDMode deuteranopia; Call_initCVDMode]
          (mkPage none (Some []) EmptyString None [])))
  = Palette.paletteValue
      [Palette.mkPaletteColor "c1" "Ink" "#000000";
       Palette.mkPaletteColor "c2" "Sky Blue" "#12abff"].
Proof.
  apply (loadPalette_after_savePalette printValue
           (readBack
              (Palette.paletteValue
                 [Palette.mkPaletteColor "c1" "Ink" "#000000";
                  Palette.mkPaletteColor "c2" "Sky Blue" "#12abff"]))
           [Palette.mkPaletteColor "c1" "Ink" "#000000";
            Palette.mkPaletteColor "c2" "Sky Blue" "#12abff"]
           [Call_setCVDMode deuteranopia; Call_initCVDMode]
           (mkPage none (Some []) EmptyString None []));
    [discriminate|reflexivity|vm_compute; discriminate|].
  unfold readBack; now rewrite String.eqb_refl.
Defined.

(** X30. After [clearStoredPalette] the palette loaded is the empty one,
    whatever [JSON.parse] does and also when the CVD mode is set or
    initialised in between; the stored CVD preference is not cleared. *)
Theorem loadPalette_after_clearStoredPalette
    (JSON_stringify : JSONValue -> string)
    (JSON_parse : string -> option JSONValue)
    (modeCalls : list Call) (page : Page) :
  forallb isModeCall modeCalls = true ->
  Palette.loadPalette JSON_parse
    (localStorage
       (calls JSON_stringify (Call_clearStoredPalette :: modeCalls) page))
  = JSON_array []
  /\ storedText CVD_STORAGE_KEY
       (call JSON_stringify Call_clearStoredPalette page)
     = storedText CVD_STORAGE_KEY page.
Proof.
  intros Hcs; split.
  - rewrite loadPalette_storedText.
    change (calls JSON_stringify (Call_clearStoredPalette :: modeCalls) page)
      with (calls JSON_stringify modeCalls
              (call JSON_stringify Call_clearStoredPalette page)).
    rewrite (storedPalette_modeCalls _ _ _ Hcs).
    unfold storedText; cbn [call withStorage localStorage].
    unfold Palette.clearStoredPalette.
    destruct (localStorage page); [|reflexivity].
    now rewrite getItem_removeItem_same.
  - unfold storedText; cbn [call withStorage localStorage].
    unfold Palette.clearStoredPalette.
    destruct (localStorage page); [|reflexivity].
    apply getItem_removeItem_other, keys_differ.
Qed.

Lemma loadPalette_after_clearStoredPalette_witness :
  Palette.loadPalette (fun _ => Some JSON_null)
    (localStorage
       (calls (fun _ => "[]"%string)
          [Call_clearStoredPalette; Call_setCVDMode protanopia]
          (mkPage none (Some [("huepass-palette", "[]")]%string)
             EmptyString None [])))
  = JSON_array []
  /\ storedText CVD_STORAGE_KEY
       (call (fun _ => "[]"%string) Call_clearStoredPalette
          (mkPage none (Some [("huepass-palette", "[]")]%string)
             EmptyString None []))
     = storedText CVD_STORAGE_KEY
         (mkPage none (Some [("huepass-palette", "[]")]%string)
            EmptyString None []).
Proof.
  apply (loadPalette_after_clearStoredPalette (fun _ => "[]"%string)
           (fun _ => Some JSON_null) [Call_setCVDMode protanopia]
           (mkPage none (Some [("huepass-palette", "[]")]%string)
              EmptyString None []));
    reflexivity.
Defined.

End StorageProperties.
